(** * Allele-specific DNase/ATAC signal: a shallow embedding of
      [dnase_atac_related/allele_specific_dnase.py]

    The script is a straight-line batch program over one global dictionary
    [snp_dict].  Each numbered stage of the script is embedded below as a
    function on an insertion-ordered dictionary; Python exceptions are
    values of an error monad, so that a [KeyError] or [IndexError] of the
    script is visible as a result of the model.  A run of the core gives
    the lines it printed together with the exception that ended it, if one
    did: the summary line is printed before the keys are sorted, and the
    sort can raise.

    Dictionaries keep insertion order, which is their iteration order in
    Python 3.7 and later.  Floating-point p-values are rendered as exact
    rationals ([Q]); the library calls that produce and print them
    ([scipy.stats.binom_test] and [str] on a float) are parameters of the
    model, as are [str.split] and [int]. *)

From Stdlib Require Import ZArith List String Ascii Bool Lia.
From Stdlib Require Import QArith Qminmax Lqa.
From Stdlib Require Import DecimalString Permutation Sorted.
From Stdlib Require OrderedTypeEx.
Import ListNotations.

Open Scope Z_scope.

Infix "+++" := String.append (right associativity, at level 60).

(** ** Python exceptions and the error monad *)

Inductive exn : Type :=
| KeyError (k : string)
| IndexError
| ValueError.

Inductive result (A : Type) : Type :=
| Ok (a : A)
| Raise (e : exn).

Arguments Ok {A} a.
Arguments Raise {A} e.

Definition bind {A B : Type} (m : result A) (f : A -> result B) : result B :=
  match m with
  | Ok a => f a
  | Raise e => Raise e
  end.

Notation "x <- m ;; k" := (bind m (fun x => k))
  (at level 61, m at next level, right associativity).
Notation "' p <- m ;; k" := (bind m (fun x => match x with p => k end))
  (at level 61, p pattern, m at next level, right associativity).

Definition is_ok {A : Type} (m : result A) : bool :=
  match m with Ok _ => true | Raise _ => false end.

(** [for x in xs: acc = body(x, acc)] with exceptions leaving the loop. *)
Fixpoint foldM {A S : Type} (body : A -> S -> result S) (xs : list A) (s : S)
  : result S :=
  match xs with
  | [] => Ok s
  | x :: xs' => s' <- body x s ;; foldM body xs' s'
  end.

Fixpoint mapM {A B : Type} (f : A -> result B) (xs : list A) : result (list B) :=
  match xs with
  | [] => Ok []
  | x :: xs' => y <- f x ;; ys <- mapM f xs' ;; Ok (y :: ys)
  end.

(** ** Python sequences: indexing with negative offsets *)

(** [l[i]]: offsets [0 .. len-1] count from the front, offsets
    [-len .. -1] count from the end, anything else is an [IndexError]. *)
Definition py_index {A : Type} (l : list A) (i : Z) : option A :=
  let n := Z.of_nat (List.length l) in
  if (0 <=? i) && (i <? n) then nth_error l (Z.to_nat i)
  else if (- n <=? i) && (i <? 0) then nth_error l (Z.to_nat (n + i))
  else None.

Definition index_or_raise {A : Type} (l : list A) (i : Z) : result A :=
  match py_index l i with
  | Some a => Ok a
  | None => Raise IndexError
  end.

(** [s[i]] on a [str] gives the one-character string at that offset. *)
Definition str_index (s : string) (i : Z) : option string :=
  match py_index (list_ascii_of_string s) i with
  | Some c => Some (String c EmptyString)
  | None => None
  end.

Definition len (s : string) : Z := Z.of_nat (String.length s).

(** [str(n)] for an [int]. *)
Definition str_int (n : Z) : string := NilZero.string_of_int (Z.to_int n).

(** ** Python dictionaries with string keys, in insertion order *)

Definition dict (V : Type) : Type := list (string * V).

Fixpoint dict_get {V : Type} (d : dict V) (k : string) : option V :=
  match d with
  | [] => None
  | (k', v) :: d' => if String.eqb k' k then Some v else dict_get d' k
  end.

Definition dict_mem {V : Type} (d : dict V) (k : string) : bool :=
  match dict_get d k with Some _ => true | None => false end.

(** [d[k] = v]: an existing key keeps its place, a new key goes last. *)
Fixpoint dict_set {V : Type} (d : dict V) (k : string) (v : V) : dict V :=
  match d with
  | [] => [(k, v)]
  | (k', v') :: d' =>
      if String.eqb k' k then (k', v) :: d' else (k', v') :: dict_set d' k v
  end.

Definition dict_keys {V : Type} (d : dict V) : list string := map fst d.

Definition dict_lookup {V : Type} (d : dict V) (k : string) : result V :=
  match dict_get d k with
  | Some v => Ok v
  | None => Raise (KeyError k)
  end.

(** ** Data model *)

(** What the script reads off a pysam aligned segment. *)
Record read : Type := mkRead {
  reference_start : Z;
  query_sequence : string;
  query_alignment_qualities : list Z;
  NM : Z
}.

(** One entry of [allelic_dict]: [{'count': n}], later with ['pvalue']. *)
Record allele : Type := mkAllele {
  count : Z;
  pvalue : option Q
}.

(** One value of [snp_dict].  Keys that the script adds or deletes while a
    later stage tests for them are optional fields. *)
Record snp : Type := mkSnp {
  chr : string;
  pos : Z;
  id : string;
  ref : string;
  alt : string;
  reads : option (list read);
  flag_sufficient_reads : bool;
  report_comment : string;
  report_ref : string;
  report_alt : string;
  report_other : string;
  allelic_dict : option (dict allele)
}.

Inductive snp_format : Type := bed | vcf.

Record config : Type := mkConfig {
  SNP_FORMAT : snp_format;
  ref_col : Z;
  alt_col : Z;
  MAX_MISSMATCHES_PER_READ : Z;
  MIN_MAPPING_QUAL_AT_SNP : Z;
  MIN_READS_AT_SNP : Z
}.

(** An opened alignment file, as far as the script uses it:
    [bamfile.fetch(chr, start, end)]. *)
Definition bamfile : Type := string -> Z -> Z -> list read.

Definition new_snp (c : string) (p : Z) (i r a : string) : snp :=
  mkSnp c p i r a None false "" "" "" "" None.

Definition set_reads (s : snp) (rs : option (list read)) : snp :=
  mkSnp (chr s) (pos s) (id s) (ref s) (alt s) rs (flag_sufficient_reads s)
        (report_comment s) (report_ref s) (report_alt s) (report_other s)
        (allelic_dict s).

Definition set_flag (s : snp) (b : bool) : snp :=
  mkSnp (chr s) (pos s) (id s) (ref s) (alt s) (reads s) b
        (report_comment s) (report_ref s) (report_alt s) (report_other s)
        (allelic_dict s).

Definition set_comment (s : snp) (c : string) : snp :=
  mkSnp (chr s) (pos s) (id s) (ref s) (alt s) (reads s)
        (flag_sufficient_reads s) c (report_ref s) (report_alt s)
        (report_other s) (allelic_dict s).

Definition set_report_ref (s : snp) (r : string) : snp :=
  mkSnp (chr s) (pos s) (id s) (ref s) (alt s) (reads s)
        (flag_sufficient_reads s) (report_comment s) r (report_alt s)
        (report_other s) (allelic_dict s).

Definition set_report_alt (s : snp) (r : string) : snp :=
  mkSnp (chr s) (pos s) (id s) (ref s) (alt s) (reads s)
        (flag_sufficient_reads s) (report_comment s) (report_ref s) r
        (report_other s) (allelic_dict s).

Definition set_report_other (s : snp) (r : string) : snp :=
  mkSnp (chr s) (pos s) (id s) (ref s) (alt s) (reads s)
        (flag_sufficient_reads s) (report_comment s) (report_ref s)
        (report_alt s) r (allelic_dict s).

Definition set_allelic_dict (s : snp) (d : dict allele) : snp :=
  mkSnp (chr s) (pos s) (id s) (ref s) (alt s) (reads s)
        (flag_sufficient_reads s) (report_comment s) (report_ref s)
        (report_alt s) (report_other s) (Some d).

Definition tab : string := String "009"%char EmptyString.

(** ** Benjamini-Hochberg correction *)

(** The script hands the pool of p-values to statsmodels and keeps the
    corrected p-values.  The steps of the procedure: sort ascending, divide
    the p-value of rank [k] by [k / n], take the running minimum from the
    largest rank down, clip at 1, and put every value back at the index its
    p-value came from. *)

(** Stable insertion by p-value, carrying the original index. *)
Fixpoint insert_by_pvalue (x : Q * nat) (l : list (Q * nat)) : list (Q * nat) :=
  match l with
  | [] => [x]
  | y :: l' =>
      if Qle_bool (fst x) (fst y) then x :: y :: l'
      else y :: insert_by_pvalue x l'
  end.

Definition sort_by_pvalue_index (l : list (Q * nat)) : list (Q * nat) :=
  fold_right insert_by_pvalue [] l.

Definition argsort (pvals : list Q) : list nat :=
  map snd (sort_by_pvalue_index (combine pvals (seq 0 (List.length pvals)))).

Definition take (pvals : list Q) (sortind : list nat) : list Q :=
  map (fun i => nth i pvals 0%Q) sortind.

(** [k / n] for the rank [k = S k0]. *)
Definition ecdffactor (n k0 : nat) : Q :=
  (inject_Z (Z.of_nat (S k0)) / inject_Z (Z.of_nat n))%Q.

Fixpoint corrected_raw (n k0 : nat) (pvals_sorted : list Q) : list Q :=
  match pvals_sorted with
  | [] => []
  | p :: ps => (p / ecdffactor n k0)%Q :: corrected_raw n (S k0) ps
  end.

(** Running minimum taken from the right end. *)
Fixpoint cummin_right (xs : list Q) : list Q :=
  match xs with
  | [] => []
  | x :: xs' =>
      match cummin_right xs' with
      | [] => [x]
      | m :: ms => Qmin x m :: m :: ms
      end
  end.

Definition clip_one (x : Q) : Q := if Qle_bool x 1 then x else 1%Q.

Fixpoint list_update (l : list Q) (i : nat) (v : Q) : list Q :=
  match l, i with
  | [], _ => []
  | _ :: l', O => v :: l'
  | x :: l', S i' => x :: list_update l' i' v
  end.

(** [out[sortind] = corrected] *)
Definition scatter (sortind : list nat) (corrected : list Q) (out : list Q)
  : list Q :=
  fold_left (fun acc iv => list_update acc (fst iv) (snd iv))
            (combine sortind corrected) out.

(** Modelled from the spec: the corrected p-values
    [multipletests(fdr_pvalues, alpha=0.05, method='fdr_bh')[1]] of
    statsmodels, whose code is not among the sources.  The spec names the
    method, Benjamini-Hochberg correction across exactly the pool; this is
    that step-up procedure in exact arithmetic. *)
Definition fdr_bh (pvals : list Q) : list Q :=
  let n := List.length pvals in
  let sortind := argsort pvals in
  let pvals_sorted := take pvals sortind in
  let pvals_corrected :=
    map clip_one (cummin_right (corrected_raw n 0 pvals_sorted)) in
  scatter sortind pvals_corrected (repeat 0%Q n).

(** ** The stages of the script *)

Section Pipeline.

(** Library calls whose code is outside the script. *)
Variable py_split : string -> list string.     (* [line.split()] *)
Variable py_int : string -> result Z.          (* [int(s)], [ValueError] *)
Variable binom_test : Z -> Z -> Q.             (* [scipy.stats.binom_test(x, n)] *)
Variable str_float : Q -> string.              (* [str(p)] on a float *)

(** *** 1) SNP input *)

(** [re.match('^#', line)] *)
Definition is_comment_line (line : string) : bool :=
  match line with
  | String c _ => Ascii.eqb c "#"%char
  | EmptyString => false
  end.

(** [len(r) != 1 | len(a) != 1].  In Python [|] binds tighter than [!=],
    and comparisons chain, so the condition reads
    [len(r) != (1 | len(a)) and (1 | len(a)) != 1]. *)
Definition indel_check (r a : string) : bool :=
  let m := Z.lor 1 (len a) in
  negb (len r =? m) && negb (m =? 1).

Definition load_line (cfg : config) (line : string) (st : dict snp * Z)
  : result (dict snp * Z) :=
  let '(snp_dict, indel_count) := st in
  if is_comment_line line then Ok st
  else
    let line_split := py_split line in
    r <- index_or_raise line_split (ref_col cfg) ;;
    a <- index_or_raise line_split (alt_col cfg) ;;
    if indel_check r a then Ok (snp_dict, indel_count + 1)
    else
      match SNP_FORMAT cfg with
      | bed =>
          c <- index_or_raise line_split 0 ;;
          p1 <- index_or_raise line_split 1 ;;
          p <- py_int p1 ;;
          i <- index_or_raise line_split 3 ;;
          k <- index_or_raise line_split 3 ;;
          Ok (dict_set snp_dict k (new_snp c p i r a), indel_count)
      | vcf =>
          c <- index_or_raise line_split 0 ;;
          p1 <- index_or_raise line_split 1 ;;
          p <- py_int p1 ;;
          i <- index_or_raise line_split 2 ;;
          k <- index_or_raise line_split 3 ;;
          Ok (dict_set snp_dict k (new_snp ("chr" +++ c) (p - 1) i r a),
              indel_count)
      end.

Definition load_snps (cfg : config) (lines : list string)
  : result (dict snp * Z) :=
  foldM (load_line cfg) lines ([], 0).

(** *** 2) Extract and filter reads over SNP positions *)

(** Filter.1 and Filter.2 for one fetched read: [Ok true] when the read
    is appended to [temp_reads], [Ok false] when a [continue] skips it. *)
Definition read_filter (cfg : config) (snp_pos : Z) (r : read) : result bool :=
  let read_missmatches := NM r in
  if read_missmatches >? MAX_MISSMATCHES_PER_READ cfg then Ok false
  else
    let base_mapqs := query_alignment_qualities r in
    let temp_pos := snp_pos - reference_start r in
    q <- index_or_raise base_mapqs temp_pos ;;
    if q <? MIN_MAPPING_QUAL_AT_SNP cfg then Ok false
    else Ok true.

Fixpoint filter_reads (cfg : config) (snp_pos : Z) (fetched : list read)
  : result (list read) :=
  match fetched with
  | [] => Ok []
  | r :: rest =>
      keep <- read_filter cfg snp_pos r ;;
      temp_reads <- filter_reads cfg snp_pos rest ;;
      Ok (if keep then r :: temp_reads else temp_reads)
  end.

Definition add_reads (cfg : config) (b : bamfile) (s : snp) : result snp :=
  temp_reads <- filter_reads cfg (pos s) (b (chr s) (pos s + 1) (pos s + 2)) ;;
  match reads s with
  | Some old => Ok (set_reads s (Some (old ++ temp_reads)))
  | None => Ok (set_reads s (Some temp_reads))
  end.

(** [for key in snp_dict: snp_dict[key] = f(snp_dict[key])], visiting the
    entries in dictionary order. *)
Definition for_each_snp (f : snp -> result snp) (snp_dict : dict snp)
  : result (dict snp) :=
  mapM (fun '(key, s) => s' <- f s ;; Ok (key, s')) snp_dict.

Definition extract_reads (cfg : config) (bams : list bamfile)
           (snp_dict : dict snp) : result (dict snp) :=
  foldM (fun b d => for_each_snp (add_reads cfg b) d) bams snp_dict.

(** Filter.3: the minimum read number. *)
Definition min_reads_gate (cfg : config) (s : snp) : result snp :=
  match reads s with
  | None => Raise (KeyError "reads")
  | Some rs =>
      if Z.of_nat (List.length rs) <? MIN_READS_AT_SNP cfg
      then Ok (set_reads (set_flag s false) (Some []))
      else Ok (set_flag s true)
  end.

(** *** 3) Split allelic reads *)

Definition count_base (d : dict allele) (base_snp : string) : dict allele :=
  match dict_get d base_snp with
  | Some a => dict_set d base_snp (mkAllele (count a + 1) (pvalue a))
  | None => dict_set d base_snp (mkAllele 1 None)
  end.

Definition count_read (snp_pos : Z) (r : read) (d : dict allele)
  : result (dict allele) :=
  let read_start := reference_start r in
  let read_seq := query_sequence r in
  let pos_snp := snp_pos - read_start in
  match str_index read_seq pos_snp with
  | Some base_snp => Ok (count_base d base_snp)
  | None => Raise IndexError
  end.

Definition count_alleles (snp_pos : Z) (rs : list read) : result (dict allele) :=
  foldM (count_read snp_pos) rs [].

(** *** 5) Test for allelic imbalance *)

(** One turn of the loop that looks for the base with most counts. *)
Definition scan_step (alt_base : string) (acc : string * Z)
           (e : string * allele) : string * Z :=
  let '(ref_allele_base, ref_allele_count) := acc in
  let '(allele_bases, a) := e in
  if negb (String.eqb allele_bases alt_base) && (count a >? ref_allele_count)
  then (allele_bases, count a)
  else (ref_allele_base, ref_allele_count).

Definition scan_substitute (alt_base : string) (d : dict allele)
           (init : string * Z) : string * Z :=
  fold_left (scan_step alt_base) d init.

(** The base to test against, with its count, and the reference report. *)
Definition resolve_anchor (s : snp) (d : dict allele) : snp * (string * Z) :=
  match dict_get d (ref s) with
  | Some a =>
      let ref_allele_count := count a in
      (set_report_ref s (ref s +++ ":" +++ str_int ref_allele_count),
       (ref s, ref_allele_count))
  | None =>
      let '(ref_allele_base, ref_allele_count) :=
        scan_substitute (alt s) d (ref s, 0) in
      let s1 := set_report_ref s (ref s +++ ":0") in
      let s2 :=
        if negb (String.eqb ref_allele_base (ref s))
        then set_report_ref s1 (report_ref s1 +++ ";" +++ ref_allele_base
                                  +++ ":" +++ str_int ref_allele_count)
        else s1 in
      (set_comment s2 (report_comment s2 +++ "No_Ref_Reads;Calc_rel_to_"
                         +++ ref_allele_base +++ ";"),
       (ref_allele_base, ref_allele_count))
  end.

(** The binomial test of every present base but the anchor. *)
Definition run_tests (ref_allele_base : string) (ref_allele_count : Z)
           (d : dict allele) : dict allele :=
  map (fun '(test_base, a) =>
         if String.eqb test_base ref_allele_base then (test_base, a)
         else (test_base,
               mkAllele (count a)
                        (Some (binom_test (count a)
                                          (count a + ref_allele_count)))))
      d.

Definition test_alleles (s : snp) (d : dict allele) (anchor : string * Z)
           (not_queried_count : Z) : snp * dict allele * Z :=
  let '(ref_allele_base, ref_allele_count) := anchor in
  if String.eqb ref_allele_base (ref s) && negb (dict_mem d (ref s)) then
    let s1 :=
      match dict_get d (alt s) with
      | Some a =>
          set_comment
            (set_report_alt s (alt s +++ ":" +++ str_int (count a) +++ ":."))
            (report_comment s +++ "Only_Alt_Reads;")
      | None =>
          set_comment (set_report_alt s ".:.:.")
                      (report_comment s +++ "No_Ref_nor_Alt_Reads;")
      end in
    (set_report_other s1 ".:.:.", d, not_queried_count + 1)
  else if Z.of_nat (List.length d) <=? 1 then
    (set_comment (set_report_alt (set_report_ref s ".:.") ".:.:.")
                 "Insufficient_Alleles;",
     d, not_queried_count + 1)
  else
    (s, run_tests ref_allele_base ref_allele_count d, not_queried_count).

(** [a['pvalue']] *)
Definition get_pvalue (a : allele) : result Q :=
  match pvalue a with
  | Some p => Ok p
  | None => Raise (KeyError "pvalue")
  end.

Definition report_alt_step (s : snp) (d : dict allele) (not_queried_count : Z)
  : result (snp * Z) :=
  match dict_get d (alt s) with
  | None =>
      Ok (set_report_alt
            (set_comment s (report_comment s +++ "No_Alt_Reads;"))
            (alt s +++ ":0:."),
          not_queried_count + 1)
  | Some a =>
      p <- get_pvalue a ;;
      Ok (set_report_alt s (alt s +++ ":" +++ str_int (count a) +++ ":"
                              +++ str_float p),
          not_queried_count)
  end.

Definition report_other_step (ref_allele_base : string)
           (e : string * allele) (s : snp) : result snp :=
  let '(test_base, a) := e in
  if negb (String.eqb test_base ref_allele_base)
     && negb (String.eqb test_base (alt s))
  then
    p <- get_pvalue a ;;
    Ok (set_report_other s (report_other s +++ test_base +++ ":"
                              +++ str_int (count a) +++ ":"
                              +++ str_float p +++ ";"))
  else Ok s.

(** The body of the loop of stages 3 to 5 for one SNP. *)
Definition process_site (s0 : snp) (not_queried_count : Z)
  : result (snp * Z) :=
  let s :=
    set_report_other (set_report_alt (set_report_ref (set_comment s0 "") "") "")
                     "" in
  if negb (flag_sufficient_reads s) then
    Ok (set_report_other
          (set_comment (set_report_alt (set_report_ref s ".:.") ".:.:.")
                       "Insufficient_Total_Reads;")
          ".:.:.",
        not_queried_count + 1)
  else
    rs <- match reads s with
          | Some rs => Ok rs
          | None => Raise (KeyError "reads")
          end ;;
    d <- count_alleles (pos s) rs ;;
    let '(s1, anchor) := resolve_anchor s d in
    let '(s2, d2, nq2) := test_alleles s1 d anchor not_queried_count in
    '(s3, nq3) <- report_alt_step s2 d2 nq2 ;;
    s4 <- foldM (report_other_step (fst anchor)) d2 s3 ;;
    Ok (set_reads (set_allelic_dict s4 d2) None, nq3).

Fixpoint process_sites (snp_dict : dict snp) (not_queried_count : Z)
  : result (dict snp * Z) :=
  match snp_dict with
  | [] => Ok ([], not_queried_count)
  | (key, s) :: rest =>
      '(s', nq) <- process_site s not_queried_count ;;
      '(rest', nq') <- process_sites rest nq ;;
      Ok ((key, s') :: rest', nq')
  end.

(** *** 6) FDR *)

(** One value of [valid_tests_dict]: [{'pvalue': p}], later with ['qvalue']. *)
Record valid_test : Type := mkValid {
  vt_pvalue : Q;
  vt_qvalue : option Q
}.

(** The script's [isNumber]: [float(s)] succeeds on every float, so the
    [ValueError] handler is never entered for a stored p-value. *)
Definition isNumber (p : Q) : bool := true.

(** [snp['allelic_dict'][snp['alt']]] *)
Definition alt_entry (s : snp) : result allele :=
  d <- match allelic_dict s with
       | Some d => Ok d
       | None => Raise (KeyError "allelic_dict")
       end ;;
  dict_lookup d (alt s).

(** The condition of 6.1, with the left-to-right short cut of [and]. *)
Definition is_valid_test (s : snp) : result bool :=
  if negb (flag_sufficient_reads s) then Ok false
  else
    a <- alt_entry s ;;
    p <- get_pvalue a ;;
    if negb (isNumber p) then Ok false
    else
      a' <- alt_entry s ;;
      if negb (count a' >? 0) then Ok false
      else Ok (String.eqb (report_comment s) "").

Definition collect_step (e : string * snp) (valid_tests_dict : dict valid_test)
  : result (dict valid_test) :=
  let '(key, s) := e in
  ok <- is_valid_test s ;;
  if ok then
    a <- alt_entry s ;;
    p <- get_pvalue a ;;
    Ok (dict_set valid_tests_dict key (mkValid p None))
  else Ok valid_tests_dict.

Definition collect_valid_tests (snp_dict : dict snp) : result (dict valid_test) :=
  foldM collect_step snp_dict [].

(** [valid_tests_dict[fdr_keys[i]]['qvalue'] = fdr_qvalues[i]] for
    [i = i0, i0 + 1, ...] along [fdr_keys]. *)
Fixpoint assign_qvalues (fdr_keys : list string) (i : Z) (fdr_qvalues : list Q)
         (valid_tests_dict : dict valid_test) : result (dict valid_test) :=
  match fdr_keys with
  | [] => Ok valid_tests_dict
  | key :: keys' =>
      q <- index_or_raise fdr_qvalues i ;;
      v <- dict_lookup valid_tests_dict key ;;
      assign_qvalues keys' (i + 1) fdr_qvalues
                     (dict_set valid_tests_dict key
                               (mkValid (vt_pvalue v) (Some q)))
  end.

Definition fdr_stage (valid_tests_dict : dict valid_test)
  : result (dict valid_test) :=
  let fdr_keys := dict_keys valid_tests_dict in
  let fdr_pvalues := map (fun e => vt_pvalue (snd e)) valid_tests_dict in
  let fdr_qvalues := fdr_bh fdr_pvalues in
  assign_qvalues fdr_keys 0 fdr_qvalues valid_tests_dict.

(** *** 7) Assemble and print output *)

Definition summary_line (total_count not_queried_count : Z) : string :=
  "# Total SNPs: " +++ str_int total_count +++ "  Queried: "
    +++ str_int (total_count - not_queried_count) +++ "  Not Queried: "
    +++ str_int not_queried_count.

Definition sort_value (valid_tests_dict : dict valid_test) (k : string) : Q :=
  match dict_get valid_tests_dict k with
  | Some v => vt_pvalue v
  | None => 1%Q
  end.

(** [x < y] on the tuples of [zip(sort_values, sort_keys)]: the first
    components decide unless they are equal, then the keys decide. *)
Definition tuple_lt (x y : Q * string) : bool :=
  if Qeq_bool (fst x) (fst y) then String.ltb (snd x) (snd y)
  else negb (Qle_bool (fst y) (fst x)).

(** [sorted]: a stable sort that only asks [<]. *)
Fixpoint insert_sorted (x : Q * string) (l : list (Q * string))
  : list (Q * string) :=
  match l with
  | [] => [x]
  | y :: l' => if tuple_lt y x then y :: insert_sorted x l' else x :: y :: l'
  end.

Definition py_sorted (l : list (Q * string)) : list (Q * string) :=
  fold_right insert_sorted [] l.

(** [--sortby pvalue] *)
Definition sort_by_pvalue (snp_dict : dict snp)
           (valid_tests_dict : dict valid_test) : list string :=
  let sort_keys := dict_keys snp_dict in
  let sort_values := map (sort_value valid_tests_dict) sort_keys in
  map snd (py_sorted (combine sort_values sort_keys)).

(** What is appended after the six leading columns. *)
Definition pq_columns (valid_tests_dict : dict valid_test) (key : string)
  : result string :=
  match dict_get valid_tests_dict key with
  | Some v =>
      q <- match vt_qvalue v with
           | Some q => Ok q
           | None => Raise (KeyError "qvalue")
           end ;;
      Ok (tab +++ str_float (vt_pvalue v) +++ tab +++ str_float q)
  | None => Ok (tab +++ "." +++ tab +++ ".")
  end.

Definition output_line (valid_tests_dict : dict valid_test) (key : string)
           (s : snp) : result string :=
  let output := chr s +++ tab +++ str_int (pos s) +++ tab
                  +++ str_int (pos s + 1) +++ tab +++ id s +++ tab
                  +++ ref s +++ tab +++ alt s in
  pq <- pq_columns valid_tests_dict key ;;
  let output := output +++ pq in
  let output := output +++ tab +++ report_ref s +++ ":" +++ report_alt s in
  let output :=
    if negb (String.eqb (report_other s) "")
    then output +++ ":" +++ report_other s
    else output in
  let output := output +++ tab in
  Ok (if String.eqb (report_comment s) "" then output +++ "."
      else output +++ report_comment s).

(** ['hr' in temp_chr] for the position sort. *)
Fixpoint contains_hr (s : string) : bool :=
  match s with
  | EmptyString => false
  | String a s' =>
      (Ascii.eqb a "h"%char
       && match s' with
          | String b _ => Ascii.eqb b "r"%char
          | EmptyString => false
          end)
      || contains_hr s'
  end.

(** The character class [[c,C]] of the pattern. *)
Definition in_chr_class (a : ascii) : bool :=
  Ascii.eqb a "c"%char || Ascii.eqb a ","%char || Ascii.eqb a "C"%char.

(** [re.sub('[c,C]*hr', '', s)].  A match is a maximal run of class
    characters followed by "hr" (no class character is an "h", so a shorter
    run never matches where the maximal one fails); [pending] is the run of
    class characters read so far, kept back until it is known whether "hr"
    follows. *)
Fixpoint re_sub_from (pending : string) (s : string) : string :=
  match s with
  | EmptyString => pending
  | String a s' =>
      if in_chr_class a then re_sub_from (pending +++ String a EmptyString) s'
      else
        match s' with
        | String b s'' =>
            if Ascii.eqb a "h"%char && Ascii.eqb b "r"%char
            then re_sub_from EmptyString s''
            else pending +++ String a (re_sub_from EmptyString s')
        | EmptyString => pending +++ String a EmptyString
        end
  end.

Definition re_sub_chr (s : string) : string := re_sub_from EmptyString s.

(** The chromosome number of a label: [int(temp_chr)] after the prefix is
    stripped and "X", "Y", "M" are replaced. *)
Definition chr_number (label : string) : result Z :=
  let temp_chr := if contains_hr label then re_sub_chr label else label in
  if String.eqb temp_chr "X" then Ok 23
  else if String.eqb temp_chr "Y" then Ok 24
  else if String.eqb temp_chr "M" then Ok 25
  else py_int temp_chr.

Definition position_tuples (snp_dict : dict snp) : result (list (Z * Z * string)) :=
  mapM (fun '(k, s) => c <- chr_number (chr s) ;; Ok (c, pos s, k)) snp_dict.

(** [key(x) < key(y)] for [key = lambda l: (l[0], l[1])]. *)
Definition position_lt (x y : Z * Z * string) : bool :=
  let '(cx, px, _) := x in
  let '(cy, py, _) := y in
  if cx =? cy then px <? py else cx <? cy.

(** [list.sort(key=...)]: stable, and only asks [<] of the keys. *)
Fixpoint insert_by_position (x : Z * Z * string) (l : list (Z * Z * string))
  : list (Z * Z * string) :=
  match l with
  | [] => [x]
  | y :: l' =>
      if position_lt y x then y :: insert_by_position x l' else x :: y :: l'
  end.

Definition sort_positions (l : list (Z * Z * string)) : list (Z * Z * string) :=
  fold_right insert_by_position [] l.

(** [--sortby position] *)
Definition sort_by_position (snp_dict : dict snp) : result (list string) :=
  sort_values <- position_tuples snp_dict ;;
  Ok (map snd (sort_positions sort_values)).

(** [args.sortby].  argparse keeps a default as the value it was given,
    here the string ['pvalue']; a value from the command line is, with
    [nargs=1], a list of one string. *)
Inductive arg_value : Type :=
| ArgStr (s : string)
| ArgList (l : list string).

(** [args.sortby[0]]: the first character of a string, the first element
    of a list. *)
Definition arg_first (a : arg_value) : result string :=
  match a with
  | ArgStr s =>
      match str_index s 0 with
      | Some c => Ok c
      | None => Raise IndexError
      end
  | ArgList l => index_or_raise l 0
  end.

(** The order of the lines: [sorted_keys] starts empty and is filled by
    the branch that [args.sortby[0]] selects, if it selects one. *)
Definition select_sorted_keys (args_sortby : arg_value) (snp_dict : dict snp)
           (valid_tests_dict : dict valid_test) : result (list string) :=
  sortby <- arg_first args_sortby ;;
  if String.eqb sortby "pvalue"
  then Ok (sort_by_pvalue snp_dict valid_tests_dict)
  else if String.eqb sortby "position"
  then sort_by_position snp_dict
  else Ok [].

(** What a run leaves on standard output, and the exception that ended
    it, if one did. *)
Record outcome : Type := mkOutcome {
  printed : list string;
  raised : option exn
}.

(** The loop over [sorted_keys].  A line is printed as soon as it is
    assembled, so an exception leaves the lines before it on the output. *)
Fixpoint print_lines (snp_dict : dict snp)
         (valid_tests_dict : dict valid_test) (sorted_keys : list string)
  : outcome :=
  match sorted_keys with
  | [] => mkOutcome [] None
  | key :: keys' =>
      match (s <- dict_lookup snp_dict key ;;
             output_line valid_tests_dict key s) with
      | Ok output =>
          let rest := print_lines snp_dict valid_tests_dict keys' in
          mkOutcome (output :: printed rest) (raised rest)
      | Raise e => mkOutcome [] (Some e)
      end
  end.

(** *** The core, from the loaded [snp_dict] to the printed lines *)

(** Stages 2 to 6, which print nothing. *)
Definition run_stages (cfg : config) (bams : list bamfile) (snp_dict : dict snp)
  : result (dict snp * Z * dict valid_test) :=
  d1 <- extract_reads cfg bams snp_dict ;;
  d2 <- for_each_snp (min_reads_gate cfg) d1 ;;
  '(d3, not_queried_count) <- process_sites d2 0 ;;
  valid0 <- collect_valid_tests d3 ;;
  valid_tests_dict <- fdr_stage valid0 ;;
  Ok (d3, not_queried_count, valid_tests_dict).

(** The summary line is printed before the keys are sorted, so it is on
    the output also when the sort raises. *)
Definition run_core (cfg : config) (args_sortby : arg_value)
           (bams : list bamfile) (snp_dict : dict snp) : outcome :=
  match run_stages cfg bams snp_dict with
  | Raise e => mkOutcome [] (Some e)
  | Ok (d3, not_queried_count, valid_tests_dict) =>
      let total_count := Z.of_nat (List.length d3) in
      let summary := summary_line total_count not_queried_count in
      match select_sorted_keys args_sortby d3 valid_tests_dict with
      | Raise e => mkOutcome [summary] (Some e)
      | Ok sorted_keys =>
          let out := print_lines d3 valid_tests_dict sorted_keys in
          mkOutcome (summary :: printed out) (raised out)
      end
  end.

End Pipeline.

(** ** Stand-ins for the library calls, to run the model on concrete input *)

Definition is_space (c : ascii) : bool :=
  Ascii.eqb c " "%char || Ascii.eqb c "009"%char || Ascii.eqb c "010"%char
  || Ascii.eqb c "013"%char.

(** Split on runs of blanks, as [str.split()] does on such lines. *)
Fixpoint split_ws (s : string) (cur : option string) : list string :=
  match s with
  | EmptyString => match cur with Some t => [t] | None => [] end
  | String c s' =>
      if is_space c then
        match cur with
        | Some t => t :: split_ws s' None
        | None => split_ws s' None
        end
      else
        split_ws s' (Some (match cur with
                           | Some t => t +++ String c EmptyString
                           | None => String c EmptyString
                           end))
  end.

Definition split_blank (s : string) : list string := split_ws s None.

Fixpoint digits_value (s : string) (acc : Z) : option Z :=
  match s with
  | EmptyString => Some acc
  | String c s' =>
      let n := Z.of_nat (nat_of_ascii c) in
      if (48 <=? n) && (n <=? 57) then digits_value s' (10 * acc + (n - 48))
      else None
  end.

(** [int] on a string of decimal digits. *)
Definition int_of_digits (s : string) : result Z :=
  match s with
  | EmptyString => Raise ValueError
  | _ => match digits_value s 0 with
         | Some z => Ok z
         | None => Raise ValueError
         end
  end.

Fixpoint choose (n k : nat) : Z :=
  match n, k with
  | _, O => 1
  | O, S _ => 0
  | S n', S k' => choose n' k' + choose n' k
  end.

Definition binom_pmf (n k : nat) : Q :=
  (inject_Z (choose n k) / inject_Z (2 ^ Z.of_nat n))%Q.

Definition sum_pmf (n : nat) (sel : nat -> bool) : Q :=
  fold_right (fun k acc => if sel k then (binom_pmf n k + acc)%Q else acc)
             0%Q (seq 0 (S n)).

Definition binom_cdf (n : nat) (x : Z) : Q :=
  sum_pmf n (fun k => Z.of_nat k <=? x).

Definition binom_sf (n : nat) (x : Z) : Q :=
  sum_pmf n (fun k => x <? Z.of_nat k).

(** The two-sided exact test at null proportion 1/2, computed the way
    scipy's [binom_test] does, with exact rationals for floats. *)
Definition binom_test_exact (x n : Z) : Q :=
  let nn := Z.to_nat n in
  let d := binom_pmf nn (Z.to_nat x) in
  let rerr := (1 + 1 / 10000000)%Q in
  let le_d (k : nat) := Qle_bool (binom_pmf nn k) (d * rerr) in
  let pval :=
    if 2 * x =? n then 1%Q
    else if 2 * x <? n then
      let lo := Z.to_nat ((n + 1) / 2) in
      let y := Z.of_nat (List.length
                           (filter le_d (seq lo (S nn - lo)))) in
      (binom_cdf nn x + binom_sf nn (n - y))%Q
    else
      let y := Z.of_nat (List.length
                           (filter le_d (seq 0 (S (Z.to_nat (n / 2)))))) in
      (binom_cdf nn (y - 1) + binom_sf nn (x - 1))%Q in
  Qred (Qmin 1 pval).

(** A printer for rationals, in place of Python's float formatting. *)
Definition show_Q (q : Q) : string :=
  let r := Qred q in
  str_int (Qnum r) +++ "/" +++ str_int (Zpos (Qden r)).

(** ** Sample inputs *)

Open Scope string_scope.
Open Scope Z_scope.

Definition sample_cfg : config := mkConfig bed 4 5 2 20 2.

(** A read whose bases all carry quality 30. *)
Definition plain_read (start : Z) (bases : string) : read :=
  mkRead start bases (map (fun _ => 30) (list_ascii_of_string bases)) 0.

Definition site_rs1 : snp := new_snp "chr1" 100 "rs1" "A" "G".

(** ** Vocabulary of the statements, and more sample inputs *)

(** The two per-read conditions as one boolean. *)
Definition within_limits (cfg : config) (snp_pos : Z) (r : read) : bool :=
  (NM r <=? MAX_MISSMATCHES_PER_READ cfg)
  && match py_index (query_alignment_qualities r)
                    (snp_pos - reference_start r) with
     | Some q => MIN_MAPPING_QUAL_AT_SNP cfg <=? q
     | None => false
     end.

(** The base a read shows at the site, and the count a dictionary holds. *)
Definition base_at (snp_pos : Z) (r : read) : option string :=
  str_index (query_sequence r) (snp_pos - reference_start r).

Definition shows_base (snp_pos : Z) (b : string) (r : read) : bool :=
  match base_at snp_pos r with
  | Some b' => String.eqb b' b
  | None => false
  end.

Definition count_of (d : dict allele) (b : string) : Z :=
  match dict_get d b with
  | Some a => count a
  | None => 0
  end.

Definition total_count (d : dict allele) : Z :=
  fold_right (fun e acc => count (snd e) + acc) 0 d.

(** The four conditions of the eligibility predicate. *)
Definition eligible (s : snp) : Prop :=
  flag_sufficient_reads s = true /\
  (exists a p, alt_entry s = Ok a /\ pvalue a = Some p /\ count a > 0) /\
  report_comment s = "".

Definition fst_le (x y : Q * nat) : Prop := (fst x <= fst y)%Q.

(** The pool after step 6.2: every entry with the q-value of its index. *)
Definition with_qvalues (pool : dict valid_test) (qs : list Q) : dict valid_test :=
  map (fun eq => (fst (fst eq),
                  mkValid (vt_pvalue (snd (fst eq))) (Some (snd eq))))
      (combine pool qs).

(** The six leading columns of an output line, and what follows the
    q-value column. *)
Definition leading_columns (s : snp) : string :=
  chr s +++ tab +++ str_int (pos s) +++ tab +++ str_int (pos s + 1) +++ tab
    +++ id s +++ tab +++ ref s +++ tab +++ alt s.

Definition trailing_columns (s : snp) : string :=
  tab +++ report_ref s +++ ":" +++ report_alt s
    +++ (if String.eqb (report_other s) "" then ""
         else ":" +++ report_other s)
    +++ tab
    +++ (if String.eqb (report_comment s) "" then "." else report_comment s).

(** [b] is a base other than the alternate with count [c], and no base
    other than the alternate has a larger count. *)
Definition max_count_not_alt (alt_base : string) (d : dict allele)
           (b : string) (c : Z) : Prop :=
  (exists a, In (b, a) d /\ count a = c) /\
  b <> alt_base /\
  forall b' a', In (b', a') d -> b' <> alt_base -> count a' <= c.

(** Ties broken by the order of the bases as strings. *)
Definition lexicographic_among_ties (alt_base : string) (d : dict allele)
           (b : string) (c : Z) : Prop :=
  forall b' a', In (b', a') d -> b' <> alt_base -> count a' = c ->
                String.leb b b' = true.

(** Ties broken by the iteration order of the dictionary. *)
Definition first_among_ties (alt_base : string) (d : dict allele)
           (b : string) (c : Z) : Prop :=
  exists pre a post,
    d = (pre ++ (b, a) :: post)%list /\ count a = c /\
    (forall b' a', In (b', a') pre -> b' <> alt_base -> count a' < c) /\
    (forall b' a', In (b', a') post -> b' <> alt_base -> count a' <= c).

(** No stage after the gate touches the identity of a site. *)
Definition same_core (s s' : snp) : Prop :=
  chr s' = chr s /\ pos s' = pos s /\ id s' = id s /\ ref s' = ref s /\
  alt s' = alt s /\ flag_sufficient_reads s' = flag_sufficient_reads s.

(** The order [sorted] puts the tuples in: by value, and by key among
    equal values. *)
Definition tuple_le (x y : Q * string) : Prop :=
  (fst x < fst y)%Q \/ ((fst x == fst y)%Q /\ String.leb (snd x) (snd y) = true).

(** The order the specification describes: by value only, ties left in
    input order. *)
Fixpoint insert_by_value (x : Q * string) (l : list (Q * string))
  : list (Q * string) :=
  match l with
  | [] => [x]
  | y :: l' =>
      if Qle_bool (fst x) (fst y) then x :: y :: l'
      else y :: insert_by_value x l'
  end.

Definition input_order_on_ties (snp_dict : dict snp)
           (valid_tests_dict : dict valid_test) : list string :=
  let sort_keys := dict_keys snp_dict in
  let sort_values := map (sort_value valid_tests_dict) sort_keys in
  map snd (fold_right insert_by_value [] (combine sort_values sort_keys)).

(** Four sites: [rs1] with three reads for the reference and one for the
    alternate base, [rs2] with one and two, [rs3] with a single read, and
    [rs4] with two reads for a third base and one for the alternate. *)
Definition bam_mixed : bamfile :=
  fun c _ _ =>
    if String.eqb c "chr1"
    then [plain_read 98 "ACAGT"; plain_read 99 "TGA"; plain_read 100 "A";
          plain_read 97 "TTTA"]
    else if String.eqb c "chr2"
    then [plain_read 10 "G"; plain_read 10 "G"; plain_read 10 "A"]
    else if String.eqb c "chr3"
    then [plain_read 5 "A"]
    else [plain_read 7 "T"; plain_read 6 "CT"; plain_read 7 "G"].

Definition bam_ref_only : bamfile :=
  fun _ _ _ => [plain_read 100 "A"; plain_read 99 "CA"].

Definition bam_alt_only : bamfile :=
  fun _ _ _ => [plain_read 100 "G"; plain_read 99 "TG"].

Definition bam_empty : bamfile := fun _ _ _ => [].

Definition sample_sites : dict snp :=
  [("rs1", site_rs1);
   ("rs2", new_snp "chr2" 10 "rs2" "A" "G");
   ("rs3", new_snp "chr3" 5 "rs3" "C" "T");
   ("rs4", new_snp "chr4" 7 "rs4" "A" "G")].

Definition gated (bams : list bamfile) (sites : dict snp) : dict snp :=
  match (d1 <- extract_reads sample_cfg bams sites ;;
         for_each_snp (min_reads_gate sample_cfg) d1) with
  | Ok d => d
  | Raise _ => []
  end.

Definition sample_gated : dict snp :=
  Eval vm_compute in gated [bam_mixed] sample_sites.

Definition sample_processed : dict snp :=
  Eval vm_compute in
    match process_sites binom_test_exact show_Q sample_gated 0 with
    | Ok (d, _) => d
    | Raise _ => []
    end.

Definition sample_pool : dict valid_test :=
  Eval vm_compute in
    match collect_valid_tests sample_processed with
    | Ok pool => pool
    | Raise _ => []
    end.

(** A site whose reads all show the reference base. *)
Definition ref_only_site : snp :=
  mkSnp "chr1" 100 "rs1" "A" "G"
        (Some [plain_read 100 "A"; plain_read 99 "CA"]) true "" "" "" "" None.

Definition ref_only_result : snp :=
  Eval vm_compute in
    match process_site binom_test_exact show_Q ref_only_site 0 with
    | Ok (s, _) => s
    | Raise _ => ref_only_site
    end.

(** Two bases other than the alternate, each seen once, "T" first. *)
Definition tie_reads : list read := [plain_read 100 "T"; plain_read 100 "C"].

Definition tie_dict : dict allele :=
  [("T", mkAllele 1 None); ("C", mkAllele 1 None)].

(** Two sites without reads, the one with the larger key first. *)
Definition uncovered_sites : dict snp :=
  Eval vm_compute in
    match process_sites binom_test_exact show_Q
                        (gated [bam_empty]
                               [("rs2", new_snp "chr1" 200 "rs2" "A" "G");
                                ("rs1", new_snp "chr1" 100 "rs1" "A" "G")])
                        0 with
    | Ok (d, _) => d
    | Raise _ => []
    end.

(** ** Vocabulary of the further properties *)

(** The lines of the input that are not skipped as comments. *)
Definition data_lines (lines : list string) : list string :=
  filter (fun line => negb (is_comment_line line)) lines.

(** What a stored site owes to the columns of its line. *)
Definition built_from (f : snp_format) (py_int : string -> result Z)
           (line_split : list string) (r a : string) (s : snp) : Prop :=
  ref s = r /\ alt s = a /\ reads s = None /\ allelic_dict s = None /\
  exists c p1 p,
    index_or_raise line_split 0 = Ok c /\
    index_or_raise line_split 1 = Ok p1 /\ py_int p1 = Ok p /\
    match f with
    | bed => chr s = c /\ pos s = p /\ index_or_raise line_split 3 = Ok (id s)
    | vcf => chr s = "chr" +++ c /\ pos s = p - 1 /\
             index_or_raise line_split 2 = Ok (id s)
    end.

(** The reads a source contributes to a site after filtering. *)
Definition kept_from (cfg : config) (s : snp) (b : bamfile) : list read :=
  filter (within_limits cfg (pos s)) (b (chr s) (pos s + 1) (pos s + 2)).

(** The read list of a site once the sources [bams] have been gone
    through: untouched without a source, otherwise what was there followed
    by the kept reads of each source in turn. *)
Definition pooled_reads (cfg : config) (bams : list bamfile) (s : snp)
  : option (list read) :=
  match bams with
  | [] => reads s
  | _ :: _ =>
      Some ((match reads s with Some old => old | None => [] end)
              ++ flat_map (kept_from cfg s) bams)%list
  end.

(** Everything of a site but its read list. *)
Definition same_but_reads (s s' : snp) : Prop :=
  same_core s s' /\ report_comment s' = report_comment s /\
  report_ref s' = report_ref s /\ report_alt s' = report_alt s /\
  report_other s' = report_other s /\ allelic_dict s' = allelic_dict s.

(** A site at the start of the loop body of stages 3 to 5, its report
    strings initialised. *)
Definition init_reports (s0 : snp) : snp :=
  set_report_other (set_report_alt (set_report_ref (set_comment s0 "") "") "") "".

(** Everything of a site but its report strings. *)
Definition same_site (s s' : snp) : Prop :=
  same_core s s' /\ reads s' = reads s /\ allelic_dict s' = allelic_dict s.

(** The text the loop over the counted bases appends to [report_other]:
    one field for every base that is neither the anchor nor the alternate,
    in dictionary order. *)
Fixpoint other_fields (str_float : Q -> string) (anchor alt_base : string)
         (d : dict allele) : string :=
  match d with
  | [] => ""
  | (b, a) :: d' =>
      (if negb (String.eqb b anchor) && negb (String.eqb b alt_base)
       then b +++ ":" +++ str_int (count a) +++ ":"
              +++ match pvalue a with
                  | Some p => str_float p
                  | None => ""
                  end +++ ";"
       else "")
        +++ other_fields str_float anchor alt_base d'
  end.

(** The number of sites flagged as having too few reads. *)
Definition insufficient_count (snp_dict : dict snp) : Z :=
  Z.of_nat (List.length
              (filter (fun e => negb (flag_sufficient_reads (snd e))) snp_dict)).

(** [lines] holds one output line for every site of [snp_dict], the sites
    taken in the order [keys]. *)
Definition one_line_per_site (str_float : Q -> string) (snp_dict : dict snp)
           (valid_tests_dict : dict valid_test) (keys lines : list string)
  : Prop :=
  exists entries,
    Permutation entries snp_dict /\ map fst entries = keys /\
    Forall2 (fun e line =>
               output_line str_float valid_tests_dict (fst e) (snd e) = Ok line)
            entries lines.

(** The order of the position sort on its keys, and the test for one key. *)
Definition position_le (x y : Z * Z * string) : Prop :=
  fst (fst x) < fst (fst y) \/
  (fst (fst x) = fst (fst y) /\ snd (fst x) <= snd (fst y)).

Definition at_position (c p : Z) (t : Z * Z * string) : bool :=
  (fst (fst t) =? c) && (snd (fst t) =? p).

(** ** More sample inputs *)

(** A bed file with a header, a site, a record the indel check skips, a
    record with a three-base reference that it lets through, and a second
    record for the first id. *)
Definition bed_lines : list string :=
  ["# chrom start end id ref alt";
   "chr1 100 101 rs1 A G";
   "chr1 150 151 rs5 A GT";
   "chr1 200 201 rs2 ACG T";
   "chr1 300 301 rs1 C T"].

(** A site with two reads for the reference, one for the alternate and one
    for a third base. *)
Definition covered_reads : list read :=
  [plain_read 100 "A"; plain_read 99 "TG"; plain_read 98 "CCAT";
   plain_read 100 "T"].

Definition covered_site : snp :=
  mkSnp "chr1" 100 "rs1" "A" "G" (Some covered_reads) true "" "" "" "" None.

Definition covered_counts : dict allele :=
  [("A", mkAllele 2 None); ("G", mkAllele 1 None); ("T", mkAllele 1 None)].

(** The same reads at a site whose reference allele has two characters. *)
Definition long_ref_site : snp :=
  mkSnp "chr1" 100 "rs2" "AT" "G" (Some covered_reads) true "" "" "" "" None.

Definition alt_only_reads : list read := [plain_read 100 "G"; plain_read 99 "TG"].

Definition alt_only_site : snp :=
  mkSnp "chr1" 100 "rs1" "A" "G" (Some alt_only_reads) true "" "" "" "" None.

(** The result of stages 3 to 5 on a one-site dictionary. *)
Definition processed (s : snp) : dict snp :=
  match process_sites binom_test_exact show_Q [(id s, s)] 0 with
  | Ok (d, _) => d
  | Raise _ => []
  end.

Definition ref_only_processed : dict snp := Eval vm_compute in processed ref_only_site.

Definition covered_result : snp :=
  Eval vm_compute in
    match process_site binom_test_exact show_Q covered_site 0 with
    | Ok (s, _) => s
    | Raise _ => covered_site
    end.

Definition long_ref_result : snp :=
  Eval vm_compute in
    match process_site binom_test_exact show_Q long_ref_site 0 with
    | Ok (s, _) => s
    | Raise _ => long_ref_site
    end.

Definition sample_extracted : dict snp :=
  Eval vm_compute in
    match extract_reads sample_cfg [bam_mixed] sample_sites with
    | Ok d => d
    | Raise _ => []
    end.

(** The values the script runs with when no option is given: bed format
    with the reference and the alternate base in columns 5 and 6, at most
    2 mismatches, no minimum quality, at least 10 reads. *)
Definition default_cfg : config := mkConfig bed 4 5 2 0 10.

(** A source with ten reads that all show "A" at position 100. *)
Definition ten_ref_reads : list read := repeat (plain_read 100 "A") 10.

Definition bam_ten_ref : bamfile := fun _ _ _ => ten_ref_reads.

(** [rs1] with these reads after the gate, and after stages 3 to 5. *)
Definition ten_ref_site : snp :=
  mkSnp "chr1" 100 "rs1" "A" "G" (Some ten_ref_reads) true "" "" "" "" None.

Definition ten_ref_result : snp :=
  Eval vm_compute in
    match process_site binom_test_exact show_Q ten_ref_site 0 with
    | Ok (s, _) => s
    | Raise _ => ten_ref_site
    end.

(** The entry a site contributes to the FDR pool: its key with its
    alternate p-value when the condition of 6.1 holds, nothing otherwise. *)
Definition pool_entry (e : string * snp) : list (string * valid_test) :=
  match is_valid_test (snd e), alt_entry (snd e) with
  | Ok true, Ok a =>
      match pvalue a with
      | Some p => [(fst e, mkValid p None)]
      | None => []
      end
  | _, _ => []
  end.

(* ================================================================= *)
(** * Properties *)

(** ** General facts about the error monad and dictionaries *)

Lemma bind_ok {A B : Type} (m : result A) (f : A -> result B) (b : B) :
  bind m f = Ok b -> exists a, m = Ok a /\ f a = Ok b.
Proof.
  destruct m as [a|e]; simpl; intros H; [exists a; auto | discriminate].
Qed.

Ltac inv_bind H :=
  let a := fresh "x" in
  let Ha := fresh "Hx" in
  apply bind_ok in H; destruct H as [a [Ha H]].

Lemma py_index_nonneg {A : Type} (l : list A) (i : Z) :
  0 <= i -> py_index l i = nth_error l (Z.to_nat i).
Proof.
  intros Hi. unfold py_index.
  destruct (0 <=? i) eqn:E0; [| apply Z.leb_gt in E0; lia].
  destruct (i <? Z.of_nat (List.length l)) eqn:E1; simpl; [reflexivity|].
  apply Z.ltb_ge in E1.
  destruct (- Z.of_nat (List.length l) <=? i) eqn:E2;
    destruct (i <? 0) eqn:E3; simpl;
    try (apply Z.ltb_lt in E3; lia);
    symmetry; apply nth_error_None; lia.
Qed.

Lemma py_index_negative {A : Type} (l : list A) (i : Z) :
  i < 0 -> - Z.of_nat (List.length l) <= i ->
  py_index l i = nth_error l (Z.to_nat (Z.of_nat (List.length l) + i)).
Proof.
  intros Hi Hn. unfold py_index.
  destruct (0 <=? i) eqn:E0; [apply Z.leb_le in E0; lia|]. simpl.
  destruct (- Z.of_nat (List.length l) <=? i) eqn:E2;
    [| apply Z.leb_gt in E2; lia].
  destruct (i <? 0) eqn:E3; [| apply Z.ltb_ge in E3; lia].
  reflexivity.
Qed.

(** ** The indel check *)

Lemma indel_check_single_alt (r a : string) :
  len a = 1 -> indel_check r a = false.
Proof.
  intros Ha. unfold indel_check. rewrite Ha. simpl.
  apply andb_false_r.
Qed.

Lemma lor_one_eq_one (n : nat) :
  Z.lor 1 (Z.of_nat n) = 1 <-> (n <= 1)%nat.
Proof.
  destruct n as [|[|n]]; simpl; try (split; [lia | reflexivity]).
  split; [| lia]. intros H. exfalso.
  destruct (Pos.succ (Pos.of_succ_nat n)) eqn:E; simpl in H;
    try discriminate.
  exact (Pos.succ_not_1 _ E).
Qed.

(** C3. The script's condition [len(ref) != 1 | len(alt) != 1] is not the
    logical OR of the two length checks.  It skips a record exactly when
    the alternate has two or more characters and the length of the
    reference differs from [1 | len(alt)]; so a record with a two-base
    reference and a one-base alternate is not skipped: it enters
    [snp_dict] and the indel counter stays at 0. *)
Theorem indel_check_admits_long_reference :
  (forall r a, indel_check r a = true <->
               2 <= len a /\ len r <> Z.lor 1 (len a)) /\
  indel_check "AT" "G" = false /\
  load_snps split_blank int_of_digits sample_cfg ["chr1 200 201 rs2 AT G"]
  = Ok ([("rs2", new_snp "chr1" 200 "rs2" "AT" "G")], 0).
Proof.
  split; [| split; reflexivity].
  intros r a. unfold indel_check, len.
  rewrite andb_true_iff, !negb_true_iff, !Z.eqb_neq.
  pose proof (lor_one_eq_one (String.length a)) as H.
  split; intros [H1 H2]; split; auto; lia.
Qed.

(** ** The read filter *)

Lemma read_filter_ok (cfg : config) (snp_pos : Z) (r : read) (b : bool) :
  read_filter cfg snp_pos r = Ok b -> b = within_limits cfg snp_pos r.
Proof.
  unfold read_filter, within_limits, index_or_raise.
  destruct (NM r >? MAX_MISSMATCHES_PER_READ cfg) eqn:E.
  - intros H; inversion H; subst.
    apply Z.gtb_lt in E.
    destruct (NM r <=? MAX_MISSMATCHES_PER_READ cfg) eqn:E'; auto.
    apply Z.leb_le in E'. lia.
  - assert (E' : (NM r <=? MAX_MISSMATCHES_PER_READ cfg) = true).
    { apply Z.leb_le. rewrite Z.gtb_ltb in E. apply Z.ltb_ge in E. lia. }
    rewrite E'. simpl.
    destruct (py_index _ _) as [q|]; simpl; [| discriminate].
    destruct (q <? MIN_MAPPING_QUAL_AT_SNP cfg) eqn:Eq; intros H;
      inversion H; subst; symmetry.
    + apply Z.leb_gt. apply Z.ltb_lt in Eq. lia.
    + apply Z.leb_le. apply Z.ltb_ge in Eq. lia.
Qed.

Lemma filter_reads_ok (cfg : config) (snp_pos : Z) (fetched kept : list read) :
  filter_reads cfg snp_pos fetched = Ok kept ->
  kept = filter (within_limits cfg snp_pos) fetched.
Proof.
  revert kept. induction fetched as [|r rest IH]; simpl; intros kept H.
  - inversion H; reflexivity.
  - inv_bind H. inv_bind H. inversion H; subst.
    rewrite <- (read_filter_ok _ _ _ _ Hx), <- (IH _ Hx0).
    reflexivity.
Qed.

(** C9. A read is appended to the site's reads exactly when its mismatch
    count is at most the maximum and the quality at offset
    [pos - reference_start] is at least the minimum; it is skipped exactly
    when the mismatch count is above the maximum or that quality is below
    the minimum; and the reads kept from a fetch are those of the fetch
    that meet the two conditions, in fetch order. *)
Theorem read_filter_accepts_iff (cfg : config) (snp_pos : Z) (r : read) :
  (read_filter cfg snp_pos r = Ok true <->
   NM r <= MAX_MISSMATCHES_PER_READ cfg /\
   exists q, py_index (query_alignment_qualities r)
                      (snp_pos - reference_start r) = Some q /\
             MIN_MAPPING_QUAL_AT_SNP cfg <= q)
  /\
  (read_filter cfg snp_pos r = Ok false <->
   NM r > MAX_MISSMATCHES_PER_READ cfg \/
   exists q, py_index (query_alignment_qualities r)
                      (snp_pos - reference_start r) = Some q /\
             q < MIN_MAPPING_QUAL_AT_SNP cfg)
  /\
  (forall fetched kept,
      filter_reads cfg snp_pos (r :: fetched) = Ok kept <->
      is_ok (read_filter cfg snp_pos r) = true /\
      is_ok (filter_reads cfg snp_pos fetched) = true /\
      kept = filter (within_limits cfg snp_pos) (r :: fetched)).
Proof.
  split; [| split].
  - unfold read_filter, index_or_raise. split.
    + destruct (NM r >? MAX_MISSMATCHES_PER_READ cfg) eqn:E; [discriminate|].
      rewrite Z.gtb_ltb in E. apply Z.ltb_ge in E.
      destruct (py_index _ _) as [q|]; simpl; [| discriminate].
      destruct (q <? MIN_MAPPING_QUAL_AT_SNP cfg) eqn:Eq; [discriminate|].
      apply Z.ltb_ge in Eq. intros _. split; [lia|]. exists q. split; auto.
    + intros [Hnm [q [Hq Hmin]]].
      destruct (NM r >? MAX_MISSMATCHES_PER_READ cfg) eqn:E.
      { apply Z.gtb_lt in E. lia. }
      rewrite Hq. simpl.
      destruct (q <? MIN_MAPPING_QUAL_AT_SNP cfg) eqn:Eq; auto.
      apply Z.ltb_lt in Eq. lia.
  - unfold read_filter, index_or_raise. split.
    + destruct (NM r >? MAX_MISSMATCHES_PER_READ cfg) eqn:E.
      { apply Z.gtb_lt in E. intros _. left. lia. }
      destruct (py_index _ _) as [q|]; simpl; [| discriminate].
      destruct (q <? MIN_MAPPING_QUAL_AT_SNP cfg) eqn:Eq; [| discriminate].
      apply Z.ltb_lt in Eq. intros _. right. exists q. split; auto.
    + intros [Hnm | [q [Hq Hmin]]].
      * destruct (NM r >? MAX_MISSMATCHES_PER_READ cfg) eqn:E; auto.
        rewrite Z.gtb_ltb in E. apply Z.ltb_ge in E. lia.
      * destruct (NM r >? MAX_MISSMATCHES_PER_READ cfg) eqn:E; auto.
        rewrite Hq. simpl.
        destruct (q <? MIN_MAPPING_QUAL_AT_SNP cfg) eqn:Eq; auto.
        apply Z.ltb_ge in Eq. lia.
  - intros fetched kept. split.
    + intros H. pose proof (filter_reads_ok _ _ _ _ H) as Hk.
      simpl in H. inv_bind H. inv_bind H.
      rewrite Hx, Hx0. simpl. auto.
    + intros [H1 [H2 Hk]].
      simpl filter_reads.
      destruct (read_filter cfg snp_pos r) as [b|] eqn:Er; [| discriminate].
      destruct (filter_reads cfg snp_pos fetched) as [ks|] eqn:Ef;
        [| discriminate].
      simpl. subst kept. simpl.
      rewrite <- (read_filter_ok _ _ _ _ Er), <- (filter_reads_ok _ _ _ _ Ef).
      reflexivity.
Qed.

(** ** Offsets before the start of a read *)

Lemma length_list_ascii_of_string (s : string) :
  List.length (list_ascii_of_string s) = String.length s.
Proof. induction s; simpl; congruence. Qed.

Lemma nth_error_in_range {A : Type} (l : list A) (n : nat) :
  (n < List.length l)%nat -> exists a, nth_error l n = Some a.
Proof.
  intros H. destruct (nth_error l n) as [a|] eqn:E; [eauto|].
  apply nth_error_None in E. lia.
Qed.

(** C10. For a read that starts after the site position the offset
    [pos - reference_start] is negative.  As long as its magnitude does not
    exceed the length of the quality array (of the sequence), the quality
    (the base) is taken from that many places before the end: the read is
    not rejected for it, the filter decides on that quality alone, and the
    counter counts that base. *)
Theorem negative_offset_indexes_from_end
        (cfg : config) (snp_pos : Z) (r : read) :
  snp_pos < reference_start r ->
  let off := snp_pos - reference_start r in
  let quals := query_alignment_qualities r in
  let bases := list_ascii_of_string (query_sequence r) in
  off < 0 /\
  (- Z.of_nat (List.length quals) <= off ->
   exists q,
     nth_error quals (Z.to_nat (Z.of_nat (List.length quals) + off)) = Some q /\
     py_index quals off = Some q /\
     read_filter cfg snp_pos r
     = Ok (negb (NM r >? MAX_MISSMATCHES_PER_READ cfg)
           && negb (q <? MIN_MAPPING_QUAL_AT_SNP cfg))) /\
  (- len (query_sequence r) <= off ->
   exists c,
     nth_error bases (Z.to_nat (len (query_sequence r) + off)) = Some c /\
     str_index (query_sequence r) off = Some (String c EmptyString) /\
     forall d, count_read snp_pos r d = Ok (count_base d (String c EmptyString))).
Proof.
  intros Hstart off quals bases.
  assert (Hneg : off < 0) by (unfold off; lia).
  split; [exact Hneg | split].
  - intros Hlen.
    destruct (nth_error_in_range quals
                (Z.to_nat (Z.of_nat (List.length quals) + off))) as [q Hq].
    { lia. }
    exists q. split; [exact Hq|].
    assert (Hpy : py_index quals off = Some q).
    { rewrite py_index_negative by assumption. exact Hq. }
    split; [exact Hpy|].
    unfold read_filter, index_or_raise. fold off. fold quals. rewrite Hpy.
    destruct (NM r >? MAX_MISSMATCHES_PER_READ cfg); simpl; [reflexivity|].
    destruct (q <? MIN_MAPPING_QUAL_AT_SNP cfg); reflexivity.
  - unfold len. intros Hlen.
    assert (Hb : List.length bases = String.length (query_sequence r))
      by apply length_list_ascii_of_string.
    destruct (nth_error_in_range bases
                (Z.to_nat (Z.of_nat (String.length (query_sequence r)) + off)))
      as [c Hc].
    { lia. }
    exists c. split; [exact Hc|].
    assert (Hs : str_index (query_sequence r) off = Some (String c EmptyString)).
    { unfold str_index. fold bases.
      rewrite py_index_negative by lia. rewrite Hb, Hc. reflexivity. }
    split; [exact Hs|].
    intros d. unfold count_read. fold off. rewrite Hs. reflexivity.
Qed.

Lemma negative_offset_indexes_from_end_witness :
  100 < reference_start (plain_read 103 "ACGT") /\
  str_index (query_sequence (plain_read 103 "ACGT")) (100 - 103) = Some "C" /\
  read_filter sample_cfg 100 (plain_read 103 "ACGT") = Ok true.
Proof.
  assert (H : 100 < reference_start (plain_read 103 "ACGT")) by (simpl; lia).
  split; [exact H|].
  destruct (negative_offset_indexes_from_end sample_cfg 100
              (plain_read 103 "ACGT") H) as [_ [Hq Hb]].
  split.
  - destruct Hb as [c [Hc [Hs _]]]; [simpl; lia|].
    simpl in Hc. inversion Hc; subst c. exact Hs.
  - destruct Hq as [q [Hn [_ Hf]]]; [simpl; lia|].
    simpl in Hn. inversion Hn; subst q. exact Hf.
Defined.

(** ** Dictionaries *)

Lemma dict_get_set {V : Type} (d : dict V) (k k' : string) (v : V) :
  dict_get (dict_set d k v) k'
  = if String.eqb k k' then Some v else dict_get d k'.
Proof.
  induction d as [|[e w] d IH]; simpl.
  - reflexivity.
  - destruct (String.eqb e k) eqn:Eek; simpl.
    + apply String.eqb_eq in Eek. subst e.
      destruct (String.eqb k k'); reflexivity.
    + destruct (String.eqb e k') eqn:Eek'.
      * apply String.eqb_eq in Eek'. subst e. rewrite String.eqb_sym, Eek.
        reflexivity.
      * exact IH.
Qed.

Lemma dict_get_In {V : Type} (d : dict V) (k : string) (v : V) :
  dict_get d k = Some v -> In (k, v) d.
Proof.
  induction d as [|[e w] d IH]; simpl; [discriminate|].
  destruct (String.eqb e k) eqn:E.
  - apply String.eqb_eq in E. intros H; inversion H; subst. auto.
  - auto.
Qed.

Lemma dict_get_None_keys {V : Type} (d : dict V) (k : string) :
  dict_get d k = None <-> ~ In k (dict_keys d).
Proof.
  induction d as [|[e w] d IH]; simpl.
  - tauto.
  - destruct (String.eqb e k) eqn:E.
    + apply String.eqb_eq in E. split; [discriminate | intuition].
    + apply String.eqb_neq in E. rewrite IH. intuition.
Qed.

Lemma In_dict_get {V : Type} (d : dict V) (k : string) (v : V) :
  NoDup (dict_keys d) -> In (k, v) d -> dict_get d k = Some v.
Proof.
  induction d as [|[e w] d IH]; simpl; [tauto|].
  intros Hnd [Heq | Hin]; inversion Hnd; subst.
  - inversion Heq; subst. rewrite String.eqb_refl. reflexivity.
  - destruct (String.eqb e k) eqn:E.
    + apply String.eqb_eq in E. subst e. exfalso. apply H1.
      change k with (fst (k, v)). apply in_map. exact Hin.
    + auto.
Qed.

Lemma dict_set_keys {V : Type} (d : dict V) (k : string) (v : V) :
  dict_keys (dict_set d k v)
  = if dict_mem d k then dict_keys d else (dict_keys d ++ [k])%list.
Proof.
  unfold dict_mem. induction d as [|[e w] d IH]; simpl; [reflexivity|].
  destruct (String.eqb e k) eqn:E; simpl; [reflexivity|].
  rewrite IH. destruct (dict_get d k); reflexivity.
Qed.

Lemma dict_set_NoDup {V : Type} (d : dict V) (k : string) (v : V) :
  NoDup (dict_keys d) -> NoDup (dict_keys (dict_set d k v)).
Proof.
  intros H. rewrite dict_set_keys. unfold dict_mem.
  destruct (dict_get d k) eqn:E; [exact H|].
  apply dict_get_None_keys in E.
  apply NoDup_app; [exact H | repeat constructor; simpl; tauto |].
  intros x Hx [Hk | []]. subst x. contradiction.
Qed.

Lemma In_same_key {V : Type} (d : dict V) (k : string) (v w : V) :
  NoDup (dict_keys d) -> In (k, v) d -> In (k, w) d -> v = w.
Proof.
  intros Hnd Hv Hw.
  apply (In_dict_get _ _ _ Hnd) in Hv. apply (In_dict_get _ _ _ Hnd) in Hw.
  congruence.
Qed.

Lemma str_append_assoc (a b c : string) : (a +++ b) +++ c = a +++ b +++ c.
Proof. induction a; simpl; congruence. Qed.

(** ** Allele counting *)

Lemma count_of_count_base (d : dict allele) (b b' : string) :
  count_of (count_base d b) b'
  = count_of d b' + (if String.eqb b b' then 1 else 0).
Proof.
  unfold count_of, count_base.
  destruct (dict_get d b) as [a|] eqn:Eb; rewrite dict_get_set;
    destruct (String.eqb b b') eqn:E; simpl; try lia.
  - apply String.eqb_eq in E. subst b'. rewrite Eb. reflexivity.
  - apply String.eqb_eq in E. subst b'. rewrite Eb. reflexivity.
Qed.




Lemma count_alleles_tally (snp_pos : Z) (rs : list read) :
  forall d d', foldM (count_read snp_pos) rs d = Ok d' ->
  forall b, count_of d' b
            = count_of d b
              + Z.of_nat (List.length (filter (shows_base snp_pos b) rs)).
Proof.
  induction rs as [|r rs IH]; simpl; intros d d' H b.
  - inversion H; subst. lia.
  - inv_bind H. rewrite (IH _ _ H b).
    unfold count_read in Hx. unfold shows_base, base_at.
    destruct (str_index (query_sequence r) (snp_pos - reference_start r))
      as [base|]; [| discriminate].
    inversion Hx; subst. rewrite count_of_count_base.
    destruct (String.eqb base b); simpl List.length; lia.
Qed.

Lemma count_alleles_total (snp_pos : Z) (rs : list read) :
  (forall r, In r rs -> base_at snp_pos r <> None) ->
  forall d, exists d', foldM (count_read snp_pos) rs d = Ok d'.
Proof.
  induction rs as [|r rs IH]; simpl; intros Hall d.
  - eauto.
  - unfold count_read at 1.
    specialize (Hall r (or_introl eq_refl)) as Hr. unfold base_at in Hr.
    destruct (str_index (query_sequence r) (snp_pos - reference_start r))
      as [base|]; [| congruence].
    simpl. apply IH. intros r' Hin. apply Hall. auto.
Qed.

Lemma count_base_no_pvalue (d : dict allele) (b : string) :
  (forall k a, In (k, a) d -> pvalue a = None) ->
  forall k a, In (k, a) (count_base d b) -> pvalue a = None.
Proof.
  intros Hd. unfold count_base.
  assert (Hset : forall (v : allele), pvalue v = None ->
            forall k a, In (k, a) (dict_set d b v) -> pvalue a = None).
  { intros v Hv. clear - Hd Hv. induction d as [|[e w] d IH]; simpl.
    - intros k a [H | []]. inversion H; subst. exact Hv.
    - destruct (String.eqb e b); simpl; intros k a [H | H].
      + inversion H; subst. exact Hv.
      + apply (Hd k a). right. exact H.
      + inversion H; subst. apply (Hd k a). left. reflexivity.
      + exact (IH (fun k' a' Hin => Hd k' a' (or_intror Hin)) k a H). }
  destruct (dict_get d b) as [a0|] eqn:E.
  - apply Hset. simpl. apply (Hd b a0). apply dict_get_In. exact E.
  - apply Hset. reflexivity.
Qed.

Lemma count_alleles_no_pvalue (snp_pos : Z) (rs : list read) :
  forall d d', foldM (count_read snp_pos) rs d = Ok d' ->
  (forall k a, In (k, a) d -> pvalue a = None) ->
  forall k a, In (k, a) d' -> pvalue a = None.
Proof.
  induction rs as [|r rs IH]; simpl; intros d d' H Hd.
  - inversion H; subst. exact Hd.
  - inv_bind H. apply (IH _ _ H).
    unfold count_read in Hx.
    destruct (str_index _ _) as [base|]; [| discriminate].
    inversion Hx; subst. apply count_base_no_pvalue. exact Hd.
Qed.

(** ** The FDR pool *)

Lemma is_valid_test_true_iff (s : snp) :
  is_valid_test s = Ok true <-> eligible s.
Proof.
  unfold is_valid_test, eligible, get_pvalue, isNumber. split.
  - destruct (flag_sufficient_reads s); simpl; [| discriminate].
    destruct (alt_entry s) as [a|]; simpl; [| discriminate].
    destruct (pvalue a) as [p|] eqn:Ep; simpl; [| discriminate].
    destruct (count a >? 0) eqn:Ec; simpl; [| discriminate].
    intros H. inversion H as [He]. apply String.eqb_eq in He.
    split; [reflexivity|]. split; [| exact He].
    exists a, p. repeat split; auto. apply Z.gtb_lt in Ec. lia.
  - intros [Hf [[a [p [Ha [Hp Hc]]]] Hcom]].
    rewrite Hf, Ha. simpl. rewrite Hp. simpl.
    destruct (count a >? 0) eqn:Ec.
    + simpl. rewrite Hcom. reflexivity.
    + rewrite Z.gtb_ltb in Ec. apply Z.ltb_ge in Ec. lia.
Qed.

Lemma collect_step_mem (key : string) (s : snp) (pool0 pool : dict valid_test) :
  collect_step (key, s) pool0 = Ok pool ->
  forall k, dict_mem pool k = true <->
            dict_mem pool0 k = true \/ (k = key /\ is_valid_test s = Ok true).
Proof.
  unfold collect_step. intros H k.
  destruct (is_valid_test s) as [[|]|] eqn:Ev; simpl in H; try discriminate.
  - inv_bind H. inv_bind H. inversion H; subst.
    unfold dict_mem. rewrite dict_get_set.
    destruct (String.eqb key k) eqn:E.
    + apply String.eqb_eq in E. intuition.
    + apply String.eqb_neq in E. split; [auto|].
      intros [Hm | [Hk _]]; [exact Hm | congruence].
  - inversion H; subst. split; [auto|].
    intros [Hm | [_ Hk]]; [exact Hm | discriminate].
Qed.

Lemma collect_mem (snp_dict : dict snp) :
  forall pool0 pool, foldM collect_step snp_dict pool0 = Ok pool ->
  forall k, dict_mem pool k = true <->
            dict_mem pool0 k = true \/
            exists s, In (k, s) snp_dict /\ is_valid_test s = Ok true.
Proof.
  induction snp_dict as [|[key s] rest IH]; simpl; intros pool0 pool H k.
  - inversion H; subst. split; [auto|]. intros [Hm | [s [[] _]]]. exact Hm.
  - inv_bind H. rewrite (IH _ _ H k), (collect_step_mem _ _ _ _ Hx k).
    split.
    + intros [[Hm | [Hk Hv]] | [s' [Hin Hv]]].
      * auto.
      * right. exists s. subst. auto.
      * right. exists s'. auto.
    + intros [Hm | [s' [[Heq | Hin] Hv]]].
      * auto.
      * inversion Heq; subst. auto.
      * right. exists s'. auto.
Qed.

Lemma collect_NoDup (snp_dict : dict snp) :
  forall pool0 pool, foldM collect_step snp_dict pool0 = Ok pool ->
  NoDup (dict_keys pool0) -> NoDup (dict_keys pool).
Proof.
  induction snp_dict as [|[key s] rest IH]; simpl; intros pool0 pool H Hnd.
  - inversion H; subst. exact Hnd.
  - inv_bind H. apply (IH _ _ H).
    unfold collect_step in Hx.
    destruct (is_valid_test s) as [[|]|]; simpl in Hx; try discriminate.
    + inv_bind Hx. inv_bind Hx. inversion Hx; subst.
      apply dict_set_NoDup. exact Hnd.
    + inversion Hx; subst. exact Hnd.
Qed.

Lemma assign_qvalues_keys (keys : list string) (qs : list Q) :
  forall i valid valid',
    assign_qvalues keys i qs valid = Ok valid' ->
    dict_keys valid' = dict_keys valid.
Proof.
  induction keys as [|k keys IH]; simpl; intros i valid valid' H.
  - inversion H; reflexivity.
  - inv_bind H. inv_bind H. rewrite (IH _ _ _ H), dict_set_keys.
    unfold dict_lookup in Hx0. unfold dict_mem.
    destruct (dict_get valid k); [reflexivity | discriminate].
Qed.

Lemma fdr_stage_mem (pool pool' : dict valid_test) (k : string) :
  fdr_stage pool = Ok pool' -> dict_mem pool' k = dict_mem pool k.
Proof.
  unfold fdr_stage. intros H. apply assign_qvalues_keys in H.
  unfold dict_mem.
  destruct (dict_get pool' k) eqn:E1; destruct (dict_get pool k) eqn:E2;
    try reflexivity; exfalso.
  - apply dict_get_None_keys in E2. apply E2. rewrite <- H.
    change k with (fst (k, v)). apply in_map. apply dict_get_In. exact E1.
  - apply dict_get_None_keys in E1. apply E1. rewrite H.
    change k with (fst (k, v)). apply in_map. apply dict_get_In. exact E2.
Qed.

(** ** Benjamini-Hochberg *)

Lemma list_update_length (l : list Q) (i : nat) (v : Q) :
  List.length (list_update l i v) = List.length l.
Proof.
  revert i. induction l as [|x l IH]; intros [|i]; simpl; auto.
Qed.

Lemma list_update_same (l : list Q) (i : nat) (v q : Q) :
  nth_error (list_update l i v) i = Some q -> q = v.
Proof.
  revert i. induction l as [|x l IH]; intros [|i]; simpl; try discriminate.
  - intros H; inversion H; reflexivity.
  - apply IH.
Qed.

Lemma list_update_other (l : list Q) (i j : nat) (v : Q) :
  i <> j -> nth_error (list_update l j v) i = nth_error l i.
Proof.
  revert i j.
  induction l as [|x l IH]; intros [|i] [|j] H; simpl; auto; congruence.
Qed.

Lemma scatter_length (ivs : list (nat * Q)) :
  forall out,
    List.length (fold_left (fun acc iv => list_update acc (fst iv) (snd iv))
                           ivs out)
    = List.length out.
Proof.
  induction ivs as [|[j v] ivs IH]; simpl; intros out; [reflexivity|].
  rewrite IH. apply list_update_length.
Qed.

Lemma scatter_origin (ivs : list (nat * Q)) :
  forall out i q,
    nth_error (fold_left (fun acc iv => list_update acc (fst iv) (snd iv))
                         ivs out) i = Some q ->
    In (i, q) ivs \/ (nth_error out i = Some q /\ ~ In i (map fst ivs)).
Proof.
  induction ivs as [|[j v] ivs IH]; simpl; intros out i q H.
  - right. split; [exact H | tauto].
  - destruct (IH _ _ _ H) as [Hin | [Hout Hnot]].
    + left. right. exact Hin.
    + destruct (Nat.eq_dec i j) as [-> | Hij].
      * left. left. apply list_update_same in Hout. subst. reflexivity.
      * right. rewrite list_update_other in Hout by assumption.
        split; [exact Hout|]. intros [Hj | Hin]; [congruence | contradiction].
Qed.

Lemma insert_by_pvalue_perm (x : Q * nat) (l : list (Q * nat)) :
  Permutation (insert_by_pvalue x l) (x :: l).
Proof.
  induction l as [|y l IH]; simpl; [reflexivity|].
  destruct (Qle_bool (fst x) (fst y)); [reflexivity|].
  rewrite IH. apply perm_swap.
Qed.

Lemma sort_by_pvalue_index_perm (l : list (Q * nat)) :
  Permutation (sort_by_pvalue_index l) l.
Proof.
  induction l as [|x l IH]; simpl; [reflexivity|].
  rewrite insert_by_pvalue_perm. apply perm_skip. exact IH.
Qed.

Lemma insert_by_pvalue_sorted (x : Q * nat) (l : list (Q * nat)) :
  Sorted fst_le l -> Sorted fst_le (insert_by_pvalue x l).
Proof.
  induction l as [|y l IH]; simpl; intros Hs.
  - repeat constructor.
  - destruct (Qle_bool (fst x) (fst y)) eqn:E.
    + apply Qle_bool_iff in E. constructor; [exact Hs|]. constructor. exact E.
    + assert (Hyx : fst_le y x).
      { unfold fst_le. destruct (Qlt_le_dec (fst x) (fst y)) as [Hlt|Hle];
          [| exact Hle].
        apply Qlt_le_weak in Hlt. apply Qle_bool_iff in Hlt. congruence. }
      inversion Hs as [|? ? Hs' Hhd]; subst.
      constructor; [apply IH; exact Hs'|].
      destruct l as [|z l]; simpl.
      * constructor. exact Hyx.
      * destruct (Qle_bool (fst x) (fst z)); constructor; [exact Hyx|].
        inversion Hhd; assumption.
Qed.

Lemma sort_by_pvalue_index_sorted (l : list (Q * nat)) :
  Sorted fst_le (sort_by_pvalue_index l).
Proof.
  induction l as [|x l IH]; simpl; [constructor|].
  apply insert_by_pvalue_sorted. exact IH.
Qed.

Lemma In_combine_seq (l : list Q) :
  forall s p i, In (p, i) (combine l (seq s (List.length l))) ->
                (s <= i)%nat /\ nth_error l (i - s) = Some p.
Proof.
  induction l as [|x l IH]; simpl; intros s p i H; [tauto|].
  destruct H as [H | H].
  - inversion H; subst. rewrite Nat.sub_diag. split; [lia | reflexivity].
  - destruct (IH _ _ _ H) as [Hle Hn]. split; [lia|].
    replace (i - s)%nat with (S (i - S s)) by lia. exact Hn.
Qed.

Lemma snd_combine_seq (l : list Q) (s : nat) :
  map snd (combine l (seq s (List.length l))) = seq s (List.length l).
Proof.
  revert s. induction l as [|x l IH]; simpl; intros s; [reflexivity|].
  rewrite IH. reflexivity.
Qed.

Lemma ecdffactor_range (n k0 : nat) :
  (S k0 <= n)%nat -> (0 < ecdffactor n k0 /\ ecdffactor n k0 <= 1)%Q.
Proof.
  intros H. unfold ecdffactor.
  assert (Hn : (0 < inject_Z (Z.of_nat n))%Q).
  { change 0%Q with (inject_Z 0). rewrite <- Zlt_Qlt. lia. }
  assert (Hk : (0 < inject_Z (Z.of_nat (S k0)))%Q).
  { change 0%Q with (inject_Z 0). rewrite <- Zlt_Qlt. lia. }
  split.
  - apply Qlt_shift_div_l; [exact Hn|]. rewrite Qmult_0_l. exact Hk.
  - apply Qle_shift_div_r; [exact Hn|]. rewrite Qmult_1_l.
    rewrite <- Zle_Qle. lia.
Qed.

Lemma corrected_raw_ge (n k0 : nat) (p : Q) :
  (S k0 <= n)%nat -> (0 <= p)%Q -> (p <= p / ecdffactor n k0)%Q.
Proof.
  intros Hk Hp. destruct (ecdffactor_range n k0 Hk) as [Hpos Hle].
  apply Qle_shift_div_l; [exact Hpos|].
  rewrite <- (Qmult_1_r p) at 2.
  rewrite (Qmult_comm p (ecdffactor n k0)), (Qmult_comm p 1).
  apply Qmult_le_compat_r; assumption.
Qed.

(** Below the running minimum: every sorted p-value is at most the
    corrected value of its rank. *)
Lemma cummin_right_ge (n : nat) (ps : list Q) :
  forall k0,
    (k0 + List.length ps <= n)%nat ->
    Sorted Qle ps ->
    Forall (fun p => 0 <= p)%Q ps ->
    Forall2 Qle ps (cummin_right (corrected_raw n k0 ps)).
Proof.
  induction ps as [|p ps IH]; simpl; intros k0 Hlen Hs Hpos.
  - constructor.
  - inversion Hs as [|? ? Hs' Hhd]; subst.
    inversion Hpos as [|? ? Hp Hpos']; subst.
    assert (Hraw : (p <= p / ecdffactor n k0)%Q)
      by (apply corrected_raw_ge; [lia | exact Hp]).
    specialize (IH (S k0) ltac:(lia) Hs' Hpos').
    destruct ps as [|p' ps]; simpl in *.
    + constructor; [exact Hraw | constructor].
    + destruct (cummin_right (corrected_raw n (S (S k0)) ps)) as [|m ms];
        inversion IH as [|? ? ? ? Hp'm Hrest]; subst.
      * constructor; [| exact IH].
        apply Q.min_glb; [exact Hraw|].
        inversion Hhd; subst. eapply Qle_trans; eassumption.
      * constructor; [| exact IH].
        apply Q.min_glb; [exact Hraw|].
        inversion Hhd; subst. eapply Qle_trans; eassumption.
Qed.

Lemma clip_one_ge (p x : Q) : (p <= x)%Q -> (p <= 1)%Q -> (p <= clip_one x)%Q.
Proof.
  intros Hx H1. unfold clip_one. destruct (Qle_bool x 1); assumption.
Qed.

Lemma Forall2_combine_In {A B : Type} (R : A -> B -> Prop)
      (l : list A) (l' : list B) :
  Forall2 R l l' -> forall a b, In (a, b) (combine l l') -> R a b.
Proof.
  induction 1; simpl; intros a b Hin; [tauto|].
  destruct Hin as [Heq | Hin]; [inversion Heq; subst; assumption | auto].
Qed.

Lemma Forall2_length_eq {A B : Type} (R : A -> B -> Prop)
      (l : list A) (l' : list B) :
  Forall2 R l l' -> List.length l = List.length l'.
Proof. induction 1; simpl; congruence. Qed.

Lemma In_combine_map_snd {A B C : Type} (sp : list (A * B)) (cs : list C) :
  forall i q, In (i, q) (combine (map snd sp) cs) ->
              exists p, In ((p, i), q) (combine sp cs).
Proof.
  revert cs. induction sp as [|[p j] sp IH]; simpl; intros cs i q H; [tauto|].
  destruct cs as [|c cs]; simpl in *; [tauto|].
  destruct H as [H | H].
  - inversion H; subst. exists p. auto.
  - destruct (IH _ _ _ H) as [p' Hp']. exists p'. auto.
Qed.

Lemma fdr_bh_length (pvals : list Q) :
  List.length (fdr_bh pvals) = List.length pvals.
Proof.
  unfold fdr_bh, scatter. rewrite scatter_length. apply repeat_length.
Qed.

Lemma fdr_bh_ge (pvals : list Q) :
  Forall (fun p => 0 <= p /\ p <= 1)%Q pvals ->
  forall i p q,
    nth_error pvals i = Some p ->
    nth_error (fdr_bh pvals) i = Some q ->
    (p <= q)%Q.
Proof.
  intros Hrange i p q Hp Hq.
  unfold fdr_bh, scatter, argsort in Hq.
  set (n := List.length pvals) in *.
  set (sp := sort_by_pvalue_index (combine pvals (seq 0 n))) in *.
  assert (Hperm : Permutation sp (combine pvals (seq 0 n)))
    by apply sort_by_pvalue_index_perm.
  assert (Hin_sp : forall p' j, In (p', j) sp -> nth_error pvals j = Some p').
  { intros p' j Hin. apply (Permutation_in _ Hperm) in Hin.
    apply In_combine_seq in Hin. destruct Hin as [_ Hn].
    rewrite Nat.sub_0_r in Hn. exact Hn. }
  assert (Htake : take pvals (map snd sp) = map fst sp).
  { unfold take. rewrite map_map. apply map_ext_in. intros [p' j] Hin. simpl.
    apply Hin_sp in Hin. apply nth_error_nth. exact Hin. }
  rewrite Htake in Hq.
  assert (Hlen : List.length sp = n).
  { rewrite (Permutation_length Hperm), length_combine, length_seq.
    apply Nat.min_id. }
  assert (Hsorted : Sorted Qle (map fst sp)).
  { pose proof (sort_by_pvalue_index_sorted (combine pvals (seq 0 n))) as Hs.
    fold sp in Hs. clear - Hs. induction Hs as [|x l Hs IH Hhd]; simpl.
    - constructor.
    - constructor; [exact IH|]. destruct Hhd; simpl; constructor. assumption. }
  assert (Hsp_range : Forall (fun p => 0 <= p /\ p <= 1)%Q (map fst sp)).
  { apply Forall_forall. intros p' Hin. apply in_map_iff in Hin.
    destruct Hin as [[p'' j] [Heq Hin]]. simpl in Heq. subst p''.
    apply Hin_sp in Hin. apply nth_error_In in Hin.
    rewrite Forall_forall in Hrange. apply Hrange. exact Hin. }
  assert (Hge : Forall2 Qle (map fst sp)
                        (map clip_one
                             (cummin_right (corrected_raw n 0 (map fst sp))))).
  { assert (H0 : Forall2 Qle (map fst sp)
                         (cummin_right (corrected_raw n 0 (map fst sp)))).
    { apply cummin_right_ge; [rewrite length_map; lia | exact Hsorted |].
      eapply Forall_impl; [| exact Hsp_range]. simpl. tauto. }
    revert Hsp_range. clear - H0.
    induction H0; simpl; intros Hr; constructor.
    - inversion Hr; subst. apply clip_one_ge; tauto.
    - apply IHForall2. inversion Hr; assumption. }
  apply scatter_origin in Hq. destruct Hq as [Hin | [Hout Hnot]].
  - apply In_combine_map_snd in Hin. destruct Hin as [p' Hin].
    assert (Hp' : In (p', i) sp) by (eapply in_combine_l; exact Hin).
    apply Hin_sp in Hp'. rewrite Hp in Hp'. inversion Hp'; subst p'.
    assert (Hpq : In (p, q)
                     (combine (map fst sp)
                              (map clip_one
                                 (cummin_right
                                    (corrected_raw n 0 (map fst sp)))))).
    { clear - Hin.
      revert Hin.
      generalize (map clip_one (cummin_right (corrected_raw n 0 (map fst sp)))).
      induction sp as [|[p0 j0] sp IH]; simpl; intros cs H; [tauto|].
      destruct cs as [|c cs]; simpl in *; [tauto|].
      destruct H as [H | H]; [inversion H; subst; auto | right; auto]. }
    exact (Forall2_combine_In _ _ _ Hge _ _ Hpq).
  - exfalso. apply Hnot.
    assert (Hidx : In i (map snd sp)).
    { apply (Permutation_in (l := seq 0 n)).
      - symmetry. pose proof (snd_combine_seq pvals 0) as Hsnd. fold n in Hsnd.
        rewrite <- Hsnd. apply Permutation_map. exact Hperm.
      - apply in_seq. split; [lia|]. simpl.
        apply nth_error_Some. congruence. }
    clear - Hidx Hge.
    assert (Hl : List.length (map snd sp)
                 = List.length (map clip_one
                                    (cummin_right
                                       (corrected_raw n 0 (map fst sp))))).
    { rewrite <- (Forall2_length_eq _ _ _ Hge), !length_map. reflexivity. }
    revert Hl Hidx.
    generalize (map clip_one (cummin_right (corrected_raw n 0 (map fst sp)))).
    generalize (map snd sp). clear.
    induction l as [|j l IH]; intros [|c cs] Hl Hin; simpl in *;
      try tauto; try discriminate.
    destruct Hin as [-> | Hin]; [auto | right; apply IH; auto].
Qed.

(** ** Assigning the q-values *)

Lemma dict_get_app_notin {V : Type} (pre d : dict V) (k : string) :
  ~ In k (dict_keys pre) -> dict_get (pre ++ d)%list k = dict_get d k.
Proof.
  induction pre as [|[e w] pre IH]; simpl; intros H; [reflexivity|].
  destruct (String.eqb e k) eqn:E.
  - apply String.eqb_eq in E. tauto.
  - apply IH. tauto.
Qed.

Lemma dict_set_app_notin {V : Type} (pre d : dict V) (k : string) (v : V) :
  ~ In k (dict_keys pre) ->
  dict_set (pre ++ d)%list k v = (pre ++ dict_set d k v)%list.
Proof.
  induction pre as [|[e w] pre IH]; simpl; intros H; [reflexivity|].
  destruct (String.eqb e k) eqn:E.
  - apply String.eqb_eq in E. tauto.
  - rewrite IH by tauto. reflexivity.
Qed.

Lemma skipn_nth_error {A : Type} (l : list A) (n : nat) (a : A) :
  nth_error l n = Some a -> skipn n l = a :: skipn (S n) l.
Proof.
  revert n. induction l as [|x l IH]; intros [|n]; simpl; try discriminate.
  - intros H; inversion H; reflexivity.
  - intros H. rewrite (IH _ H). reflexivity.
Qed.

Lemma assign_qvalues_exact (qs : list Q) (suf : dict valid_test) :
  forall pre,
    NoDup (dict_keys (pre ++ suf)%list) ->
    (List.length pre + List.length suf <= List.length qs)%nat ->
    assign_qvalues (dict_keys suf) (Z.of_nat (List.length pre)) qs
                   (pre ++ suf)%list
    = Ok (pre ++ with_qvalues suf (skipn (List.length pre) qs))%list.
Proof.
  induction suf as [|[k v] suf IH]; intros pre Hnd Hlen; simpl.
  - unfold with_qvalues. simpl. reflexivity.
  - simpl in Hlen.
    destruct (nth_error_in_range qs (List.length pre)) as [q Hq]; [lia|].
    unfold index_or_raise.
    rewrite py_index_nonneg by lia. rewrite Nat2Z.id, Hq. simpl.
    assert (Hk : ~ In k (dict_keys pre)).
    { unfold dict_keys in Hnd. rewrite map_app in Hnd. simpl in Hnd.
      apply NoDup_remove_2 in Hnd. intros Hin. apply Hnd.
      apply in_or_app. left. exact Hin. }
    unfold dict_lookup. rewrite dict_get_app_notin by exact Hk.
    simpl. rewrite String.eqb_refl. simpl.
    rewrite dict_set_app_notin by exact Hk. simpl. rewrite String.eqb_refl.
    set (nv := mkValid (vt_pvalue v) (Some q)).
    replace (pre ++ (k, nv) :: suf)%list
      with ((pre ++ [(k, nv)]) ++ suf)%list
      by (rewrite <- app_assoc; reflexivity).
    replace (Z.of_nat (List.length pre) + 1)
      with (Z.of_nat (List.length (pre ++ [(k, nv)])%list))
      by (rewrite length_app; simpl; lia).
    rewrite IH.
    + rewrite length_app. simpl. rewrite Nat.add_1_r.
      rewrite (skipn_nth_error _ _ _ Hq). unfold with_qvalues. simpl.
      rewrite <- app_assoc. reflexivity.
    + unfold dict_keys in *. rewrite <- app_assoc. simpl.
      rewrite map_app in *. simpl in *. exact Hnd.
    + rewrite length_app. simpl. lia.
Qed.

Lemma fdr_stage_exact (pool : dict valid_test) :
  NoDup (dict_keys pool) ->
  fdr_stage pool
  = Ok (with_qvalues pool (fdr_bh (map (fun e => vt_pvalue (snd e)) pool))).
Proof.
  intros Hnd. unfold fdr_stage.
  apply (assign_qvalues_exact _ pool []); [exact Hnd|].
  rewrite fdr_bh_length, length_map. simpl. lia.
Qed.

Lemma In_combine_nth_error {A B : Type} (l : list A) (l' : list B) :
  forall a b, In (a, b) (combine l l') ->
              exists j, nth_error l j = Some a /\ nth_error l' j = Some b.
Proof.
  revert l'. induction l as [|x l IH]; intros [|y l'] a b H; simpl in H;
    try tauto.
  destruct H as [H | H].
  - inversion H; subst. exists O. auto.
  - destruct (IH _ _ _ H) as [j Hj]. exists (S j). exact Hj.
Qed.

Lemma with_qvalues_ge (pool : dict valid_test) :
  Forall (fun e => 0 <= vt_pvalue (snd e) /\ vt_pvalue (snd e) <= 1)%Q pool ->
  forall key v,
    In (key, v)
       (with_qvalues pool (fdr_bh (map (fun e => vt_pvalue (snd e)) pool))) ->
    exists q, vt_qvalue v = Some q /\ (vt_pvalue v <= q)%Q /\
              In (key, mkValid (vt_pvalue v) None)
                 (map (fun e => (fst e, mkValid (vt_pvalue (snd e)) None)) pool).
Proof.
  intros Hrange key v Hin. unfold with_qvalues in Hin.
  apply in_map_iff in Hin. destruct Hin as [[[k w] q] [Heq Hin]].
  simpl in Heq. inversion Heq; subst key v. clear Heq.
  exists q. simpl. split; [reflexivity|].
  pose proof (in_combine_l _ _ _ _ Hin) as Hpool.
  apply In_combine_nth_error in Hin. destruct Hin as [j [Hj Hq]].
  split.
  - apply (fdr_bh_ge (map (fun e => vt_pvalue (snd e)) pool)) with (i := j).
    + clear - Hrange. induction Hrange; simpl; constructor; auto.
    + rewrite nth_error_map, Hj. reflexivity.
    + exact Hq.
  - apply in_map_iff. exists (k, w). split; [reflexivity | exact Hpool].
Qed.

Lemma In_dict_set {V : Type} (d : dict V) (k k' : string) (v v' : V) :
  In (k', v') (dict_set d k v) -> (k', v') = (k, v) \/ In (k', v') d.
Proof.
  induction d as [|[e w] d IH]; simpl.
  - intros [H | []]. left. congruence.
  - destruct (String.eqb e k) eqn:E; simpl.
    + apply String.eqb_eq in E. subst e. intros [H | H]; [left | right; right];
        congruence.
    + intros [H | H]; [right; left; exact H|].
      destruct (IH H) as [H' | H']; [left | right; right]; assumption.
Qed.

Lemma collect_values (snp_dict : dict snp) :
  forall pool0 pool, foldM collect_step snp_dict pool0 = Ok pool ->
  forall key v, In (key, v) pool ->
    In (key, v) pool0 \/
    exists s a, In (key, s) snp_dict /\ is_valid_test s = Ok true /\
                alt_entry s = Ok a /\ pvalue a = Some (vt_pvalue v) /\
                vt_qvalue v = None.
Proof.
  induction snp_dict as [|[k s] rest IH]; simpl; intros pool0 pool H key v Hin.
  - inversion H; subst. left. exact Hin.
  - inv_bind H. destruct (IH _ _ H _ _ Hin) as [Hin0 | [s' [a [H1 H2]]]].
    + unfold collect_step in Hx.
      destruct (is_valid_test s) as [[|]|] eqn:Ev; simpl in Hx;
        try discriminate.
      * inv_bind Hx. inv_bind Hx. inversion Hx; subst x. clear Hx.
        apply In_dict_set in Hin0. destruct Hin0 as [Heq | Hin0];
          [| left; exact Hin0].
        inversion Heq; subst key v. right. exists s, x0.
        unfold get_pvalue in Hx1.
        destruct (pvalue x0) eqn:Ep; [| discriminate].
        inversion Hx1; subst. simpl. auto 6.
      * inversion Hx; subst. left. exact Hin0.
    + right. exists s', a. intuition.
Qed.

(** ** The p-value and q-value columns *)

Lemma str_append_nil (a : string) : a +++ "" = a.
Proof. induction a; simpl; congruence. Qed.

Lemma output_line_outside_pool (str_float : Q -> string)
      (pool : dict valid_test) (key : string) (s : snp) :
  dict_mem pool key = false ->
  output_line str_float pool key s
  = Ok (leading_columns s +++ (tab +++ "." +++ tab +++ ".")
          +++ trailing_columns s).
Proof.
  unfold dict_mem, output_line, pq_columns, leading_columns, trailing_columns.
  destruct (dict_get pool key); [discriminate|]. intros _.
  unfold bind.
  destruct (String.eqb (report_other s) ""); simpl negb; cbv iota;
    destruct (String.eqb (report_comment s) "");
    repeat rewrite str_append_assoc; try rewrite str_append_nil;
    reflexivity.
Qed.

(** ** Substitute anchor *)

Lemma scan_substitute_spec (alt_base : string) (d : dict allele) :
  forall b0 c0,
    (scan_substitute alt_base d (b0, c0) = (b0, c0) /\
     forall b' a', In (b', a') d -> b' <> alt_base -> count a' <= c0)
    \/
    (exists b c pre a post,
        scan_substitute alt_base d (b0, c0) = (b, c) /\
        c0 < c /\ b <> alt_base /\
        d = (pre ++ (b, a) :: post)%list /\ count a = c /\
        (forall b' a', In (b', a') pre -> b' <> alt_base -> count a' < c) /\
        (forall b' a', In (b', a') post -> b' <> alt_base -> count a' <= c)).
Proof.
  unfold scan_substitute.
  induction d as [|[k a] d IH]; intros b0 c0; simpl.
  - left. split; [reflexivity | tauto].
  - destruct (negb (String.eqb k alt_base) && (count a >? c0)) eqn:E.
    + apply andb_true_iff in E. destruct E as [Ek Ec].
      apply negb_true_iff in Ek. apply String.eqb_neq in Ek.
      apply Z.gtb_lt in Ec.
      destruct (IH k (count a)) as [[Hs Hall] | Hex].
      * right. exists k, (count a), [], a, d. simpl.
        repeat split; auto; tauto.
      * destruct Hex as [b [c [pre [a1 [post [Hs [Hc [Hb [Hd [Ha [Hpre Hpost]]]]]]]]]]].
        right. exists b, c, ((k, a) :: pre), a1, post. subst d. simpl.
        repeat split; auto; try lia.
        intros b' a' [Heq | Hin] Hne; [inversion Heq; subst; lia | eauto].
    + assert (Hk : k <> alt_base -> count a <= c0).
      { intros Hne. apply andb_false_iff in E. destruct E as [E | E].
        - apply negb_false_iff in E. apply String.eqb_eq in E. contradiction.
        - rewrite Z.gtb_ltb in E. apply Z.ltb_ge in E. lia. }
      destruct (IH b0 c0) as [[Hs Hall] | Hex].
      * left. split; [exact Hs|].
        intros b' a' [Heq | Hin] Hne; [inversion Heq; subst; auto | eauto].
      * destruct Hex as [b [c [pre [a1 [post [Hs [Hc [Hb [Hd [Ha [Hpre Hpost]]]]]]]]]]].
        right. exists b, c, ((k, a) :: pre), a1, post. subst d. simpl.
        repeat split; auto.
        intros b' a' [Heq | Hin] Hne; [| eauto].
        inversion Heq; subst. specialize (Hk Hne). lia.
Qed.

(** C4, as the script has it.  When the reference base has no count and
    some base other than the alternate has a positive count, the anchor
    is a base other than the alternate whose count is the maximum over
    the bases other than the alternate; among the bases that reach this
    maximum it is the one that comes first in the iteration order of the
    counts dictionary (the first one observed in the reads).  The
    reference report becomes "<ref>:0;<substitute>:<count>" and
    "No_Ref_Reads;Calc_rel_to_<substitute>;" is appended to the comment. *)
Theorem substitute_anchor_first_maximum (s : snp) (d : dict allele) :
  dict_get d (ref s) = None ->
  (exists b a, In (b, a) d /\ b <> alt s /\ count a > 0) ->
  exists s' base cnt,
    resolve_anchor s d = (s', (base, cnt)) /\
    cnt > 0 /\
    max_count_not_alt (alt s) d base cnt /\
    first_among_ties (alt s) d base cnt /\
    report_ref s' = (ref s +++ ":0") +++ ";" +++ base +++ ":" +++ str_int cnt /\
    report_comment s'
    = report_comment s +++ "No_Ref_Reads;Calc_rel_to_" +++ base +++ ";".
Proof.
  intros Href [b1 [a1 [Hin1 [Hne1 Hpos1]]]].
  unfold resolve_anchor. rewrite Href.
  destruct (scan_substitute_spec (alt s) d (ref s) 0) as [[_ Hall] | Hex].
  { specialize (Hall _ _ Hin1 Hne1). lia. }
  destruct Hex as [b [c [pre [a [post [Hs [Hc [Hb [Hd [Ha [Hpre Hpost]]]]]]]]]]].
  rewrite Hs.
  assert (Hbref : String.eqb b (ref s) = false).
  { apply String.eqb_neq. intros Heq. subst b.
    apply dict_get_None_keys in Href. apply Href. subst d.
    unfold dict_keys. rewrite map_app. apply in_or_app. right. simpl. auto. }
  rewrite Hbref. simpl negb. cbv iota.
  eexists. exists b, c. split; [reflexivity|].
  split; [lia|]. split; [| split].
  - unfold max_count_not_alt. split; [| split].
    + exists a. split; [| exact Ha]. subst d. apply in_or_app. right.
      left. reflexivity.
    + exact Hb.
    + intros b' a' Hin Hne. subst d. apply in_app_or in Hin.
      destruct Hin as [Hin | [Heq | Hin]].
      * specialize (Hpre _ _ Hin Hne). lia.
      * inversion Heq; subst. lia.
      * eauto.
  - unfold first_among_ties. exists pre, a, post. auto.
  - split; reflexivity.
Qed.

(** ** Per-site results *)

Section SiteProperties.

Variable binom_test : Z -> Z -> Q.
Variable str_float : Q -> string.

Lemma run_tests_In (b : string) (c : Z) (d : dict allele) (k : string)
      (a : allele) :
  In (k, a) (run_tests binom_test b c d) ->
  In (k, a) d \/ exists x n, pvalue a = Some (binom_test x n).
Proof.
  unfold run_tests. intros H. apply in_map_iff in H.
  destruct H as [[k0 a0] [Heq Hin]].
  destruct (String.eqb k0 b); inversion Heq; subst.
  - left. exact Hin.
  - right. simpl. eauto.
Qed.

Lemma test_alleles_dict (s : snp) (d : dict allele) (anchor : string * Z)
      (nq : Z) :
  snd (fst (test_alleles binom_test s d anchor nq)) = d \/
  snd (fst (test_alleles binom_test s d anchor nq))
  = run_tests binom_test (fst anchor) (snd anchor) d.
Proof.
  unfold test_alleles. destruct anchor as [b c].
  destruct (String.eqb b (ref s) && negb (dict_mem d (ref s))); simpl; auto.
  destruct (Z.of_nat (List.length d) <=? 1); simpl; auto.
Qed.

Lemma same_core_refl (s : snp) : same_core s s.
Proof. unfold same_core. tauto. Qed.

Lemma same_core_trans (s1 s2 s3 : snp) :
  same_core s1 s2 -> same_core s2 s3 -> same_core s1 s3.
Proof. unfold same_core. intuition congruence. Qed.

Lemma resolve_anchor_core (s : snp) (d : dict allele) :
  same_core s (fst (resolve_anchor s d)).
Proof.
  unfold resolve_anchor.
  destruct (dict_get d (ref s)); simpl; [unfold same_core; simpl; tauto|].
  destruct (scan_substitute (alt s) d (ref s, 0)) as [b c]. simpl.
  destruct (negb (String.eqb b (ref s))); unfold same_core; simpl; tauto.
Qed.

Lemma test_alleles_core (s : snp) (d : dict allele) (anchor : string * Z)
      (nq : Z) :
  same_core s (fst (fst (test_alleles binom_test s d anchor nq))).
Proof.
  unfold test_alleles. destruct anchor as [b c].
  destruct (String.eqb b (ref s) && negb (dict_mem d (ref s))); simpl.
  - destruct (dict_get d (alt s)); unfold same_core; simpl; tauto.
  - destruct (Z.of_nat (List.length d) <=? 1); unfold same_core; simpl; tauto.
Qed.

Lemma report_alt_step_core (s s' : snp) (d : dict allele) (nq nq' : Z) :
  report_alt_step str_float s d nq = Ok (s', nq') -> same_core s s'.
Proof.
  unfold report_alt_step. destruct (dict_get d (alt s)) as [a|].
  - intros H. inv_bind H. inversion H; subst. unfold same_core; simpl; tauto.
  - intros H. inversion H; subst. unfold same_core; simpl; tauto.
Qed.

Lemma report_other_core (b : string) (d : dict allele) :
  forall s s', foldM (report_other_step str_float b) d s = Ok s' ->
               same_core s s'.
Proof.
  induction d as [|[k a] d IH]; simpl; intros s s' H.
  - inversion H; subst. apply same_core_refl.
  - inv_bind H. apply (same_core_trans _ x); [| apply IH; exact H].
    unfold report_other_step in Hx.
    destruct (negb (String.eqb k b) && negb (String.eqb k (alt s))).
    + inv_bind Hx. inversion Hx; subst. unfold same_core; simpl; tauto.
    + inversion Hx; subst. apply same_core_refl.
Qed.

(** What a site with sufficient reads looks like after stage 5. *)
Lemma process_site_sufficient (s s' : snp) (nq nq' : Z) :
  process_site binom_test str_float s nq = Ok (s', nq') ->
  flag_sufficient_reads s = true ->
  same_core s s' /\
  exists rs d b c,
    reads s = Some rs /\ count_alleles (pos s) rs = Ok d /\
    (allelic_dict s' = Some d \/
     allelic_dict s' = Some (run_tests binom_test b c d)).
Proof.
  unfold process_site. simpl. intros H Hf. rewrite Hf in H. simpl in H.
  inv_bind H. inv_bind H.
  destruct (resolve_anchor _ x0) as [s1 anchor] eqn:Ea.
  destruct (test_alleles _ s1 x0 anchor nq) as [[s2 d2] nq2] eqn:Et.
  inv_bind H. destruct x1 as [s3 nq3]. inv_bind H.
  inversion H; subst. clear H.
  split.
  - pose proof (resolve_anchor_core
                  (set_report_other
                     (set_report_alt (set_report_ref (set_comment s "") "") "")
                     "") x0) as H1.
    rewrite Ea in H1. simpl in H1.
    pose proof (test_alleles_core s1 x0 anchor nq) as H2.
    rewrite Et in H2. simpl in H2.
    pose proof (report_alt_step_core _ _ _ _ _ Hx1) as H3.
    pose proof (report_other_core _ _ _ _ Hx2) as H4.
    unfold same_core in *. simpl in *. intuition congruence.
  - destruct (reads s) as [rs|] eqn:Er; inversion Hx; subst.
    exists x, x0, (fst anchor), (snd anchor). simpl.
    split; [reflexivity|]. split; [exact Hx0|].
    pose proof (test_alleles_dict s1 x0 anchor nq) as Hd.
    rewrite Et in Hd. simpl in Hd. destruct Hd as [-> | ->]; auto.
Qed.

Lemma process_site_insufficient (s : snp) (nq : Z) :
  flag_sufficient_reads s = false ->
  exists s',
    process_site binom_test str_float s nq = Ok (s', nq + 1) /\
    same_core s s' /\ reads s' = reads s /\
    allelic_dict s' = allelic_dict s /\
    report_ref s' = ".:." /\ report_alt s' = ".:.:." /\
    report_other s' = ".:.:." /\
    report_comment s' = "Insufficient_Total_Reads;".
Proof.
  intros Hf. unfold process_site. simpl. rewrite Hf. simpl.
  eexists. split; [reflexivity|].
  unfold same_core. simpl. tauto.
Qed.

Lemma process_site_pvalues (s s' : snp) (nq nq' : Z) :
  process_site binom_test str_float s nq = Ok (s', nq') ->
  flag_sufficient_reads s' = true ->
  forall a p, alt_entry s' = Ok a -> pvalue a = Some p ->
              exists x n, p = binom_test x n.
Proof.
  intros H Hf' a p Ha Hp.
  destruct (flag_sufficient_reads s) eqn:Hf.
  - destruct (process_site_sufficient _ _ _ _ H Hf)
      as [_ [rs [d [b [c [Hr [Hc Hd]]]]]]].
    unfold alt_entry, dict_lookup in Ha.
    assert (Hnone : forall k a0, In (k, a0) d -> pvalue a0 = None).
    { apply (count_alleles_no_pvalue _ _ _ _ Hc). simpl. tauto. }
    destruct Hd as [Hd | Hd]; rewrite Hd in Ha; simpl in Ha;
      destruct (dict_get _ (alt s')) as [a0|] eqn:Eg; inversion Ha; subst a0;
      apply dict_get_In in Eg.
    + rewrite (Hnone _ _ Eg) in Hp. discriminate.
    + apply run_tests_In in Eg. destruct Eg as [Eg | [x [n Hx]]].
      * rewrite (Hnone _ _ Eg) in Hp. discriminate.
      * rewrite Hx in Hp. inversion Hp. eauto.
  - destruct (process_site_insufficient s nq Hf) as [s0 [H0 [Hc _]]].
    rewrite H0 in H. inversion H; subst.
    unfold same_core in Hc. intuition congruence.
Qed.

Lemma process_sites_In (snp_dict : dict snp) :
  forall nq d3 nq', process_sites binom_test str_float snp_dict nq
                    = Ok (d3, nq') ->
  forall key s', In (key, s') d3 ->
    exists s n n', In (key, s) snp_dict /\
                   process_site binom_test str_float s n = Ok (s', n').
Proof.
  induction snp_dict as [|[k s] rest IH]; simpl; intros nq d3 nq' H key s' Hin.
  - inversion H; subst. destruct Hin.
  - inv_bind H. destruct x as [s1 nq1]. inv_bind H. destruct x as [rest' nq2].
    inversion H; subst. destruct Hin as [Heq | Hin].
    + inversion Heq; subst. exists s, nq, nq1. auto.
    + destruct (IH _ _ _ Hx0 _ _ Hin) as [s0 [n [n' [H1 H2]]]].
      exists s0, n, n'. auto.
Qed.

(** C8. After the Benjamini-Hochberg step over the pool collected from
    the tested sites, every site of the pool carries a q-value, and that
    q-value is at least the site's p-value; the pool keeps its keys.  The
    binomial test is assumed to return a probability. *)
Theorem qvalue_ge_pvalue
        (snp_dict d3 : dict snp) (nq nq' : Z) (pool : dict valid_test) :
  (forall x n, (0 <= binom_test x n)%Q /\ (binom_test x n <= 1)%Q) ->
  process_sites binom_test str_float snp_dict nq = Ok (d3, nq') ->
  collect_valid_tests d3 = Ok pool ->
  exists pool',
    fdr_stage pool = Ok pool' /\
    dict_keys pool' = dict_keys pool /\
    forall key v, dict_get pool' key = Some v ->
      exists q v0, dict_get pool key = Some v0 /\
                   vt_pvalue v = vt_pvalue v0 /\
                   vt_qvalue v = Some q /\ (vt_pvalue v <= q)%Q.
Proof.
  intros Hbt Hproc Hcol. unfold collect_valid_tests in Hcol.
  assert (Hnd : NoDup (dict_keys pool)).
  { apply (collect_NoDup _ _ _ Hcol). constructor. }
  exists (with_qvalues pool (fdr_bh (map (fun e => vt_pvalue (snd e)) pool))).
  split; [apply fdr_stage_exact; exact Hnd|].
  split.
  { pose proof (fdr_stage_exact pool Hnd) as He. unfold fdr_stage in He.
    apply assign_qvalues_keys in He. exact He. }
  assert (Hrange : Forall (fun e => 0 <= vt_pvalue (snd e)
                                    /\ vt_pvalue (snd e) <= 1)%Q pool).
  { apply Forall_forall. intros [key v] Hin. simpl.
    destruct (collect_values _ _ _ Hcol _ _ Hin)
      as [[] | [s [a [Hs [Hv [Ha [Hp _]]]]]]].
    apply is_valid_test_true_iff in Hv. destruct Hv as [Hf _].
    destruct (process_sites_In _ _ _ _ Hproc _ _ Hs)
      as [s0 [n [n' [_ Hps]]]].
    destruct (process_site_pvalues _ _ _ _ Hps Hf _ _ Ha Hp) as [x [m Hxm]].
    rewrite Hxm.
    apply Hbt. }
  intros key v Hget. apply dict_get_In in Hget.
  destruct (with_qvalues_ge pool Hrange key v Hget) as [q [Hq [Hle Hin]]].
  apply in_map_iff in Hin. destruct Hin as [[k v0] [Heq Hin]].
  simpl in Heq. inversion Heq as [[Hk Hpv]]. subst k.
  exists q, v0. split; [apply In_dict_get; assumption|].
  split; [congruence|]. split; [exact Hq|].
  first [exact Hle | rewrite Hpv; exact Hle].
Qed.

(** Where the collection of the pool does not raise, the FDR step
    succeeds, and a site is in the pool exactly when its coverage flag is
    set, its alternate base has a p-value, the count of the alternate base
    is positive and its comment is empty; the output line of every site
    outside the pool carries "." in the p-value and in the q-value
    column. *)
Lemma collected_pool_membership (snp_dict : dict snp) (pool : dict valid_test) :
  NoDup (dict_keys snp_dict) ->
  collect_valid_tests snp_dict = Ok pool ->
  exists pool',
    fdr_stage pool = Ok pool' /\
    forall key s, In (key, s) snp_dict ->
      (is_valid_test s = Ok true <-> eligible s) /\
      (dict_mem pool' key = true <-> eligible s) /\
      (dict_mem pool' key = false ->
       output_line str_float pool' key s
       = Ok (leading_columns s +++ (tab +++ "." +++ tab +++ ".")
               +++ trailing_columns s)).
Proof.
  intros Hnd Hcol. unfold collect_valid_tests in Hcol.
  assert (Hndp : NoDup (dict_keys pool)).
  { apply (collect_NoDup _ _ _ Hcol). constructor. }
  eexists. split; [apply fdr_stage_exact; exact Hndp|].
  intros key s Hin.
  split; [apply is_valid_test_true_iff|]. split.
  - rewrite (fdr_stage_mem pool _ key (fdr_stage_exact pool Hndp)).
    rewrite (collect_mem _ _ _ Hcol key). split.
    + intros [Hm | [s' [Hin' Hv]]]; [discriminate|].
      rewrite (In_same_key _ _ _ _ Hnd Hin Hin').
      apply is_valid_test_true_iff. exact Hv.
    + intros He. right. exists s. split; [exact Hin|].
      apply is_valid_test_true_iff. exact He.
  - intros Hm. apply output_line_outside_pool. exact Hm.
Qed.

(** *** A site that shows the reference base only *)

Lemma count_alleles_single_base (snp_pos : Z) (b : string) (rs : list read) :
  (forall r, In r rs -> base_at snp_pos r = Some b) ->
  forall k, foldM (count_read snp_pos) rs [(b, mkAllele k None)]
            = Ok [(b, mkAllele (k + Z.of_nat (List.length rs)) None)].
Proof.
  induction rs as [|r rs IH]; intros Hall k.
  - simpl. rewrite Z.add_0_r. reflexivity.
  - simpl foldM. unfold count_read at 1.
    pose proof (Hall r (or_introl eq_refl)) as Hr. unfold base_at in Hr.
    rewrite Hr. unfold bind, count_base. simpl dict_get.
    rewrite String.eqb_refl. simpl dict_set. rewrite String.eqb_refl.
    simpl count. simpl pvalue.
    rewrite IH by (intros r' Hin; apply Hall; right; exact Hin).
    replace (k + Z.of_nat (List.length (r :: rs)))
      with (k + 1 + Z.of_nat (List.length rs))
      by (change (List.length (r :: rs)) with (S (List.length rs)); lia).
    reflexivity.
Qed.

Lemma count_alleles_only_base (snp_pos : Z) (b : string) (rs : list read) :
  rs <> [] ->
  (forall r, In r rs -> base_at snp_pos r = Some b) ->
  count_alleles snp_pos rs
  = Ok [(b, mkAllele (Z.of_nat (List.length rs)) None)].
Proof.
  destruct rs as [|r rs]; [congruence|]. intros _ Hall.
  unfold count_alleles. simpl foldM. unfold count_read at 1.
  pose proof (Hall r (or_introl eq_refl)) as Hr. unfold base_at in Hr.
  rewrite Hr. unfold bind, count_base. simpl dict_get. simpl dict_set.
  cbv iota.
  rewrite count_alleles_single_base
    by (intros r' Hin; apply Hall; right; exact Hin).
  replace (Z.of_nat (List.length (r :: rs)))
    with (1 + Z.of_nat (List.length rs))
    by (change (List.length (r :: rs)) with (S (List.length rs)); lia).
  reflexivity.
Qed.

(** C6, as the script has it.  For a site with sufficient coverage whose
    reads all show the reference base, the single-allele guard fires and
    no test is run, and then the alternate report is written for the
    missing alternate base: the reference report is ".:.", the alternate
    report is "<alt>:0:.", the comment is
    "Insufficient_Alleles;No_Alt_Reads;", and the only entry of the
    counts dictionary is the reference base without a p-value. *)
Theorem single_reference_allele_report (s : snp) (rs : list read) (nq : Z) :
  flag_sufficient_reads s = true ->
  reads s = Some rs ->
  rs <> [] ->
  (forall r, In r rs -> base_at (pos s) r = Some (ref s)) ->
  alt s <> ref s ->
  exists s',
    process_site binom_test str_float s nq = Ok (s', nq + 2) /\
    report_ref s' = ".:." /\
    report_alt s' = alt s +++ ":0:." /\
    report_comment s' = "Insufficient_Alleles;No_Alt_Reads;" /\
    report_other s' = "" /\
    allelic_dict s'
    = Some [(ref s, mkAllele (Z.of_nat (List.length rs)) None)].
Proof.
  intros Hf Hr Hne Hall Halt.
  assert (Heqb : String.eqb (ref s) (alt s) = false).
  { apply String.eqb_neq. congruence. }
  unfold process_site. simpl flag_sufficient_reads. rewrite Hf.
  simpl negb. cbv iota. simpl reads. rewrite Hr. simpl bind at 1.
  simpl pos. rewrite (count_alleles_only_base _ _ _ Hne Hall).
  unfold bind at 1.
  unfold resolve_anchor. simpl ref. simpl dict_get.
  rewrite String.eqb_refl. simpl count.
  unfold test_alleles. simpl ref. rewrite String.eqb_refl.
  unfold dict_mem. simpl dict_get. rewrite String.eqb_refl.
  simpl andb. cbv iota. simpl List.length.
  change (Z.of_nat 1 <=? 1) with true. cbv beta iota.
  unfold report_alt_step. simpl alt. simpl dict_get. rewrite Heqb.
  unfold bind at 1. simpl fst. simpl foldM.
  unfold report_other_step. rewrite String.eqb_refl. simpl andb. cbv iota.
  unfold bind. eexists. split; [replace (nq + 2) with (nq + 1 + 1) by lia;
                                reflexivity|].
  repeat split.
Qed.

(** *** Sites whose alternate base was not observed *)

Lemma run_tests_get_None (b : string) (c : Z) (d : dict allele) (k : string) :
  dict_get d k = None -> dict_get (run_tests binom_test b c d) k = None.
Proof.
  unfold run_tests. induction d as [|[e a] d IH]; simpl; [reflexivity|].
  destruct (String.eqb e k) eqn:E; [discriminate|].
  intros H. destruct (String.eqb e b); simpl; rewrite E; auto.
Qed.

(** Whenever stage 5 completes for a site with sufficient reads none of
    which shows the alternate base, evaluating the condition of 6.1 on
    the site raises [KeyError]. *)
Lemma missing_alternate_raises (s s' : snp) (nq nq' : Z) (rs : list read)
      (d : dict allele) :
  process_site binom_test str_float s nq = Ok (s', nq') ->
  flag_sufficient_reads s = true ->
  reads s = Some rs ->
  count_alleles (pos s) rs = Ok d ->
  dict_get d (alt s) = None ->
  is_valid_test s' = Raise (KeyError (alt s)).
Proof.
  intros Hp Hf Hr Hc Hnone.
  destruct (process_site_sufficient _ _ _ _ Hp Hf)
    as [Hcore [rs' [d' [b [c [Hr' [Hc' Hd]]]]]]].
  rewrite Hr in Hr'. inversion Hr'; subst rs'.
  rewrite Hc in Hc'. inversion Hc'; subst d'.
  unfold same_core in Hcore.
  destruct Hcore as [_ [_ [_ [_ [Halt Hflag]]]]].
  unfold is_valid_test, alt_entry, dict_lookup.
  rewrite Hflag, Hf, Halt. simpl negb. cbv iota.
  destruct Hd as [Hd | Hd]; rewrite Hd; unfold bind.
  - rewrite Hnone. reflexivity.
  - rewrite (run_tests_get_None _ _ _ _ Hnone). reflexivity.
Qed.

End SiteProperties.

(** ** Sorting by p-value *)

Lemma string_compare_refl (a : string) : String.compare a a = Eq.
Proof.
  pose proof (String.compare_antisym a a) as H.
  destruct (String.compare a a); simpl in H; congruence.
Qed.

Lemma string_leb_iff (a b : string) :
  String.leb a b = true <-> a = b \/ String.compare a b = Lt.
Proof.
  unfold String.leb. split.
  - destruct (String.compare a b) eqn:E; try discriminate; auto.
    left. apply String.compare_eq_iff. exact E.
  - intros [-> | H].
    + rewrite string_compare_refl. reflexivity.
    + rewrite H. reflexivity.
Qed.

Lemma string_leb_trans (a b c : string) :
  String.leb a b = true -> String.leb b c = true -> String.leb a c = true.
Proof.
  rewrite !string_leb_iff. intros [-> | Hab] [-> | Hbc]; auto.
  right. apply OrderedTypeEx.String_as_OT.cmp_lt.
  apply OrderedTypeEx.String_as_OT.cmp_lt in Hab, Hbc.
  eapply OrderedTypeEx.String_as_OT.lt_trans; eassumption.
Qed.

Lemma tuple_lt_false_le (x y : Q * string) :
  tuple_lt y x = false -> tuple_le x y.
Proof.
  unfold tuple_lt, tuple_le.
  destruct (Qeq_bool (fst y) (fst x)) eqn:E.
  - apply Qeq_bool_iff in E. intros H. right. split; [symmetry; exact E|].
    unfold String.ltb in H. unfold String.leb.
    rewrite String.compare_antisym.
    destruct (String.compare (snd y) (snd x)); simpl; congruence.
  - apply Qeq_bool_neq in E. intros H. apply negb_false_iff in H.
    apply Qle_bool_iff in H. apply Qle_lteq in H.
    destruct H as [H | H]; [left; exact H|]. exfalso. apply E. symmetry.
    exact H.
Qed.

Lemma tuple_lt_true_le (x y : Q * string) :
  tuple_lt y x = true -> tuple_le y x.
Proof.
  unfold tuple_lt, tuple_le.
  destruct (Qeq_bool (fst y) (fst x)) eqn:E.
  - apply Qeq_bool_iff in E. intros H. right. split; [exact E|].
    unfold String.ltb in H. unfold String.leb.
    destruct (String.compare (snd y) (snd x)); congruence.
  - intros H. apply negb_true_iff in H. left.
    apply Qnot_le_lt. intros Hle. apply Qle_bool_iff in Hle. congruence.
Qed.

Lemma tuple_le_trans (x y z : Q * string) :
  tuple_le x y -> tuple_le y z -> tuple_le x z.
Proof.
  unfold tuple_le. intros [Hxy | [Hxy Lxy]] [Hyz | [Hyz Lyz]].
  - left. eapply Qlt_trans; eassumption.
  - left. rewrite <- Hyz. exact Hxy.
  - left. rewrite Hxy. exact Hyz.
  - right. split; [rewrite Hxy; exact Hyz|].
    eapply string_leb_trans; eassumption.
Qed.

Lemma insert_sorted_perm (x : Q * string) (l : list (Q * string)) :
  Permutation (insert_sorted x l) (x :: l).
Proof.
  induction l as [|y l IH]; simpl; [reflexivity|].
  destruct (tuple_lt y x); [| reflexivity].
  rewrite IH. apply perm_swap.
Qed.

Lemma py_sorted_perm (l : list (Q * string)) : Permutation (py_sorted l) l.
Proof.
  induction l as [|x l IH]; simpl; [reflexivity|].
  rewrite insert_sorted_perm. apply perm_skip. exact IH.
Qed.

Lemma insert_sorted_sorted (x : Q * string) (l : list (Q * string)) :
  Sorted tuple_le l -> Sorted tuple_le (insert_sorted x l).
Proof.
  induction l as [|y l IH]; simpl; intros Hs.
  - repeat constructor.
  - destruct (tuple_lt y x) eqn:E.
    + inversion Hs as [|? ? Hs' Hhd]; subst.
      constructor; [apply IH; exact Hs'|].
      destruct l as [|z l]; simpl.
      * constructor. apply tuple_lt_true_le. exact E.
      * destruct (tuple_lt z x); constructor.
        -- inversion Hhd; assumption.
        -- apply tuple_lt_true_le. exact E.
    + constructor; [exact Hs|]. constructor. apply tuple_lt_false_le. exact E.
Qed.

Lemma py_sorted_sorted (l : list (Q * string)) :
  StronglySorted tuple_le (py_sorted l).
Proof.
  apply Sorted_StronglySorted.
  - intros x y z. apply tuple_le_trans.
  - induction l as [|x l IH]; simpl; [constructor|].
    apply insert_sorted_sorted. exact IH.
Qed.

Lemma In_combine_map {A B : Type} (f : A -> B) (l : list A) :
  forall v k, In (v, k) (combine (map f l) l) -> v = f k.
Proof.
  induction l as [|a l IH]; simpl; intros v k H; [tauto|].
  destruct H as [H | H]; [inversion H; reflexivity | auto].
Qed.

Lemma snd_combine_map {A B : Type} (f : A -> B) (l : list A) :
  map snd (combine (map f l) l) = l.
Proof. induction l as [|a l IH]; simpl; congruence. Qed.

(** C5, as the script has it.  With [--sortby pvalue] the printed order is
    a rearrangement of the sites in which every site comes with its sort
    value (its p-value when it is in the pool, 1 otherwise) and a site
    comes before another only if its value is smaller, or the values are
    equal and its key is not larger as a string: ties, the block of sites
    outside the pool included, are in ascending key order. *)
Theorem sort_by_pvalue_order
        (snp_dict : dict snp) (valid_tests_dict : dict valid_test) :
  let sort_keys := dict_keys snp_dict in
  let tuples :=
    py_sorted (combine (map (sort_value valid_tests_dict) sort_keys) sort_keys) in
  sort_by_pvalue snp_dict valid_tests_dict = map snd tuples /\
  Permutation (sort_by_pvalue snp_dict valid_tests_dict) sort_keys /\
  (forall v k, In (v, k) tuples -> v = sort_value valid_tests_dict k) /\
  StronglySorted tuple_le tuples /\
  (forall k, dict_mem valid_tests_dict k = false ->
             sort_value valid_tests_dict k = 1%Q) /\
  (forall k v, dict_get valid_tests_dict k = Some v ->
               sort_value valid_tests_dict k = vt_pvalue v).
Proof.
  intros sort_keys tuples.
  split; [reflexivity|]. split; [| split; [| split; [| split]]].
  - unfold sort_by_pvalue. fold sort_keys.
    apply Permutation_trans
      with (map snd (combine (map (sort_value valid_tests_dict) sort_keys)
                             sort_keys)).
    + apply Permutation_map. apply py_sorted_perm.
    + rewrite snd_combine_map. reflexivity.
  - intros v k Hin. unfold tuples in Hin.
    apply (Permutation_in _ (py_sorted_perm _)) in Hin.
    apply In_combine_map in Hin. exact Hin.
  - apply py_sorted_sorted.
  - intros k Hk. unfold sort_value, dict_mem in *.
    destruct (dict_get valid_tests_dict k); [discriminate | reflexivity].
  - intros k v Hk. unfold sort_value. rewrite Hk. reflexivity.
Qed.

(** ** The exact binomial test returns a probability *)

Lemma choose_nonneg (n : nat) : forall k, 0 <= choose n k.
Proof.
  induction n as [|n IH]; intros [|k]; simpl; try lia.
  pose proof (IH k). pose proof (IH (S k)). lia.
Qed.

Lemma binom_pmf_nonneg (n k : nat) : (0 <= binom_pmf n k)%Q.
Proof.
  unfold binom_pmf. apply Qle_shift_div_l.
  - change 0%Q with (inject_Z 0). rewrite <- Zlt_Qlt.
    apply Z.pow_pos_nonneg; lia.
  - rewrite Qmult_0_l. change 0%Q with (inject_Z 0). rewrite <- Zle_Qle.
    apply choose_nonneg.
Qed.

Lemma sum_pmf_nonneg (n : nat) (sel : nat -> bool) : (0 <= sum_pmf n sel)%Q.
Proof.
  unfold sum_pmf. induction (seq 0 (S n)) as [|k l IH]; simpl.
  - apply Qle_refl.
  - destruct (sel k); [| exact IH].
    pose proof (binom_pmf_nonneg n k). lra.
Qed.

Lemma binom_test_exact_range (x n : Z) :
  (0 <= binom_test_exact x n)%Q /\ (binom_test_exact x n <= 1)%Q.
Proof.
  unfold binom_test_exact. rewrite Qred_correct. split.
  - apply Q.min_glb; [discriminate|].
    destruct (2 * x =? n); [discriminate|].
    destruct (2 * x <? n).
    + pose proof (sum_pmf_nonneg (Z.to_nat n) (fun k => Z.of_nat k <=? x)).
      match goal with
      | |- (0 <= _ + binom_sf ?m ?y)%Q =>
          pose proof (sum_pmf_nonneg m (fun k => y <? Z.of_nat k))
      end.
      unfold binom_cdf, binom_sf in *. lra.
    + match goal with
      | |- (0 <= binom_cdf ?m ?y + binom_sf ?m' ?y')%Q =>
          pose proof (sum_pmf_nonneg m (fun k => Z.of_nat k <=? y));
          pose proof (sum_pmf_nonneg m' (fun k => y' <? Z.of_nat k))
      end.
      unfold binom_cdf, binom_sf in *. lra.
  - apply Q.le_min_l.
Qed.

(** ** Runs on sample input *)

(** C1. The core does not complete on every input.  A single site with
    sufficient coverage whose reads all show the reference base makes the
    run end in [KeyError] on the alternate base when the FDR pool is
    collected, and a site whose reads all show the alternate base makes it
    end in [KeyError] on the missing p-value when the alternate report is
    assembled; no line is printed, whatever the sort option. *)
Theorem run_core_raises_without_both_alleles :
  forall args_sortby : arg_value,
    run_core int_of_digits binom_test_exact show_Q sample_cfg args_sortby
             [bam_ref_only] [("rs1", site_rs1)]
    = mkOutcome [] (Some (KeyError "G"))
    /\
    run_core int_of_digits binom_test_exact show_Q sample_cfg args_sortby
             [bam_alt_only] [("rs1", site_rs1)]
    = mkOutcome [] (Some (KeyError "pvalue")).
Proof. intros args_sortby. split; vm_compute; reflexivity. Qed.

(** A run with [--sortby pvalue] in which every covered site shows the
    alternate base and one more base completes; [rs4], tested against a
    substitute anchor, has a p-value in its counts field and "." in the
    p-value and q-value columns. *)
Example run_core_sample :
  run_core int_of_digits binom_test_exact show_Q sample_cfg
           (ArgList ["pvalue"]) [bam_mixed] sample_sites
  = mkOutcome
       ["# Total SNPs: 4  Queried: 3  Not Queried: 1";
        "chr1" +++ tab +++ "100" +++ tab +++ "101" +++ tab +++ "rs1" +++ tab
          +++ "A" +++ tab +++ "G" +++ tab +++ "5/8" +++ tab +++ "1/1" +++ tab
          +++ "A:3:G:1:5/8" +++ tab +++ ".";
        "chr2" +++ tab +++ "10" +++ tab +++ "11" +++ tab +++ "rs2" +++ tab
          +++ "A" +++ tab +++ "G" +++ tab +++ "1/1" +++ tab +++ "1/1" +++ tab
          +++ "A:1:G:2:1/1" +++ tab +++ ".";
        "chr3" +++ tab +++ "5" +++ tab +++ "6" +++ tab +++ "rs3" +++ tab
          +++ "C" +++ tab +++ "T" +++ tab +++ "." +++ tab +++ "." +++ tab
          +++ ".:.:.:.:.:.:.:." +++ tab +++ "Insufficient_Total_Reads;";
        "chr4" +++ tab +++ "7" +++ tab +++ "8" +++ tab +++ "rs4" +++ tab
          +++ "A" +++ tab +++ "G" +++ tab +++ "." +++ tab +++ "." +++ tab
          +++ "A:0;T:2:G:1:1/1" +++ tab +++ "No_Ref_Reads;Calc_rel_to_T;"]
       None.
Proof. vm_compute. reflexivity. Qed.

(** The same run without a sort option prints the summary line only. *)
Example run_core_sample_default :
  run_core int_of_digits binom_test_exact show_Q sample_cfg
           (ArgStr "pvalue") [bam_mixed] sample_sites
  = mkOutcome ["# Total SNPs: 4  Queried: 3  Not Queried: 1"] None.
Proof. vm_compute. reflexivity. Qed.

(** C4, as claimed: with "T" and "C" both seen once the script anchors on
    "T", the base it met first, although "C" has the same count and comes
    before "T" as a string. *)
Lemma substitute_anchor_not_lexicographic :
  count_alleles 100 tie_reads = Ok tie_dict /\
  snd (resolve_anchor site_rs1 tie_dict) = ("T", 1) /\
  ~ lexicographic_among_ties (alt site_rs1) tie_dict "T" 1.
Proof.
  split; [vm_compute; reflexivity|]. split; [vm_compute; reflexivity|].
  intros H.
  specialize (H "C" (mkAllele 1 None)).
  assert (Hin : In ("C", mkAllele 1 None) tie_dict) by (simpl; auto).
  specialize (H Hin ltac:(simpl; discriminate) eq_refl).
  vm_compute in H. discriminate.
Qed.

Lemma substitute_anchor_first_maximum_witness :
  exists s' base cnt,
    resolve_anchor site_rs1 tie_dict = (s', (base, cnt)) /\
    cnt > 0 /\
    max_count_not_alt "G" tie_dict base cnt /\
    first_among_ties "G" tie_dict base cnt /\
    report_ref s' = ("A" +++ ":0") +++ ";" +++ base +++ ":" +++ str_int cnt /\
    report_comment s' = "" +++ "No_Ref_Reads;Calc_rel_to_" +++ base +++ ";".
Proof.
  apply (substitute_anchor_first_maximum site_rs1 tie_dict).
  - reflexivity.
  - exists "T", (mkAllele 1 None). simpl. split; [auto|].
    split; [discriminate | lia].
Defined.

(** C5, as claimed: two sites outside the pool both sort with value 1; the
    script prints them in key order, not in input order. *)
Lemma sort_by_pvalue_not_input_order :
  dict_keys uncovered_sites = ["rs2"; "rs1"] /\
  collect_valid_tests uncovered_sites = Ok [] /\
  sort_by_pvalue uncovered_sites [] = ["rs1"; "rs2"] /\
  input_order_on_ties uncovered_sites [] = ["rs2"; "rs1"] /\
  sort_by_pvalue uncovered_sites [] <> input_order_on_ties uncovered_sites [].
Proof.
  repeat split; try (vm_compute; reflexivity).
  vm_compute. discriminate.
Qed.

(** C6, as claimed: after the guard the alternate report and the comment
    are written once more, so the site does not end with ".:.:." and
    "Insufficient_Alleles;". *)
Lemma single_allele_report_overwritten :
  process_site binom_test_exact show_Q ref_only_site 0
  = Ok (ref_only_result, 2) /\
  report_alt ref_only_result = "G:0:." /\
  report_comment ref_only_result = "Insufficient_Alleles;No_Alt_Reads;" /\
  ~ (report_alt ref_only_result = ".:.:." /\
     report_comment ref_only_result = "Insufficient_Alleles;").
Proof.
  split; [vm_compute; reflexivity|]. split; [reflexivity|].
  split; [reflexivity|]. intros [H _]. vm_compute in H. discriminate.
Qed.

Lemma single_reference_allele_report_witness :
  exists s',
    process_site binom_test_exact show_Q ref_only_site 7 = Ok (s', 7 + 2) /\
    report_ref s' = ".:." /\
    report_alt s' = "G" +++ ":0:." /\
    report_comment s' = "Insufficient_Alleles;No_Alt_Reads;" /\
    report_other s' = "" /\
    allelic_dict s' = Some [("A", mkAllele 2 None)].
Proof.
  apply (single_reference_allele_report binom_test_exact show_Q
           ref_only_site [plain_read 100 "A"; plain_read 99 "CA"] 7).
  - reflexivity.
  - reflexivity.
  - discriminate.
  - intros r [<- | [<- | []]]; reflexivity.
  - simpl. discriminate.
Defined.

Lemma sample_processed_NoDup : NoDup (dict_keys sample_processed).
Proof.
  simpl. repeat constructor; simpl; intuition discriminate.
Qed.

Lemma qvalue_ge_pvalue_witness :
  exists pool',
    fdr_stage sample_pool = Ok pool' /\
    dict_keys pool' = dict_keys sample_pool /\
    forall key v, dict_get pool' key = Some v ->
      exists q v0, dict_get sample_pool key = Some v0 /\
                   vt_pvalue v = vt_pvalue v0 /\
                   vt_qvalue v = Some q /\ (vt_pvalue v <= q)%Q.
Proof.
  apply (qvalue_ge_pvalue binom_test_exact show_Q
           sample_gated sample_processed 0 1 sample_pool).
  - exact binom_test_exact_range.
  - vm_compute. reflexivity.
  - vm_compute. reflexivity.
Defined.

(* ================================================================= *)
(** * Further properties *)

(** ** The registry of sites *)

Lemma foldM_app {A S : Type} (body : A -> S -> result S) (l1 l2 : list A) (s : S) :
  foldM body (l1 ++ l2)%list s = bind (foldM body l1 s) (foldM body l2).
Proof.
  revert s. induction l1 as [|x l1 IH]; intros s; simpl; [reflexivity|].
  destruct (body x s) as [s'|e]; simpl; [apply IH | reflexivity].
Qed.

Lemma dict_set_length_le {V : Type} (d : dict V) (k : string) (v : V) :
  (List.length (dict_set d k v) <= S (List.length d))%nat.
Proof.
  induction d as [|[e w] d IH]; simpl; [lia|].
  destruct (String.eqb e k); simpl; lia.
Qed.

Section RegistryProperties.

Variable py_split : string -> list string.
Variable py_int : string -> result Z.

(** The three ways a line can leave the loop body without an exception. *)
Lemma load_line_cases (cfg : config) (line : string) (d d' : dict snp)
      (n n' : Z) :
  load_line py_split py_int cfg line (d, n) = Ok (d', n') ->
  (is_comment_line line = true /\ d' = d /\ n' = n) \/
  (is_comment_line line = false /\
   exists r a,
     index_or_raise (py_split line) (ref_col cfg) = Ok r /\
     index_or_raise (py_split line) (alt_col cfg) = Ok a /\
     ((indel_check r a = true /\ d' = d /\ n' = n + 1) \/
      (indel_check r a = false /\ n' = n /\
       exists k s,
         index_or_raise (py_split line) 3 = Ok k /\
         d' = dict_set d k s /\
         built_from (SNP_FORMAT cfg) py_int (py_split line) r a s))).
Proof.
  unfold load_line.
  destruct (is_comment_line line) eqn:Ec.
  - intros H. inversion H; subst. left. auto.
  - intros H. right. split; [reflexivity|].
    inv_bind H. inv_bind H. exists x, x0.
    split; [exact Hx|]. split; [exact Hx0|].
    destruct (indel_check x x0) eqn:Ei.
    + inversion H; subst. left. auto.
    + right. split; [reflexivity|].
      destruct (SNP_FORMAT cfg) eqn:Ef;
        inv_bind H; inv_bind H; inv_bind H; inv_bind H; inv_bind H;
        inversion H; subst; split; try reflexivity;
        eexists; eexists; (split; [eassumption|]); (split; [reflexivity|]);
        unfold built_from; simpl; repeat (split; [reflexivity|]);
        eexists; eexists; eexists; repeat (split; [eassumption|]);
        repeat split; assumption.
Qed.

(** The loop over the lines keeps the keys of the registry distinct. *)
Lemma load_lines_NoDup (cfg : config) (lines : list string) :
  forall d0 n0 d n,
    foldM (load_line py_split py_int cfg) lines (d0, n0) = Ok (d, n) ->
    NoDup (dict_keys d0) -> NoDup (dict_keys d).
Proof.
  induction lines as [|line lines IH]; intros d0 n0 d n H Hnd.
  - simpl in H. inversion H; subst. exact Hnd.
  - simpl foldM in H. inv_bind H. destruct x as [d1 n1].
    apply load_line_cases in Hx.
    destruct Hx as [[_ [-> ->]] | [_ [r [a [_ [_ Hx]]]]]];
      [exact (IH _ _ _ _ H Hnd)|].
    destruct Hx as [[_ [-> ->]] | [_ [-> [k [s [_ [-> _]]]]]]].
    + exact (IH _ _ _ _ H Hnd).
    + exact (IH _ _ _ _ H (dict_set_NoDup d0 k s Hnd)).
Qed.

(** X1. The registry never holds two entries under one key, the indel
    counter never decreases below zero, and the entries and the counted
    indels together are at most the lines that are not comments. *)
Theorem load_snps_keys_unique (cfg : config) (lines : list string)
        (d : dict snp) (n : Z) :
  load_snps py_split py_int cfg lines = Ok (d, n) ->
  NoDup (dict_keys d) /\ 0 <= n /\
  Z.of_nat (List.length d) + n <= Z.of_nat (List.length (data_lines lines)).
Proof.
  unfold load_snps. intros H.
  split; [eapply load_lines_NoDup; [exact H | constructor]|].
  assert (Hgen : forall lines d0 n0 d n,
             foldM (load_line py_split py_int cfg) lines (d0, n0) = Ok (d, n) ->
             0 <= n0 ->
             0 <= n /\
             Z.of_nat (List.length d) + n
             <= Z.of_nat (List.length d0) + n0
                + Z.of_nat (List.length (data_lines lines))).
  { clear. induction lines as [|line lines IH]; intros d0 n0 d n H Hn.
    - simpl in H. inversion H; subst. simpl. lia.
    - simpl foldM in H. inv_bind H. destruct x as [d1 n1].
      apply load_line_cases in Hx.
      destruct Hx as [[Hc [-> ->]] | [Hc [r [a [_ [_ Hx]]]]]].
      + destruct (IH _ _ _ _ H Hn) as [H2 H3].
        split; [exact H2|].
        unfold data_lines in *. simpl. rewrite Hc. simpl. exact H3.
      + assert (Hdl : List.length (data_lines (line :: lines))
                      = S (List.length (data_lines lines))).
        { unfold data_lines. simpl. rewrite Hc. reflexivity. }
        rewrite Hdl.
        destruct Hx as [[_ [-> ->]] | [_ [-> [k [s [_ [-> _]]]]]]].
        * destruct (IH _ _ _ _ H ltac:(lia)) as [H2 H3].
          split; [exact H2|]. lia.
        * destruct (IH _ _ _ _ H Hn) as [H2 H3].
          split; [exact H2|].
          pose proof (dict_set_length_le d0 k s). lia. }
  destruct (Hgen _ _ _ _ _ H) as [H2 H3]; [lia|].
  split; [exact H2|]. simpl in H3. lia.
Qed.

(** An invariant of the loop over the lines. *)
Lemma load_snps_invariant (cfg : config) (P : string -> snp -> Prop) :
  (forall line r a k s,
      index_or_raise (py_split line) (ref_col cfg) = Ok r ->
      index_or_raise (py_split line) (alt_col cfg) = Ok a ->
      indel_check r a = false ->
      index_or_raise (py_split line) 3 = Ok k ->
      built_from (SNP_FORMAT cfg) py_int (py_split line) r a s ->
      P k s) ->
  forall lines d n,
    load_snps py_split py_int cfg lines = Ok (d, n) ->
    forall k s, In (k, s) d -> P k s.
Proof.
  intros HP. unfold load_snps.
  assert (Hgen : forall lines d0 n0 d n,
             foldM (load_line py_split py_int cfg) lines (d0, n0) = Ok (d, n) ->
             (forall k s, In (k, s) d0 -> P k s) ->
             forall k s, In (k, s) d -> P k s).
  { induction lines as [|line lines IH]; intros d0 n0 d n H H0.
    - simpl in H. inversion H; subst. exact H0.
    - simpl foldM in H. inv_bind H. destruct x as [d1 n1].
      apply (IH _ _ _ _ H).
      apply load_line_cases in Hx.
      destruct Hx as [[_ [-> _]] | [_ [r [a [Hr [Ha Hx]]]]]]; [exact H0|].
      destruct Hx as [[_ [-> _]] | [Hi [_ [k0 [s0 [Hk [-> Hb]]]]]]];
        [exact H0|].
      intros k s Hin. apply In_dict_set in Hin.
      destruct Hin as [Heq | Hin]; [| apply H0; exact Hin].
      inversion Heq; subst. eapply HP; eassumption. }
  intros lines d n H. apply (Hgen _ _ _ _ _ H). intros k s [].
Qed.

(** X2. In bed format every entry of the registry is filed under its own
    id, was built from a line the indel check let through, and has no
    reads yet. *)
Theorem load_snps_bed_key_is_id (cfg : config) (lines : list string)
        (d : dict snp) (n : Z) :
  SNP_FORMAT cfg = bed ->
  load_snps py_split py_int cfg lines = Ok (d, n) ->
  forall k s, In (k, s) d ->
    id s = k /\ indel_check (ref s) (alt s) = false /\ reads s = None.
Proof.
  intros Hf H.
  apply (load_snps_invariant cfg
           (fun k s => id s = k /\ indel_check (ref s) (alt s) = false
                       /\ reads s = None)) with (lines := lines) (n := n);
    [| exact H].
  intros line r a k s _ _ Hi Hk Hb. rewrite Hf in Hb.
  destruct Hb as [Hr [Ha [Hrd [_ [c [p1 [p [_ [_ [_ [_ [_ Hid]]]]]]]]]]]].
  rewrite Hid in Hk. inversion Hk; subst. auto.
Qed.

(** X4. A later line replaces an earlier one with the same key: loading one
    more data line that passes the indel check gives the registry of the
    lines before it with the new site set under its key, so that a lookup
    of the key finds the new site, and when the key was there already the
    order of the keys is unchanged. *)
Theorem load_snps_last_line_wins (cfg : config) (lines : list string)
        (line : string) (d' : dict snp) (n' : Z) :
  load_snps py_split py_int cfg (lines ++ [line])%list = Ok (d', n') ->
  is_comment_line line = false ->
  exists d n r a,
    load_snps py_split py_int cfg lines = Ok (d, n) /\
    index_or_raise (py_split line) (ref_col cfg) = Ok r /\
    index_or_raise (py_split line) (alt_col cfg) = Ok a /\
    (indel_check r a = true -> d' = d /\ n' = n + 1) /\
    (indel_check r a = false ->
     n' = n /\
     exists k s,
       index_or_raise (py_split line) 3 = Ok k /\
       built_from (SNP_FORMAT cfg) py_int (py_split line) r a s /\
       d' = dict_set d k s /\ dict_get d' k = Some s /\
       (dict_mem d k = true -> dict_keys d' = dict_keys d)).
Proof.
  unfold load_snps. rewrite foldM_app. intros H Hc.
  inv_bind H. destruct x as [d n]. simpl foldM in H. inv_bind H.
  inversion H; subst x. clear H.
  apply load_line_cases in Hx0.
  destruct Hx0 as [[Hc' _] | [_ [r [a [Hr [Ha Hx0]]]]]]; [congruence|].
  exists d, n, r, a. split; [exact Hx|]. split; [exact Hr|].
  split; [exact Ha|].
  destruct Hx0 as [[Hi [-> ->]] | [Hi [-> [k [s [Hk [-> Hb]]]]]]].
  - split; [auto | congruence].
  - split; [congruence|]. intros _. split; [reflexivity|].
    exists k, s. split; [exact Hk|]. split; [exact Hb|].
    split; [reflexivity|]. split.
    + rewrite dict_get_set, String.eqb_refl. reflexivity.
    + intros Hm. rewrite dict_set_keys, Hm. reflexivity.
Qed.

End RegistryProperties.

(** ** Filtering and pooling the reads *)

Lemma read_filter_raise (cfg : config) (snp_pos : Z) (r : read) (e : exn) :
  read_filter cfg snp_pos r = Raise e <->
  e = IndexError /\ NM r <= MAX_MISSMATCHES_PER_READ cfg /\
  py_index (query_alignment_qualities r) (snp_pos - reference_start r) = None.
Proof.
  unfold read_filter, index_or_raise.
  destruct (NM r >? MAX_MISSMATCHES_PER_READ cfg) eqn:E.
  - apply Z.gtb_lt in E. split; [discriminate | intros [_ [H _]]; lia].
  - rewrite Z.gtb_ltb in E. apply Z.ltb_ge in E.
    destruct (py_index _ _) as [q|]; simpl.
    + split; [| intros [_ [_ H]]; discriminate].
      destruct (q <? MIN_MAPPING_QUAL_AT_SNP cfg); discriminate.
    + split; [intros H; inversion H; auto | intros [-> _]; reflexivity].
Qed.

(** X5. Filtering the reads of a fetch ends in an exception exactly when
    some fetched read is within the mismatch budget and has no quality at
    offset [pos - reference_start]; the exception is then [IndexError].  A
    read over the budget is skipped before its qualities are looked at, so
    it cannot stop the run. *)
Theorem filter_reads_raises_iff (cfg : config) (snp_pos : Z) (fetched : list read) :
  (forall e, filter_reads cfg snp_pos fetched = Raise e -> e = IndexError) /\
  (filter_reads cfg snp_pos fetched = Raise IndexError <->
   exists r, In r fetched /\ NM r <= MAX_MISSMATCHES_PER_READ cfg /\
             py_index (query_alignment_qualities r)
                      (snp_pos - reference_start r) = None).
Proof.
  induction fetched as [|r rest [IH1 IH2]]; simpl.
  - split; [discriminate|]. split; [discriminate | intros [r [[] _]]].
  - destruct (read_filter cfg snp_pos r) as [keep|e0] eqn:Er; simpl.
    + assert (Hr : ~ (NM r <= MAX_MISSMATCHES_PER_READ cfg /\
                      py_index (query_alignment_qualities r)
                               (snp_pos - reference_start r) = None)).
      { intros [H1 H2].
        assert (Hraise : read_filter cfg snp_pos r = Raise IndexError)
          by (apply read_filter_raise; auto).
        congruence. }
      destruct (filter_reads cfg snp_pos rest) as [ks|e1] eqn:Ef; simpl.
      * split; [discriminate|]. split; [discriminate|].
        intros [r' [[<- | Hin] Hc]]; [tauto|].
        assert (Hex : Raise (A := list read) IndexError = Raise IndexError)
          by reflexivity.
        destruct IH2 as [_ IH2]. specialize (IH2 (ex_intro _ r' (conj Hin Hc))).
        discriminate.
      * split.
        -- intros e H. inversion H; subst. apply IH1. reflexivity.
        -- split.
           ++ intros H. inversion H; subst.
              destruct IH2 as [IH2 _]. destruct (IH2 eq_refl) as [r' [Hin Hc]].
              exists r'. split; [right; exact Hin | exact Hc].
           ++ intros _. f_equal. apply IH1. reflexivity.
    + apply read_filter_raise in Er. destruct Er as [-> [H1 H2]].
      split; [intros e H; inversion H; reflexivity|].
      split; [| reflexivity]. intros _. exists r. auto.
Qed.

Lemma add_reads_ok (cfg : config) (b : bamfile) (s s' : snp) :
  add_reads cfg b s = Ok s' ->
  same_but_reads s s' /\
  reads s' = Some ((match reads s with Some old => old | None => [] end)
                     ++ kept_from cfg s b)%list.
Proof.
  unfold add_reads, kept_from. intros H. inv_bind H.
  apply filter_reads_ok in Hx. subst x.
  destruct (reads s) as [old|]; inversion H; subst;
    (split; [unfold same_but_reads, same_core; simpl; tauto | reflexivity]).
Qed.

Lemma same_but_reads_kept (cfg : config) (s s' : snp) (b : bamfile) :
  same_but_reads s s' -> kept_from cfg s' b = kept_from cfg s b.
Proof.
  intros [[Hc [Hp _]] _]. unfold kept_from. rewrite Hc, Hp. reflexivity.
Qed.

Lemma same_but_reads_trans (s1 s2 s3 : snp) :
  same_but_reads s1 s2 -> same_but_reads s2 s3 -> same_but_reads s1 s3.
Proof.
  unfold same_but_reads, same_core. intuition congruence.
Qed.

Lemma for_each_snp_Forall2 (f : snp -> result snp) (d d' : dict snp) :
  for_each_snp f d = Ok d' ->
  Forall2 (fun e e' => fst e' = fst e /\ f (snd e) = Ok (snd e')) d d'.
Proof.
  unfold for_each_snp. revert d'.
  induction d as [|[k s] d IH]; simpl; intros d' H.
  - inversion H; subst. constructor.
  - inv_bind H. inv_bind Hx. inversion Hx; subst. inv_bind H.
    inversion H; subst. constructor; [simpl; auto | apply IH; exact Hx1].
Qed.

Lemma for_each_snp_keys (f : snp -> result snp) (d d' : dict snp) :
  for_each_snp f d = Ok d' -> dict_keys d' = dict_keys d.
Proof.
  intros H. apply for_each_snp_Forall2 in H. unfold dict_keys.
  induction H as [|e e' d d' [Hk _] _ IH]; simpl; congruence.
Qed.

Lemma extract_reads_keys (cfg : config) (bams : list bamfile) :
  forall d d',
    extract_reads cfg bams d = Ok d' -> dict_keys d' = dict_keys d.
Proof.
  unfold extract_reads. induction bams as [|b bams IH]; intros d d' H.
  - simpl in H. inversion H; reflexivity.
  - simpl foldM in H. inv_bind H. apply for_each_snp_keys in Hx.
    rewrite (IH _ _ H). exact Hx.
Qed.

(** X6. Reads are pooled per site over the alignment sources: after the
    sources have been gone through, every site is in its place under its
    key, unchanged but for its read list, and its read list is what it
    held before followed by the reads kept from each source, source after
    source and in fetch order. *)
Theorem extract_reads_pools (cfg : config) (bams : list bamfile) :
  forall d d',
    extract_reads cfg bams d = Ok d' ->
    Forall2 (fun e e' => fst e' = fst e /\
                         same_but_reads (snd e) (snd e') /\
                         reads (snd e') = pooled_reads cfg bams (snd e))
            d d'.
Proof.
  unfold extract_reads.
  induction bams as [|b bams IH]; intros d d' H.
  - simpl in H. inversion H; subst. clear.
    induction d' as [|e d' IH]; constructor; [| exact IH].
    split; [reflexivity|]. split; [| reflexivity].
    unfold same_but_reads, same_core. tauto.
  - simpl foldM in H. inv_bind H.
    apply for_each_snp_Forall2 in Hx. specialize (IH _ _ H). clear H.
    revert d' IH. induction Hx as [|e e1 d d1 [Hk Ha] Hx IHx]; intros d' IH.
    + inversion IH; subst. constructor.
    + inversion IH as [|? e' ? d'' [Hk' [Hs' Hr']] Hrest]; subst.
      constructor; [| apply IHx; exact Hrest].
      apply add_reads_ok in Ha. destruct Ha as [Hs Hr].
      split; [congruence|]. split; [eapply same_but_reads_trans; eassumption|].
      rewrite Hr'. unfold pooled_reads. destruct bams as [|b' bams].
      * rewrite Hr. simpl. rewrite app_nil_r. reflexivity.
      * rewrite Hr. f_equal. simpl flat_map.
        rewrite !(same_but_reads_kept cfg _ _ _ Hs).
        rewrite <- app_assoc. f_equal. f_equal. f_equal.
        apply flat_map_ext. intros b0. apply same_but_reads_kept. exact Hs.
Qed.

(** ** The counts dictionary *)

Lemma str_index_length (s : string) (i : Z) (b : string) :
  str_index s i = Some b -> String.length b = 1%nat.
Proof.
  unfold str_index. destruct (py_index _ _); intros H; inversion H.
  reflexivity.
Qed.

Lemma count_base_positive (d : dict allele) (b : string) :
  (forall k a, In (k, a) d -> 1 <= count a) ->
  forall k a, In (k, a) (count_base d b) -> 1 <= count a.
Proof.
  intros Hd k a. unfold count_base.
  destruct (dict_get d b) as [a0|] eqn:E; intros H;
    apply In_dict_set in H; destruct H as [H | H]; eauto;
    inversion H; subst; simpl; [| lia].
  apply dict_get_In in E. specialize (Hd _ _ E). lia.
Qed.

Lemma count_base_keys (d : dict allele) (b : string) :
  (forall k a, In (k, a) d -> String.length k = 1%nat) ->
  String.length b = 1%nat ->
  forall k a, In (k, a) (count_base d b) -> String.length k = 1%nat.
Proof.
  intros Hd Hb k a. unfold count_base.
  destruct (dict_get d b) as [a0|]; intros H;
    apply In_dict_set in H; destruct H as [H | H]; eauto;
    inversion H; subst; exact Hb.
Qed.

Lemma count_base_NoDup (d : dict allele) (b : string) :
  NoDup (dict_keys d) -> NoDup (dict_keys (count_base d b)).
Proof.
  intros H. unfold count_base.
  destruct (dict_get d b); apply dict_set_NoDup; exact H.
Qed.

Lemma count_of_positive_mem (d : dict allele) (b : string) :
  (forall k a, In (k, a) d -> 1 <= count a) ->
  (dict_mem d b = true <-> 1 <= count_of d b).
Proof.
  intros Hd. unfold dict_mem, count_of.
  destruct (dict_get d b) as [a|] eqn:E.
  - apply dict_get_In in E. specialize (Hd _ _ E). split; [lia | reflexivity].
  - split; [discriminate | lia].
Qed.

Lemma filter_nonempty_iff {A : Type} (f : A -> bool) (l : list A) :
  1 <= Z.of_nat (List.length (filter f l)) <-> exists x, In x l /\ f x = true.
Proof.
  split.
  - destruct (filter f l) as [|x xs] eqn:E; simpl; [lia|]. intros _.
    assert (Hin : In x (filter f l)) by (rewrite E; left; reflexivity).
    apply filter_In in Hin. exists x. exact Hin.
  - intros [x Hx]. apply filter_In in Hx.
    destruct (filter f l); [destruct Hx | simpl; lia].
Qed.

(** What the counting loop keeps true of the entries. *)
Lemma count_reads_entries (snp_pos : Z) (rs : list read) :
  forall d0 d,
    foldM (count_read snp_pos) rs d0 = Ok d ->
    (forall k a, In (k, a) d0 -> 1 <= count a /\ String.length k = 1%nat) ->
    forall k a, In (k, a) d -> 1 <= count a /\ String.length k = 1%nat.
Proof.
  induction rs as [|r rs IH]; intros d0 d H Hd.
  - simpl in H. inversion H; subst. exact Hd.
  - simpl foldM in H. inv_bind H. unfold count_read in Hx.
    destruct (str_index _ _) as [base|] eqn:Eb; [| discriminate].
    inversion Hx; subst x. apply (IH _ _ H).
    intros k a Hin. split.
    + apply (count_base_positive d0 base) with (k := k); [| exact Hin].
      intros k' a' Hin'. apply (Hd _ _ Hin').
    + apply (count_base_keys d0 base) with (a := a); [| | exact Hin].
      * intros k' a' Hin'. apply (Hd _ _ Hin').
      * eapply str_index_length. exact Eb.
Qed.

Lemma count_alleles_NoDup (snp_pos : Z) (rs : list read) (d : dict allele) :
  count_alleles snp_pos rs = Ok d -> NoDup (dict_keys d).
Proof.
  unfold count_alleles. intros H.
  assert (Hnd : forall rs d0 d,
             foldM (count_read snp_pos) rs d0 = Ok d ->
             NoDup (dict_keys d0) -> NoDup (dict_keys d)).
  { clear. induction rs as [|r rs IH]; intros d0 d H Hnd.
    - simpl in H. inversion H; subst. exact Hnd.
    - simpl foldM in H. inv_bind H. unfold count_read in Hx.
      destruct (str_index _ _) as [base|]; [| discriminate].
      inversion Hx; subst x. apply (IH _ _ H).
      apply count_base_NoDup. exact Hnd. }
  apply (Hnd _ _ _ H). constructor.
Qed.

Lemma count_alleles_entry (snp_pos : Z) (rs : list read) (d : dict allele) :
  count_alleles snp_pos rs = Ok d ->
  forall b a, In (b, a) d ->
    1 <= count a /\ pvalue a = None /\ String.length b = 1%nat.
Proof.
  unfold count_alleles. intros H b a Hin.
  destruct (count_reads_entries _ _ _ _ H (fun k a0 (F : In (k, a0) []) =>
              match F with end) _ _ Hin) as [H1 H2].
  split; [exact H1|]. split; [| exact H2].
  apply (count_alleles_no_pvalue _ _ _ _ H) with (k := b); [| exact Hin].
  intros k a0 [].
Qed.

Lemma count_alleles_observed (snp_pos : Z) (rs : list read) (d : dict allele)
      (b : string) :
  count_alleles snp_pos rs = Ok d ->
  dict_mem d b = true ->
  exists r, In r rs /\ base_at snp_pos r = Some b.
Proof.
  intros H Hm. pose proof (count_alleles_entry _ _ _ H) as Hent.
  unfold count_alleles in H.
  apply (count_of_positive_mem d b) in Hm;
    [| intros k a Hin; apply (Hent _ _ Hin)].
  rewrite (count_alleles_tally _ _ _ _ H b) in Hm.
  unfold count_of in Hm. simpl dict_get in Hm. rewrite Z.add_0_l in Hm.
  apply filter_nonempty_iff in Hm. destruct Hm as [r [Hin Hb]].
  exists r. split; [exact Hin|]. unfold shows_base in Hb.
  destruct (base_at snp_pos r) as [b'|]; [| discriminate].
  apply String.eqb_eq in Hb. congruence.
Qed.

(** X7. The counts dictionary of a site holds exactly the bases its reads
    show: a base has an entry if and only if some read shows it at offset
    [pos - reference_start]; every key is a single character and occurs
    once; every count is at least 1; and no entry has a p-value yet. *)
Theorem count_alleles_entries (snp_pos : Z) (rs : list read) (d : dict allele) :
  count_alleles snp_pos rs = Ok d ->
  NoDup (dict_keys d) /\
  (forall b a, In (b, a) d ->
               1 <= count a /\ pvalue a = None /\ String.length b = 1%nat) /\
  (forall b, dict_mem d b = true <->
             exists r, In r rs /\ base_at snp_pos r = Some b).
Proof.
  intros H. pose proof (count_alleles_entry _ _ _ H) as Hent.
  split; [exact (count_alleles_NoDup _ _ _ H)|]. split; [exact Hent|].
  unfold count_alleles in H.
  intros b. rewrite (count_of_positive_mem d b)
    by (intros k a Hin; apply (Hent _ _ Hin)).
  rewrite (count_alleles_tally _ _ _ _ H b).
  unfold count_of. simpl dict_get. rewrite Z.add_0_l.
  rewrite filter_nonempty_iff. unfold shows_base.
  split; intros [r [Hin Hb]]; exists r; split; auto.
  - destruct (base_at snp_pos r) as [b'|]; [| discriminate].
    apply String.eqb_eq in Hb. congruence.
  - rewrite Hb. apply String.eqb_refl.
Qed.

(** X8. A read the filter kept cannot stop the counting: its quality
    lookup succeeded, so whenever its sequence is at least as long as its
    quality array the base lookup at the same offset succeeds too, and the
    counts of the kept reads are produced without an exception. *)
Theorem count_alleles_after_filter
        (cfg : config) (snp_pos : Z) (fetched kept : list read) :
  filter_reads cfg snp_pos fetched = Ok kept ->
  (forall r, In r fetched ->
             (List.length (query_alignment_qualities r)
              <= String.length (query_sequence r))%nat) ->
  exists d, count_alleles snp_pos kept = Ok d.
Proof.
  intros Hf Hlen. apply filter_reads_ok in Hf. subst kept.
  unfold count_alleles. apply count_alleles_total.
  intros r Hin. apply filter_In in Hin. destruct Hin as [Hin Hw].
  specialize (Hlen r Hin).
  unfold within_limits in Hw. apply andb_true_iff in Hw. destruct Hw as [_ Hw].
  unfold base_at, str_index.
  destruct (py_index (query_alignment_qualities r)
                     (snp_pos - reference_start r)) as [q|] eqn:Eq;
    [| discriminate].
  assert (Hb : py_index (list_ascii_of_string (query_sequence r))
                        (snp_pos - reference_start r) <> None).
  { pose proof (length_list_ascii_of_string (query_sequence r)) as Hl.
    unfold py_index in *.
    set (i := snp_pos - reference_start r) in *.
    destruct (0 <=? i) eqn:E0; simpl in *.
    - apply Z.leb_le in E0.
      destruct (i <? Z.of_nat (List.length (query_alignment_qualities r))) eqn:E1.
      + apply Z.ltb_lt in E1.
        assert (E2 : (i <? Z.of_nat (List.length
                        (list_ascii_of_string (query_sequence r)))) = true)
          by (apply Z.ltb_lt; lia).
        rewrite E2. apply nth_error_Some. lia.
      + destruct (- Z.of_nat (List.length (query_alignment_qualities r)) <=? i);
          simpl in Eq; [| discriminate].
        destruct (i <? 0) eqn:E3; [apply Z.ltb_lt in E3; lia | discriminate].
    - apply Z.leb_gt in E0.
      destruct (- Z.of_nat (List.length (query_alignment_qualities r)) <=? i)
               eqn:E1; simpl in Eq; [| discriminate].
      apply Z.leb_le in E1.
      destruct (i <? 0) eqn:E3; [| discriminate].
      assert (E2 : (- Z.of_nat (List.length
                       (list_ascii_of_string (query_sequence r))) <=? i) = true)
        by (apply Z.leb_le; lia).
      rewrite E2. simpl. apply nth_error_Some. lia. }
  destruct (py_index (list_ascii_of_string (query_sequence r)) _);
    [discriminate | congruence].
Qed.

(** ** The steps of the loop body of stages 3 to 5 *)

Lemma str_append_empty (a b : string) : a +++ b = "" -> a = "" /\ b = "".
Proof. destruct a; simpl; [auto | discriminate]. Qed.

Lemma same_site_refl (s : snp) : same_site s s.
Proof. unfold same_site, same_core. tauto. Qed.

Lemma same_site_trans (s1 s2 s3 : snp) :
  same_site s1 s2 -> same_site s2 s3 -> same_site s1 s3.
Proof. unfold same_site, same_core. intuition congruence. Qed.

Lemma init_reports_site (s : snp) :
  same_site s (init_reports s) /\ report_comment (init_reports s) = "" /\
  report_ref (init_reports s) = "" /\ report_alt (init_reports s) = "" /\
  report_other (init_reports s) = "".
Proof. unfold same_site, same_core, init_reports. simpl. tauto. Qed.

Lemma resolve_anchor_found (s : snp) (d : dict allele) (a : allele) :
  dict_get d (ref s) = Some a ->
  resolve_anchor s d
  = (set_report_ref s (ref s +++ ":" +++ str_int (count a)),
     (ref s, count a)).
Proof. intros H. unfold resolve_anchor. rewrite H. reflexivity. Qed.

Lemma resolve_anchor_missing (s : snp) (d : dict allele) :
  dict_get d (ref s) = None ->
  exists s1 ab ac,
    resolve_anchor s d = (s1, (ab, ac)) /\
    report_comment s1
    = report_comment s +++ "No_Ref_Reads;Calc_rel_to_" +++ ab +++ ";" /\
    report_ref s1 <> "" /\ report_alt s1 = report_alt s /\
    report_other s1 = report_other s /\ same_site s s1.
Proof.
  intros H. unfold resolve_anchor. rewrite H.
  destruct (scan_substitute (alt s) d (ref s, 0)) as [ab ac].
  destruct (negb (String.eqb ab (ref s))); eexists; exists ab, ac;
    (split; [reflexivity|]); simpl; (split; [reflexivity|]);
    (split; [intros E; apply str_append_empty in E; destruct E as [_ E];
             try (apply str_append_empty in E; destruct E as [E _]);
             discriminate|]);
    unfold same_site, same_core; simpl; tauto.
Qed.

Section SiteSteps.

Variable binom_test : Z -> Z -> Q.
Variable str_float : Q -> string.

(** The result of the three-way branch after anchor resolution. *)
Lemma test_alleles_cases (s : snp) (d : dict allele) (ab : string) (ac nq : Z) :
  exists s2 d2 nq2,
    test_alleles binom_test s d (ab, ac) nq = (s2, d2, nq2) /\
    same_site s s2 /\
    ((d2 = d /\ nq2 = nq + 1 /\ report_comment s2 <> "" /\
      report_ref s2 = report_ref s /\
      ab = ref s /\ dict_mem d (ref s) = false /\
      (dict_mem d (alt s) = true ->
       report_comment s2 = report_comment s +++ "Only_Alt_Reads;"))
     \/
     (d2 = d /\ nq2 = nq + 1 /\ report_comment s2 = "Insufficient_Alleles;" /\
      report_ref s2 = ".:." /\ (List.length d <= 1)%nat)
     \/
     (d2 = run_tests binom_test ab ac d /\ nq2 = nq /\ s2 = s /\
      (2 <= List.length d)%nat)).
Proof.
  unfold test_alleles.
  destruct (String.eqb ab (ref s) && negb (dict_mem d (ref s))) eqn:E.
  - apply andb_true_iff in E. destruct E as [E1 E2].
    apply String.eqb_eq in E1. apply negb_true_iff in E2.
    eexists; eexists; eexists. split; [reflexivity|].
    split; [unfold same_site, same_core; destruct (dict_get d (alt s));
            simpl; tauto|].
    left. split; [reflexivity|]. split; [reflexivity|].
    unfold dict_mem. destruct (dict_get d (alt s)); simpl.
    + split; [intros H; apply str_append_empty in H; destruct H;
              discriminate|]. auto.
    + split; [intros H; apply str_append_empty in H; destruct H;
              discriminate|]. repeat split; auto. discriminate.
  - destruct (Z.of_nat (List.length d) <=? 1) eqn:El.
    + apply Z.leb_le in El.
      eexists; eexists; eexists. split; [reflexivity|].
      split; [unfold same_site, same_core; simpl; tauto|].
      right. left. simpl. repeat split; auto. lia.
    + apply Z.leb_gt in El.
      eexists; eexists; eexists. split; [reflexivity|].
      split; [apply same_site_refl|].
      right. right. repeat split; auto. lia.
Qed.

Lemma report_alt_step_cases (s s' : snp) (d : dict allele) (nq nq' : Z) :
  report_alt_step str_float s d nq = Ok (s', nq') ->
  same_site s s' /\ report_ref s' = report_ref s /\
  report_other s' = report_other s /\ report_alt s' <> "" /\
  ((dict_get d (alt s) = None /\ nq' = nq + 1 /\
    report_comment s' = report_comment s +++ "No_Alt_Reads;" /\
    report_alt s' = alt s +++ ":0:.")
   \/
   (exists a p, dict_get d (alt s) = Some a /\ pvalue a = Some p /\
                nq' = nq /\ report_comment s' = report_comment s /\
                report_alt s' = alt s +++ ":" +++ str_int (count a) +++ ":"
                                  +++ str_float p)).
Proof.
  unfold report_alt_step, get_pvalue.
  destruct (dict_get d (alt s)) as [a|] eqn:E.
  - destruct (pvalue a) as [p|] eqn:Ep; simpl; [| discriminate].
    intros H. inversion H; subst. simpl.
    split; [unfold same_site, same_core; simpl; tauto|].
    split; [reflexivity|]. split; [reflexivity|].
    split; [intros H0; apply str_append_empty in H0; destruct H0 as [_ H0];
            discriminate|].
    right. exists a, p. auto.
  - intros H. inversion H; subst. simpl.
    split; [unfold same_site, same_core; simpl; tauto|].
    split; [reflexivity|]. split; [reflexivity|].
    split; [intros H0; apply str_append_empty in H0; destruct H0 as [_ H0];
            discriminate|].
    left. auto.
Qed.

Lemma report_other_frame (ab : string) (d : dict allele) :
  forall s s',
    foldM (report_other_step str_float ab) d s = Ok s' ->
    same_site s s' /\ report_comment s' = report_comment s /\
    report_ref s' = report_ref s /\ report_alt s' = report_alt s /\
    report_other s'
    = report_other s +++ other_fields str_float ab (alt s) d.
Proof.
  induction d as [|[b a] d IH]; intros s s' H.
  - simpl in H. inversion H; subst. simpl. rewrite str_append_nil.
    split; [apply same_site_refl | auto].
  - simpl foldM in H. inv_bind H. unfold report_other_step in Hx.
    simpl other_fields.
    destruct (negb (String.eqb b ab) && negb (String.eqb b (alt s))) eqn:E.
    + unfold get_pvalue in Hx. destruct (pvalue a) as [p|]; [| discriminate].
      simpl in Hx. inversion Hx; subst x. clear Hx.
      destruct (IH _ _ H) as [Hs [Hc [Hr [Ha Ho]]]]. simpl in *.
      split; [eapply same_site_trans; [| exact Hs];
              unfold same_site, same_core; simpl; tauto|].
      split; [exact Hc|]. split; [exact Hr|]. split; [exact Ha|].
      rewrite Ho. rewrite !str_append_assoc. reflexivity.
    + inversion Hx; subst x. destruct (IH _ _ H) as [Hs [Hc [Hr [Ha Ho]]]].
      split; [exact Hs|]. split; [exact Hc|]. split; [exact Hr|].
      split; [exact Ha|]. rewrite Ho. reflexivity.
Qed.

Lemma report_other_total (ab : string) (d : dict allele) :
  forall s,
    (forall b a, In (b, a) d -> b <> ab -> b <> alt s -> pvalue a <> None) ->
    exists s', foldM (report_other_step str_float ab) d s = Ok s'.
Proof.
  induction d as [|[b a] d IH]; intros s Hp.
  - simpl. eauto.
  - simpl foldM. unfold report_other_step at 1.
    destruct (negb (String.eqb b ab) && negb (String.eqb b (alt s))) eqn:E.
    + apply andb_true_iff in E. destruct E as [E1 E2].
      apply negb_true_iff in E1, E2. apply String.eqb_neq in E1, E2.
      unfold get_pvalue.
      destruct (pvalue a) as [p|] eqn:Ep;
        [| exfalso; exact (Hp b a (or_introl eq_refl) E1 E2 Ep)].
      simpl. apply IH. simpl.
      intros b' a' Hin. apply Hp. right. exact Hin.
    + simpl. apply IH. intros b' a' Hin. apply Hp. right. exact Hin.
Qed.

(** The loop body for a site with sufficient reads, step by step. *)
Lemma process_site_unfold (s : snp) (rs : list read) (d : dict allele) (nq : Z) :
  flag_sufficient_reads s = true ->
  reads s = Some rs ->
  count_alleles (pos s) rs = Ok d ->
  process_site binom_test str_float s nq
  = (let '(s1, anchor) := resolve_anchor (init_reports s) d in
     let '(s2, d2, nq2) := test_alleles binom_test s1 d anchor nq in
     x <- report_alt_step str_float s2 d2 nq2 ;;
     (let '(s3, nq3) := x in
      s4 <- foldM (report_other_step str_float (fst anchor)) d2 s3 ;;
      Ok (set_reads (set_allelic_dict s4 d2) None, nq3))).
Proof.
  intros Hf Hr Hc. unfold process_site. fold (init_reports s).
  simpl flag_sufficient_reads. rewrite Hf. simpl negb. cbv iota.
  simpl reads. rewrite Hr. simpl pos. unfold bind at 1. rewrite Hc.
  unfold bind at 1. reflexivity.
Qed.

Lemma process_site_steps (s s' : snp) (nq nq' : Z) :
  process_site binom_test str_float s nq = Ok (s', nq') ->
  flag_sufficient_reads s = true ->
  exists rs d s1 ab ac s2 d2 nq2 s3 s4,
    reads s = Some rs /\ count_alleles (pos s) rs = Ok d /\
    resolve_anchor (init_reports s) d = (s1, (ab, ac)) /\
    test_alleles binom_test s1 d (ab, ac) nq = (s2, d2, nq2) /\
    report_alt_step str_float s2 d2 nq2 = Ok (s3, nq') /\
    foldM (report_other_step str_float ab) d2 s3 = Ok s4 /\
    s' = set_reads (set_allelic_dict s4 d2) None.
Proof.
  intros H Hf.
  destruct (reads s) as [rs|] eqn:Hr.
  2:{ unfold process_site in H. simpl flag_sufficient_reads in H.
      rewrite Hf in H. simpl negb in H. cbv iota in H. simpl reads in H.
      rewrite Hr in H. discriminate. }
  destruct (count_alleles (pos s) rs) as [d|e] eqn:Hc.
  2:{ unfold process_site in H. simpl flag_sufficient_reads in H.
      rewrite Hf in H. simpl negb in H. cbv iota in H. simpl reads in H.
      rewrite Hr in H. simpl pos in H. unfold bind at 1 in H.
      rewrite Hc in H. discriminate. }
  rewrite (process_site_unfold s rs d nq Hf Hr Hc) in H.
  destruct (resolve_anchor (init_reports s) d) as [s1 [ab ac]] eqn:Ea.
  destruct (test_alleles binom_test s1 d (ab, ac) nq) as [[s2 d2] nq2] eqn:Et.
  inv_bind H. destruct x as [s3 nq3]. inv_bind H. inversion H; subst.
  exists rs, d, s1, ab, ac, s2, d2, nq2, s3, x. simpl in Hx0. auto 10.
Qed.

Lemma two_keys_length {V : Type} (d : dict V) (k1 k2 : string) :
  dict_mem d k1 = true -> dict_mem d k2 = true -> k1 <> k2 ->
  (2 <= List.length d)%nat.
Proof.
  unfold dict_mem. destruct d as [|[e1 v1] [|[e2 v2] d]]; simpl.
  - discriminate.
  - destruct (String.eqb e1 k1) eqn:E1; [| discriminate].
    destruct (String.eqb e1 k2) eqn:E2; [| discriminate].
    apply String.eqb_eq in E1, E2. congruence.
  - lia.
Qed.

Lemma run_tests_get (ab : string) (ac : Z) (d : dict allele) (k : string) :
  dict_get (run_tests binom_test ab ac d) k
  = match dict_get d k with
    | Some a =>
        if String.eqb k ab then Some a
        else Some (mkAllele (count a)
                            (Some (binom_test (count a) (count a + ac))))
    | None => None
    end.
Proof.
  unfold run_tests. induction d as [|[e a] d IH]; simpl; [reflexivity|].
  destruct (String.eqb e ab) eqn:Eb; simpl;
    destruct (String.eqb e k) eqn:Ek; try exact IH;
    apply String.eqb_eq in Ek; subst e; rewrite Eb; reflexivity.
Qed.

Lemma run_tests_pvalue (ab : string) (ac : Z) (d : dict allele) (b : string)
      (a : allele) :
  In (b, a) (run_tests binom_test ab ac d) -> b <> ab -> pvalue a <> None.
Proof.
  unfold run_tests. intros H Hne. apply in_map_iff in H.
  destruct H as [[e a0] [Heq Hin]].
  destruct (String.eqb e ab) eqn:E; inversion Heq; subst.
  - apply String.eqb_eq in E. contradiction.
  - simpl. discriminate.
Qed.

(** X9. A site with sufficient reads at which both the reference and the
    alternate base were observed is tested against the reference: the
    comment stays empty, the counter of not queried sites is not touched,
    the reference report is "<ref>:<count>", the alternate report carries
    the p-value of the binomial test of the alternate count against the
    sum of alternate and reference count, every third base is reported
    with its own p-value, and the site passes the condition of 6.1. *)
Theorem tested_site_report (s : snp) (rs : list read) (d : dict allele)
        (ar aa : allele) (nq : Z) :
  flag_sufficient_reads s = true ->
  reads s = Some rs ->
  count_alleles (pos s) rs = Ok d ->
  dict_get d (ref s) = Some ar ->
  dict_get d (alt s) = Some aa ->
  ref s <> alt s ->
  exists s',
    process_site binom_test str_float s nq = Ok (s', nq) /\
    report_comment s' = "" /\
    report_ref s' = ref s +++ ":" +++ str_int (count ar) /\
    report_alt s'
    = alt s +++ ":" +++ str_int (count aa) +++ ":"
        +++ str_float (binom_test (count aa) (count aa + count ar)) /\
    report_other s'
    = other_fields str_float (ref s) (alt s)
                   (run_tests binom_test (ref s) (count ar) d) /\
    alt_entry s'
    = Ok (mkAllele (count aa)
                   (Some (binom_test (count aa) (count aa + count ar)))) /\
    is_valid_test s' = Ok true /\
    reads s' = None.
Proof.
  intros Hf Hr Hc Href Halt Hne.
  pose proof (count_alleles_entry _ _ _ Hc) as Hent.
  rewrite (process_site_unfold s rs d nq Hf Hr Hc).
  destruct (init_reports_site s) as [Hi0 [Hic [Hir [Hia Hio]]]].
  assert (Hiref : ref (init_reports s) = ref s) by reflexivity.
  assert (Hialt : alt (init_reports s) = alt s) by reflexivity.
  rewrite (resolve_anchor_found (init_reports s) d ar)
    by (rewrite Hiref; exact Href).
  rewrite Hiref.
  set (s1 := set_report_ref (init_reports s)
                            (ref s +++ ":" +++ str_int (count ar))).
  destruct (test_alleles_cases s1 d (ref s) (count ar) nq)
    as [s2 [d2 [nq2 [Et [_ Hcase]]]]].
  rewrite Et.
  assert (Hmr : dict_mem d (ref s) = true)
    by (unfold dict_mem; rewrite Href; reflexivity).
  assert (Hma : dict_mem d (alt s) = true)
    by (unfold dict_mem; rewrite Halt; reflexivity).
  pose proof (two_keys_length d _ _ Hmr Hma Hne) as Hlen.
  destruct Hcase as [[_ [_ [_ [_ [_ [Hm _]]]]]] | [[_ [_ [_ [_ Hl]]]]
                    | [-> [-> [-> _]]]]].
  { simpl in Hm. congruence. }
  { lia. }
  set (p := binom_test (count aa) (count aa + count ar)).
  assert (Hget : dict_get (run_tests binom_test (ref s) (count ar) d) (alt s)
                 = Some (mkAllele (count aa) (Some p))).
  { rewrite run_tests_get, Halt.
    destruct (String.eqb (alt s) (ref s)) eqn:E; [| reflexivity].
    apply String.eqb_eq in E. congruence. }
  unfold report_alt_step. replace (alt s1) with (alt s) by reflexivity.
  rewrite Hget. unfold get_pvalue. simpl pvalue. unfold bind at 2.
  unfold bind at 1. simpl fst.
  set (s3 := set_report_alt s1 _).
  destruct (report_other_total (ref s)
              (run_tests binom_test (ref s) (count ar) d) s3) as [s4 Hs4].
  { intros b a Hin Hb _. eapply run_tests_pvalue; eassumption. }
  rewrite Hs4. unfold bind.
  destruct (report_other_frame _ _ _ _ Hs4) as [Hs [Hc4 [Hr4 [Ha4 Ho4]]]].
  eexists. split; [reflexivity|].
  simpl report_comment. simpl report_ref. simpl report_alt.
  simpl report_other. simpl reads.
  rewrite Hc4, Hr4, Ha4, Ho4.
  split; [reflexivity|]. split; [reflexivity|]. split; [reflexivity|].
  split; [reflexivity|].
  assert (Hcore : same_core s s4).
  { destruct Hs as [Hs _]. unfold same_core in *. simpl in Hs. exact Hs. }
  assert (Hae : alt_entry (set_reads (set_allelic_dict s4
                   (run_tests binom_test (ref s) (count ar) d)) None)
                = Ok (mkAllele (count aa) (Some p))).
  { unfold alt_entry, dict_lookup. simpl allelic_dict. simpl alt.
    unfold bind. destruct Hcore as [_ [_ [_ [_ [Hal _]]]]].
    rewrite Hal, Hget. reflexivity. }
  split; [exact Hae|]. split; [| reflexivity].
  apply is_valid_test_true_iff. unfold eligible.
  split.
  - simpl. destruct Hcore as [_ [_ [_ [_ [_ Hfl]]]]]. congruence.
  - split.
    + exists (mkAllele (count aa) (Some p)), p.
      split; [exact Hae|]. split; [reflexivity|]. simpl.
      apply dict_get_In in Halt. destruct (Hent _ _ Halt) as [H1 _]. lia.
    + simpl. rewrite Hc4. reflexivity.
Qed.

(** What the final site owes to the steps. *)
Lemma process_site_result (s s' : snp) (nq nq' : Z) :
  process_site binom_test str_float s nq = Ok (s', nq') ->
  flag_sufficient_reads s = true ->
  exists rs d s1 ab ac s2 d2 nq2 s3,
    reads s = Some rs /\ count_alleles (pos s) rs = Ok d /\
    resolve_anchor (init_reports s) d = (s1, (ab, ac)) /\
    test_alleles binom_test s1 d (ab, ac) nq = (s2, d2, nq2) /\
    report_alt_step str_float s2 d2 nq2 = Ok (s3, nq') /\
    same_core s s' /\ same_core s s1 /\ same_core s s2 /\
    allelic_dict s' = Some d2 /\ reads s' = None /\
    report_comment s' = report_comment s3 /\
    report_ref s' = report_ref s3 /\ report_alt s' = report_alt s3.
Proof.
  intros H Hf.
  destruct (process_site_steps _ _ _ _ H Hf)
    as [rs [d [s1 [ab [ac [s2 [d2 [nq2 [s3 [s4 Hst]]]]]]]]]].
  destruct Hst as [Hr [Hc [Ha [Ht [Hra [Hro ->]]]]]].
  exists rs, d, s1, ab, ac, s2, d2, nq2, s3.
  repeat (split; [assumption|]).
  destruct (report_other_frame _ _ _ _ Hro) as [[H4 _] [Hc4 [Hr4 [Ha4 _]]]].
  destruct (report_alt_step_cases _ _ _ _ _ Hra) as [[H3 _] _].
  pose proof (test_alleles_cases s1 d ab ac nq) as Htc.
  destruct Htc as [s2' [d2' [nq2' [Et [[H2 _] _]]]]].
  rewrite Ht in Et. inversion Et; subst s2' d2' nq2'.
  pose proof (resolve_anchor_core binom_test str_float (init_reports s) d)
    as H1.
  rewrite Ha in H1. simpl fst in H1.
  assert (H0 : same_core s (init_reports s))
    by (unfold same_core, init_reports; simpl; tauto).
  assert (Hs1 : same_core s s1) by (eapply same_core_trans; eassumption).
  assert (Hs2 : same_core s s2) by (eapply same_core_trans; eassumption).
  assert (Hs3 : same_core s s3) by (eapply same_core_trans; eassumption).
  assert (Hs4 : same_core s s4) by (eapply same_core_trans; eassumption).
  split; [unfold same_core in *; simpl; exact Hs4|].
  split; [exact Hs1|]. split; [exact Hs2|]. simpl. auto.
Qed.

(** A site that passes the condition of 6.1 was tested against its own
    reference base. *)
Lemma valid_site_anchor (s s' : snp) (rs : list read) (d : dict allele)
      (nq nq' : Z) :
  flag_sufficient_reads s = true ->
  reads s = Some rs ->
  count_alleles (pos s) rs = Ok d ->
  process_site binom_test str_float s nq = Ok (s', nq') ->
  is_valid_test s' = Ok true ->
  exists ar a p,
    dict_get d (ref s) = Some ar /\
    dict_get (run_tests binom_test (ref s) (count ar) d) (alt s) = Some a /\
    pvalue a = Some p.
Proof.
  intros Hf Hr Hc Hp Hv. apply is_valid_test_true_iff in Hv.
  destruct Hv as [_ [[a [p [Hae [Hpv _]]]] Hcom]].
  destruct (process_site_result _ _ _ _ Hp Hf)
    as [rs' [d' [s1 [ab [ac [s2 [d2 [nq2 [s3 Hst]]]]]]]]].
  destruct Hst as [Hr' [Hc' [Ha [Ht [Hra [Hcore [Hs1 [Hs2 [Had [_ [Hc3 _]]]]]]]]]]].
  rewrite Hr in Hr'. inversion Hr'; subst rs'.
  rewrite Hc in Hc'. inversion Hc'; subst d'.
  assert (Halt' : alt s' = alt s) by (destruct Hcore; tauto).
  assert (Halt2 : alt s2 = alt s) by (destruct Hs2; tauto).
  unfold alt_entry, dict_lookup in Hae. rewrite Had, Halt' in Hae.
  simpl in Hae.
  destruct (dict_get d2 (alt s)) as [a2|] eqn:Eg; inversion Hae; subst a2.
  rewrite Hcom in Hc3. symmetry in Hc3.
  destruct (report_alt_step_cases _ _ _ _ _ Hra) as [_ [_ [_ [_ Hcase]]]].
  destruct Hcase as [[Hn _] | [a3 [p3 [_ [_ [_ [Hc2 _]]]]]]].
  { rewrite Halt2 in Hn. congruence. }
  rewrite Hc3 in Hc2. symmetry in Hc2.
  destruct (test_alleles_cases s1 d ab ac nq)
    as [s2' [d2' [nq2' [Et [_ Hcase]]]]].
  rewrite Ht in Et. inversion Et; subst s2' d2' nq2'.
  destruct Hcase as [[_ [_ [Hne _]]] | [[_ [_ [Hia _]]] | [Hd2 [_ [Hs21 _]]]]].
  { contradiction. }
  { rewrite Hc2 in Hia. discriminate. }
  subst s2.
  destruct (dict_get d (ref s)) as [ar|] eqn:Eref.
  2:{ destruct (resolve_anchor_missing (init_reports s) d Eref)
        as [s1' [ab' [ac' [Ha' [Hcm _]]]]].
      rewrite Ha in Ha'. inversion Ha'; subst s1' ab' ac'.
      rewrite Hc2 in Hcm. symmetry in Hcm.
      apply str_append_empty in Hcm. destruct Hcm as [_ Hcm].
      discriminate. }
  rewrite (resolve_anchor_found (init_reports s) d ar Eref) in Ha.
  inversion Ha; subst ab ac. simpl ref in *.
  exists ar, a, p. rewrite <- Hd2. auto.
Qed.

(** X10. For a site with sufficient reads on which stages 3 to 5 complete,
    the condition of 6.1 holds if and only if both the reference base and
    the alternate base were observed among its reads (and the two differ):
    a missing reference, a missing alternate or a single allele each keep
    the site out of the FDR pool. *)
Theorem eligible_iff_both_observed (s s' : snp) (rs : list read)
        (d : dict allele) (nq nq' : Z) :
  flag_sufficient_reads s = true ->
  reads s = Some rs ->
  count_alleles (pos s) rs = Ok d ->
  process_site binom_test str_float s nq = Ok (s', nq') ->
  (is_valid_test s' = Ok true <->
   dict_mem d (ref s) = true /\ dict_mem d (alt s) = true /\ ref s <> alt s).
Proof.
  intros Hf Hr Hc Hp. split.
  - intros Hv.
    destruct (valid_site_anchor s s' rs d nq nq' Hf Hr Hc Hp Hv)
      as [ar [a [p [Eref [Eg Hpv]]]]].
    pose proof (count_alleles_entry _ _ _ Hc) as Hent.
    rewrite run_tests_get in Eg.
    unfold dict_mem. rewrite Eref.
    destruct (dict_get d (alt s)) as [aa|] eqn:Ealt; [| discriminate].
    split; [reflexivity|]. split; [reflexivity|].
    intros Heq. rewrite <- Heq, String.eqb_refl in Eg.
    inversion Eg; subst a.
    apply dict_get_In in Ealt. destruct (Hent _ _ Ealt) as [_ [Hnone _]].
    congruence.
  - intros [Hmr [Hma Hne]]. unfold dict_mem in Hmr, Hma.
    destruct (dict_get d (ref s)) as [ar|] eqn:Eref; [| discriminate].
    destruct (dict_get d (alt s)) as [aa|] eqn:Ealt; [| discriminate].
    pose proof (count_alleles_entry _ _ _ Hc) as Hent.
    destruct (process_site_result _ _ _ _ Hp Hf)
      as [rs' [d' [s1 [ab [ac [s2 [d2 [nq2 [s3 Hst]]]]]]]]].
    destruct Hst as [Hr' [Hc' [Ha [Ht [Hra [Hcore [_ [Hs2 [Had [_ [Hc3 _]]]]]]]]]]].
    rewrite Hr in Hr'. inversion Hr'; subst rs'.
    rewrite Hc in Hc'. inversion Hc'; subst d'.
    rewrite (resolve_anchor_found (init_reports s) d ar Eref) in Ha.
    inversion Ha; subst s1 ab ac. clear Ha. simpl ref in Ht.
    destruct (test_alleles_cases
                (set_report_ref (init_reports s)
                                (ref s +++ ":" +++ str_int (count ar)))
                d (ref s) (count ar) nq)
      as [s2' [d2' [nq2' [Et [_ Hcase]]]]].
    assert (Heq : (s2', d2', nq2') = (s2, d2, nq2))
      by (rewrite <- Et; exact Ht).
    inversion Heq; subst s2' d2' nq2'. clear Heq.
    assert (Hmr' : dict_mem d (ref s) = true)
      by (unfold dict_mem; rewrite Eref; reflexivity).
    assert (Hma' : dict_mem d (alt s) = true)
      by (unfold dict_mem; rewrite Ealt; reflexivity).
    pose proof (two_keys_length d _ _ Hmr' Hma' Hne) as Hlen.
    destruct Hcase as [[_ [_ [_ [_ [_ [Hm _]]]]]] | [[_ [_ [_ [_ Hl]]]]
                      | [Hd2 [_ [Hs2' _]]]]].
    { simpl in Hm. congruence. }
    { lia. }
    assert (Halt' : alt s' = alt s) by (destruct Hcore; tauto).
    assert (Halt2 : alt s2 = alt s) by (destruct Hs2; tauto).
    assert (Hget : dict_get d2 (alt s)
                   = Some (mkAllele (count aa)
                             (Some (binom_test (count aa) (count aa + count ar))))).
    { rewrite Hd2, run_tests_get, Ealt.
      destruct (String.eqb (alt s) (ref s)) eqn:E; [| reflexivity].
      apply String.eqb_eq in E. congruence. }
    destruct (report_alt_step_cases _ _ _ _ _ Hra) as [_ [_ [_ [_ Hcase]]]].
    destruct Hcase as [[Hn _] | [a3 [p3 [_ [_ [_ [Hc2 _]]]]]]].
    { rewrite Halt2 in Hn. congruence. }
    apply is_valid_test_true_iff. unfold eligible. split.
    + destruct Hcore as [_ [_ [_ [_ [_ Hfl]]]]]. congruence.
    + split.
      * eexists. eexists. split.
        -- unfold alt_entry, dict_lookup. rewrite Had, Halt'. simpl.
           rewrite Hget. reflexivity.
        -- split; [reflexivity|]. simpl.
           apply dict_get_In in Ealt. destruct (Hent _ _ Ealt) as [H1 _]. lia.
      * rewrite Hc3, Hc2, Hs2'. reflexivity.
Qed.

(** X11. A site whose reference allele is not a single character can get
    through the indel check, but it can never enter the FDR pool: no read
    shows a base that equals it. *)
Theorem long_reference_never_eligible (s s' : snp) (nq nq' : Z) :
  String.length (ref s) <> 1%nat ->
  process_site binom_test str_float s nq = Ok (s', nq') ->
  is_valid_test s' <> Ok true.
Proof.
  intros Hlen Hp Hv.
  destruct (flag_sufficient_reads s) eqn:Hf.
  - destruct (process_site_steps _ _ _ _ Hp Hf)
      as [rs [d [_ [_ [_ [_ [_ [_ [_ [_ [Hr [Hc _]]]]]]]]]]]].
    destruct (valid_site_anchor s s' rs d nq nq' Hf Hr Hc Hp Hv)
      as [a [_ [_ [E _]]]].
    apply dict_get_In in E.
    pose proof (count_alleles_entry _ _ _ Hc) as Hent.
    destruct (Hent _ _ E) as [_ [_ Hl]]. contradiction.
  - destruct (process_site_insufficient binom_test str_float s nq Hf)
      as [s0 [H0 [Hcore _]]].
    rewrite Hp in H0. inversion H0; subst s0.
    apply is_valid_test_true_iff in Hv. destruct Hv as [Hv _].
    destruct Hcore as [_ [_ [_ [_ [_ Hfl]]]]]. congruence.
Qed.

(** X12. Every site leaves stages 3 to 5 with a reference report and an
    alternate report that are not empty. *)
Theorem reports_never_empty (s s' : snp) (nq nq' : Z) :
  process_site binom_test str_float s nq = Ok (s', nq') ->
  report_ref s' <> "" /\ report_alt s' <> "".
Proof.
  intros Hp. destruct (flag_sufficient_reads s) eqn:Hf.
  - destruct (process_site_result _ _ _ _ Hp Hf)
      as [rs [d [s1 [ab [ac [s2 [d2 [nq2 [s3 Hst]]]]]]]]].
    destruct Hst as [_ [_ [Ha [Ht [Hra [_ [_ [_ [_ [_ [_ [Hr3 Ha3]]]]]]]]]]]].
    destruct (report_alt_step_cases _ _ _ _ _ Hra) as [_ [Hr2 [_ [Hane _]]]].
    split; [| rewrite Ha3; exact Hane].
    rewrite Hr3, Hr2.
    assert (Hr1 : report_ref s1 <> "").
    { destruct (dict_get d (ref (init_reports s))) as [ar|] eqn:Eref.
      - rewrite (resolve_anchor_found _ d ar Eref) in Ha.
        inversion Ha; subst. simpl. intros E.
        apply str_append_empty in E. destruct E as [_ E]. discriminate.
      - destruct (resolve_anchor_missing _ d Eref)
          as [s1' [ab' [ac' [Ha' [_ [Hne _]]]]]].
        rewrite Ha in Ha'. inversion Ha'; subst. exact Hne. }
    destruct (test_alleles_cases s1 d ab ac nq)
      as [s2' [d2' [nq2' [Et [_ Hcase]]]]].
    rewrite Ht in Et. inversion Et; subst s2' d2' nq2'.
    destruct Hcase as [[_ [_ [_ [Hr [_ _]]]]] | [[_ [_ [_ [Hr _]]]]
                      | [_ [_ [-> _]]]]].
    + rewrite Hr. exact Hr1.
    + rewrite Hr. discriminate.
    + exact Hr1.
  - destruct (process_site_insufficient binom_test str_float s nq Hf)
      as [s0 [H0 [_ [_ [_ [Hr [Ha _]]]]]]].
    rewrite Hp in H0. inversion H0; subst s0. rewrite Hr, Ha.
    split; discriminate.
Qed.

(** ** The tally, and when stages 3 to 5 complete *)





(** Where the anchor comes from. *)
Lemma resolve_anchor_base (s : snp) (d : dict allele) (s1 : snp)
      (ab : string) (ac : Z) :
  resolve_anchor s d = (s1, (ab, ac)) ->
  (ab = ref s /\ dict_get d (ref s) <> None) \/
  (ab = ref s /\ dict_get d (ref s) = None /\
   forall b a, In (b, a) d -> b <> alt s -> count a <= 0) \/
  (ab <> alt s /\ dict_get d (ref s) = None /\ exists a, In (ab, a) d).
Proof.
  unfold resolve_anchor. destruct (dict_get d (ref s)) as [ar|] eqn:E.
  - intros H. inversion H; subst. left. split; [reflexivity | discriminate].
  - destruct (scan_substitute (alt s) d (ref s, 0)) as [b c] eqn:Es.
    intros H.
    assert (Hab : ab = b)
      by (destruct (negb (String.eqb b (ref s))); inversion H; reflexivity).
    subst ab. right.
    destruct (scan_substitute_spec (alt s) d (ref s) 0) as [[Hs Hall] | Hex].
    + rewrite Es in Hs. inversion Hs; subst. left. auto.
    + destruct Hex as [b1 [c1 [pre [a [post [Hs [_ [Hb [Hd _]]]]]]]]].
      rewrite Es in Hs. inversion Hs; subst b1 c1. right.
      split; [exact Hb|]. split; [reflexivity|]. exists a. rewrite Hd.
      apply in_or_app. right. left. reflexivity.
Qed.

Lemma report_alt_step_total (s : snp) (d : dict allele) (nq : Z) :
  (forall a, dict_get d (alt s) = Some a -> pvalue a <> None) ->
  exists s' nq', report_alt_step str_float s d nq = Ok (s', nq').
Proof.
  intros H. unfold report_alt_step, get_pvalue.
  destruct (dict_get d (alt s)) as [a|]; [| eexists; eexists; reflexivity].
  specialize (H a eq_refl). destruct (pvalue a) as [p|]; [| congruence].
  simpl. eexists; eexists; reflexivity.
Qed.

Lemma one_key_length {V : Type} (d : dict V) (k : string) :
  NoDup (dict_keys d) ->
  (forall b v, In (b, v) d -> b = k) ->
  (List.length d <= 1)%nat.
Proof.
  destruct d as [|[b1 v1] [|[b2 v2] d]]; simpl; intros Hnd Hall; try lia.
  exfalso. inversion Hnd as [|? ? Hn _]; subst. apply Hn. left.
  rewrite (Hall b1 v1) by auto. rewrite (Hall b2 v2) by auto. reflexivity.
Qed.

Lemma In_short {A : Type} (l : list A) (x y : A) :
  (List.length l <= 1)%nat -> In x l -> In y l -> x = y.
Proof.
  destruct l as [|z [|z' l]]; simpl; intros Hl Hx Hy;
    [destruct Hx | | lia].
  destruct Hx as [Hx | []]. destruct Hy as [Hy | []]. congruence.
Qed.

(** Stages 3 to 5 complete on a site with sufficient reads whenever the
    counting does and the alternate base either was not observed or
    differs from the reference base and is not the only base observed. *)
Lemma process_site_completes (s : snp) (rs : list read) (d : dict allele)
      (nq : Z) :
  flag_sufficient_reads s = true ->
  reads s = Some rs ->
  count_alleles (pos s) rs = Ok d ->
  dict_mem d (alt s) = false \/ (alt s <> ref s /\ (2 <= List.length d)%nat) ->
  exists s' nq', process_site binom_test str_float s nq = Ok (s', nq').
Proof.
  intros Hf Hr Hc Hcond.
  pose proof (count_alleles_entry _ _ _ Hc) as Hent.
  pose proof (count_alleles_NoDup _ _ _ Hc) as Hnd.
  rewrite (process_site_unfold s rs d nq Hf Hr Hc).
  destruct (resolve_anchor (init_reports s) d) as [s1 [ab ac]] eqn:Ea.
  cbv beta iota.
  pose proof (resolve_anchor_core binom_test str_float (init_reports s) d)
    as Hcore1.
  rewrite Ea in Hcore1. simpl fst in Hcore1.
  assert (Hr1 : ref s1 = ref s)
    by (destruct Hcore1 as [_ [_ [_ [H _]]]]; exact H).
  assert (Ha1 : alt s1 = alt s)
    by (destruct Hcore1 as [_ [_ [_ [_ [H _]]]]]; exact H).
  apply resolve_anchor_base in Ea.
  change (ref (init_reports s)) with (ref s) in Ea.
  change (alt (init_reports s)) with (alt s) in Ea.
  destruct (test_alleles_cases s1 d ab ac nq)
    as [s2 [d2 [nq2 [Et [[Hcore2 _] Hcase]]]]].
  rewrite Et. cbv beta iota.
  assert (Ha2 : alt s2 = alt s)
    by (destruct Hcore2 as [_ [_ [_ [_ [H _]]]]]; congruence).
  assert (Hkey : (forall a, dict_get d2 (alt s) = Some a -> pvalue a <> None) /\
                 (forall b a, In (b, a) d2 -> b <> ab -> b <> alt s ->
                              pvalue a <> None)).
  { destruct Hcase as [[Hd2 [_ [_ [_ [Hab [Hmem _]]]]]]
                      | [[Hd2 [_ [_ [_ Hlen]]]] | [Hd2 [_ [_ Hlen]]]]].
    - (* no usable anchor: every observed base is the alternate *)
      subst d2. rewrite Hr1 in Hmem. unfold dict_mem in Hmem.
      assert (Hall : forall b a, In (b, a) d -> b = alt s).
      { destruct Ea as [[_ Hn] | [[_ [_ Hall]] | [_ [_ [a Hin]]]]].
        - destruct (dict_get d (ref s)); [discriminate | congruence].
        - intros b a Hin. destruct (String.eqb b (alt s)) eqn:E;
            [apply String.eqb_eq in E; exact E|].
          apply String.eqb_neq in E. specialize (Hall b a Hin E).
          destruct (Hent _ _ Hin) as [H1 _]. lia.
        - exfalso. rewrite Hab, Hr1 in Hin.
          destruct (dict_get d (ref s)) eqn:Eg; [discriminate|].
          apply dict_get_None_keys in Eg. apply Eg.
          apply (in_map fst) in Hin. exact Hin. }
      pose proof (one_key_length d (alt s) Hnd Hall) as Hlen.
      split.
      + intros a Hg. destruct Hcond as [Hm | [_ H2]]; [| lia].
        unfold dict_mem in Hm. rewrite Hg in Hm. discriminate.
      + intros b a Hin _ Hb. exfalso. apply Hb. exact (Hall b a Hin).
    - (* a single base, which is the anchor *)
      subst d2. destruct Hcond as [Hm | [_ H2]]; [| lia].
      unfold dict_mem in Hm. split.
      + intros a Hg. rewrite Hg in Hm. discriminate.
      + intros b a Hin Hb Hb'. exfalso.
        destruct Ea as [[Hab Hn] | [[_ [_ Hall]] | [_ [_ [a' Hin']]]]].
        * destruct (dict_get d (ref s)) as [ar|] eqn:Eg; [| congruence].
          apply dict_get_In in Eg.
          pose proof (In_short d _ _ Hlen Hin Eg) as Heq.
          inversion Heq; subst. apply Hb. reflexivity.
        * specialize (Hall b a Hin Hb').
          destruct (Hent _ _ Hin) as [H1 _]. lia.
        * pose proof (In_short d _ _ Hlen Hin Hin') as Heq.
          inversion Heq; subst. apply Hb. reflexivity.
    - (* the tests were run *)
      subst d2. split.
      + intros a Hg.
        assert (Hne : alt s <> ab).
        { destruct Hcond as [Hm | [Hne _]].
          - rewrite run_tests_get in Hg. unfold dict_mem in Hm.
            destruct (dict_get d (alt s)); discriminate.
          - destruct Ea as [[Hab _] | [[Hab _] | [Hab _]]]; congruence. }
        apply dict_get_In in Hg. eapply run_tests_pvalue; eassumption.
      + intros b a Hin Hb _. eapply run_tests_pvalue; eassumption. }
  destruct Hkey as [Halt Hoth].
  destruct (report_alt_step_total s2 d2 nq2) as [s3 [nq3 Hra]].
  { rewrite Ha2. exact Halt. }
  rewrite Hra. unfold bind at 1. cbv beta iota.
  destruct (report_alt_step_cases _ _ _ _ _ Hra) as [[Hcore3 _] _].
  assert (Ha3 : alt s3 = alt s)
    by (destruct Hcore3 as [_ [_ [_ [_ [H _]]]]]; congruence).
  destruct (report_other_total ab d2 s3) as [s4 Hro].
  { intros b a Hin Hb Hb'. rewrite Ha3 in Hb'. eapply Hoth; eassumption. }
  simpl fst. rewrite Hro. eexists. eexists. reflexivity.
Qed.

(** The alternate report asks for a p-value that no test has stored when
    the alternate base was observed but is the reference base itself or
    the only base observed. *)
Lemma process_site_untested_alternate (s : snp) (rs : list read)
      (d : dict allele) (nq : Z) :
  flag_sufficient_reads s = true ->
  reads s = Some rs ->
  count_alleles (pos s) rs = Ok d ->
  dict_mem d (alt s) = true ->
  alt s = ref s \/ (List.length d <= 1)%nat ->
  process_site binom_test str_float s nq = Raise (KeyError "pvalue").
Proof.
  intros Hf Hr Hc Hm Hcond.
  pose proof (count_alleles_entry _ _ _ Hc) as Hent.
  rewrite (process_site_unfold s rs d nq Hf Hr Hc).
  destruct (resolve_anchor (init_reports s) d) as [s1 [ab ac]] eqn:Ea.
  cbv beta iota.
  pose proof (resolve_anchor_core binom_test str_float (init_reports s) d)
    as Hcore1.
  rewrite Ea in Hcore1. simpl fst in Hcore1.
  assert (Ha1 : alt s1 = alt s)
    by (destruct Hcore1 as [_ [_ [_ [_ [H _]]]]]; exact H).
  apply resolve_anchor_base in Ea.
  change (ref (init_reports s)) with (ref s) in Ea.
  change (alt (init_reports s)) with (alt s) in Ea.
  destruct (test_alleles_cases s1 d ab ac nq)
    as [s2 [d2 [nq2 [Et [[Hcore2 _] Hcase]]]]].
  rewrite Et. cbv beta iota.
  assert (Ha2 : alt s2 = alt s)
    by (destruct Hcore2 as [_ [_ [_ [_ [H _]]]]]; congruence).
  unfold dict_mem in Hm.
  destruct (dict_get d (alt s)) as [aa|] eqn:Ealt; [| discriminate].
  assert (Hg2 : dict_get d2 (alt s) = Some aa).
  { destruct Hcase as [[-> _] | [[-> _] | [-> [_ [_ Hlen]]]]];
      try exact Ealt.
    rewrite run_tests_get, Ealt.
    destruct Hcond as [Heq | Hl]; [| lia].
    assert (Hab : ab = alt s).
    { destruct Ea as [[Hab _] | [[_ [Hn _]] | [_ [Hn _]]]]; congruence. }
    rewrite Hab, String.eqb_refl. reflexivity. }
  unfold report_alt_step. rewrite Ha2, Hg2. unfold get_pvalue.
  apply dict_get_In in Ealt. destruct (Hent _ _ Ealt) as [_ [Hnone _]].
  rewrite Hnone. reflexivity.
Qed.

(** X22. Which sites with sufficient reads stop the run in stages 3 to 5,
    once their bases are counted: exactly those whose alternate base was
    observed and is the reference base itself or the only base observed.
    On these the alternate report raises [KeyError] on 'pvalue'; on every
    other site the loop body completes. *)
Theorem covered_site_completes_iff (s : snp) (rs : list read)
        (d : dict allele) (nq : Z) :
  flag_sufficient_reads s = true ->
  reads s = Some rs ->
  count_alleles (pos s) rs = Ok d ->
  (is_ok (process_site binom_test str_float s nq) = true <->
   dict_mem d (alt s) = false \/
   (alt s <> ref s /\ (2 <= List.length d)%nat)) /\
  (is_ok (process_site binom_test str_float s nq) = false ->
   process_site binom_test str_float s nq = Raise (KeyError "pvalue")).
Proof.
  intros Hf Hr Hc.
  destruct (Bool.bool_dec (dict_mem d (alt s)) true) as [Em | Em].
  - destruct (String.eqb (alt s) (ref s)) eqn:Eeq.
    + apply String.eqb_eq in Eeq.
      rewrite (process_site_untested_alternate s rs d nq Hf Hr Hc Em
                 (or_introl Eeq)).
      simpl. split; [| reflexivity]. split; [discriminate|].
      intros [H | [H _]]; [congruence | contradiction].
    + apply String.eqb_neq in Eeq.
      destruct (le_lt_dec 2 (List.length d)) as [Hl | Hl].
      * destruct (process_site_completes s rs d nq Hf Hr Hc)
          as [s' [nq' Hp]]; [right; split; assumption|].
        rewrite Hp. simpl. split; [| discriminate].
        split; [intros _; right; split; assumption | reflexivity].
      * rewrite (process_site_untested_alternate s rs d nq Hf Hr Hc Em)
          by (right; lia).
        simpl. split; [| reflexivity]. split; [discriminate|].
        intros [H | [_ H]]; [congruence | lia].
  - apply not_true_is_false in Em.
    destruct (process_site_completes s rs d nq Hf Hr Hc)
      as [s' [nq' Hp]]; [left; exact Em|].
    rewrite Hp. simpl. split; [| discriminate].
    split; [intros _; left; exact Em | reflexivity].
Qed.


(** ** Runs that complete, and runs that cannot *)

Lemma is_valid_test_ok_entry (s : snp) :
  is_ok (is_valid_test s) = true ->
  flag_sufficient_reads s = true ->
  exists d a p, allelic_dict s = Some d /\ dict_get d (alt s) = Some a /\
                pvalue a = Some p.
Proof.
  unfold is_valid_test, alt_entry, dict_lookup, get_pvalue.
  intros H Hf. rewrite Hf in H. simpl in H.
  destruct (allelic_dict s) as [d|]; simpl in H; [| discriminate].
  destruct (dict_get d (alt s)) as [a|] eqn:Eg; simpl in H; [| discriminate].
  destruct (pvalue a) as [p|] eqn:Ep; simpl in H; [| discriminate].
  exists d, a, p. auto.
Qed.

Lemma process_site_counter (s s' : snp) (nq nq' : Z) :
  process_site binom_test str_float s nq = Ok (s', nq') ->
  is_ok (is_valid_test s') = true ->
  flag_sufficient_reads s' = flag_sufficient_reads s /\
  nq' = nq + (if flag_sufficient_reads s then 0 else 1).
Proof.
  intros Hp Hv. destruct (flag_sufficient_reads s) eqn:Hf.
  - destruct (process_site_result _ _ _ _ Hp Hf)
      as [rs [d [s1 [ab [ac [s2 [d2 [nq2 [s3 Hst]]]]]]]]].
    destruct Hst as [_ [Hc [_ [Ht [Hra [Hcore [_ [Hs2 [Had _]]]]]]]]].
    assert (Hf' : flag_sufficient_reads s' = true)
      by (destruct Hcore as [_ [_ [_ [_ [_ H]]]]]; congruence).
    split; [exact Hf'|].
    destruct (is_valid_test_ok_entry s' Hv Hf') as [d' [a [p [Hd' [Hg Hpv]]]]].
    rewrite Had in Hd'. inversion Hd'; subst d'.
    assert (Halt' : alt s' = alt s) by (destruct Hcore; tauto).
    assert (Halt2 : alt s2 = alt s) by (destruct Hs2; tauto).
    rewrite Halt' in Hg.
    pose proof (count_alleles_entry _ _ _ Hc) as Hent.
    destruct (report_alt_step_cases _ _ _ _ _ Hra) as [_ [_ [_ [_ Hcase]]]].
    destruct Hcase as [[Hn _] | [a3 [p3 [_ [_ [Hnq _]]]]]].
    { rewrite Halt2 in Hn. congruence. }
    destruct (test_alleles_cases s1 d ab ac nq)
      as [s2' [d2' [nq2' [Et [_ Hcase]]]]].
    rewrite Ht in Et. inversion Et; subst s2' d2' nq2'.
    destruct Hcase as [[Hd2 _] | [[Hd2 _] | [_ [Hnq2 _]]]].
    + subst d2. apply dict_get_In in Hg.
      destruct (Hent _ _ Hg) as [_ [Hnone _]]. congruence.
    + subst d2. apply dict_get_In in Hg.
      destruct (Hent _ _ Hg) as [_ [Hnone _]]. congruence.
    + lia.
  - destruct (process_site_insufficient binom_test str_float s nq Hf)
      as [s0 [H0 [Hcore _]]].
    rewrite Hp in H0. inversion H0; subst.
    split; [| reflexivity]. destruct Hcore as [_ [_ [_ [_ [_ H]]]]]. congruence.
Qed.

Lemma collect_ok_each (snp_dict : dict snp) :
  forall pool0 pool,
    foldM collect_step snp_dict pool0 = Ok pool ->
    forall k s, In (k, s) snp_dict -> is_ok (is_valid_test s) = true.
Proof.
  induction snp_dict as [|[k0 s0] rest IH]; intros pool0 pool H k s Hin.
  - destruct Hin.
  - simpl foldM in H. inv_bind H. destruct Hin as [Heq | Hin].
    + inversion Heq; subst. unfold collect_step in Hx.
      destruct (is_valid_test s); [reflexivity | discriminate].
    + eapply IH; eassumption.
Qed.

(** Over sites whose eligibility check does not raise, the counter grows by
    one for every site with too few reads and by nothing else. *)
Lemma process_sites_counter (snp_dict : dict snp) :
  forall nq d3 nq',
    process_sites binom_test str_float snp_dict nq = Ok (d3, nq') ->
    (forall k s, In (k, s) d3 -> is_ok (is_valid_test s) = true) ->
    nq' = nq + insufficient_count snp_dict /\
    insufficient_count d3 = insufficient_count snp_dict.
Proof.
  induction snp_dict as [|[k s] rest IH]; intros nq d3 nq' Hp Heach.
  - simpl in Hp. inversion Hp; subst. unfold insufficient_count. simpl.
    split; [lia | reflexivity].
  - simpl process_sites in Hp. inv_bind Hp. destruct x as [s1 nq1].
    inv_bind Hp. destruct x as [rest' nq2]. inversion Hp; subst.
    destruct (process_site_counter _ _ _ _ Hx
                (Heach k s1 (or_introl eq_refl))) as [Hfl Hnq].
    destruct (IH _ _ _ Hx0) as [H1 H2].
    { intros k' s' Hin. apply (Heach k' s'). right. exact Hin. }
    unfold insufficient_count in *. simpl filter. rewrite Hfl.
    destruct (flag_sufficient_reads s); simpl negb; cbv iota.
    + split; [lia | exact H2].
    + simpl List.length. rewrite !Nat2Z.inj_succ. split; lia.
Qed.

(** X13. In every run that reaches the summary line, the count of not
    queried sites is exactly the number of sites with too few reads: no
    other site can add to the counter without stopping the run at the
    collection of the FDR pool. *)
Theorem not_queried_counts_insufficient (snp_dict d3 : dict snp) (nq nq' : Z)
        (pool : dict valid_test) :
  process_sites binom_test str_float snp_dict nq = Ok (d3, nq') ->
  collect_valid_tests d3 = Ok pool ->
  nq' = nq + insufficient_count snp_dict /\
  insufficient_count d3 = insufficient_count snp_dict.
Proof.
  unfold collect_valid_tests. intros Hp Hc.
  apply (process_sites_counter _ _ _ _ Hp).
  intros k s Hin.
  destruct (is_valid_test s) as [b|e] eqn:Ev; [reflexivity|].
  exfalso. clear Hp. revert Hc Hin. generalize (@nil (string * valid_test)).
  induction d3 as [|[k0 s0] rest IH]; intros pool0 Hc Hin; [destruct Hin|].
  simpl foldM in Hc. inv_bind Hc. destruct Hin as [Heq | Hin].
  - inversion Heq; subst. unfold collect_step in Hx. rewrite Ev in Hx.
    discriminate.
  - exact (IH _ Hc Hin).
Qed.

Lemma process_sites_forward (snp_dict : dict snp) :
  forall nq d3 nq',
    process_sites binom_test str_float snp_dict nq = Ok (d3, nq') ->
    forall k s, In (k, s) snp_dict ->
      exists s' n n', In (k, s') d3 /\
                      process_site binom_test str_float s n = Ok (s', n').
Proof.
  induction snp_dict as [|[k0 s0] rest IH]; intros nq d3 nq' H k s Hin.
  - destruct Hin.
  - simpl process_sites in H. inv_bind H. destruct x as [s1 nq1].
    inv_bind H. destruct x as [rest' nq2]. inversion H; subst.
    destruct Hin as [Heq | Hin].
    + inversion Heq; subst. exists s1, nq, nq1. split; [left; reflexivity|].
      exact Hx.
    + destruct (IH _ _ _ Hx0 _ _ Hin) as [s' [n [n' [H1 H2]]]].
      exists s', n, n'. split; [right; exact H1 | exact H2].
Qed.

(** X14. A single site with sufficient reads none of which shows the
    alternate base keeps the whole run from completing: if stages 3 to 5
    get through all sites, the collection of the FDR pool ends in an
    exception. *)
Theorem unobserved_alternate_stops_run
        (snp_dict d3 : dict snp) (nq nq' : Z) (k : string) (s : snp)
        (rs : list read) :
  In (k, s) snp_dict ->
  flag_sufficient_reads s = true ->
  reads s = Some rs ->
  (forall r, In r rs -> base_at (pos s) r <> Some (alt s)) ->
  process_sites binom_test str_float snp_dict nq = Ok (d3, nq') ->
  is_ok (collect_valid_tests d3) = false.
Proof.
  intros Hin Hf Hr Hno Hp.
  destruct (process_sites_forward _ _ _ _ Hp _ _ Hin)
    as [s' [n [n' [Hin' Hps]]]].
  destruct (process_site_steps _ _ _ _ Hps Hf)
    as [rs' [d [_ [_ [_ [_ [_ [_ [_ [_ [Hr' [Hc _]]]]]]]]]]]].
  rewrite Hr in Hr'. inversion Hr'; subst rs'.
  assert (Hnone : dict_get d (alt s) = None).
  { destruct (dict_get d (alt s)) as [a|] eqn:E; [| reflexivity].
    exfalso. destruct (count_alleles_observed _ _ _ (alt s) Hc)
      as [r [Hrin Hb]].
    - unfold dict_mem. rewrite E. reflexivity.
    - exact (Hno r Hrin Hb). }
  pose proof (missing_alternate_raises binom_test str_float _ _ _ _ _ _
                Hps Hf Hr Hc Hnone) as Hraise.
  destruct (collect_valid_tests d3) as [pool|e] eqn:Ec; [| reflexivity].
  unfold collect_valid_tests in Ec.
  pose proof (collect_ok_each _ _ _ Ec _ _ Hin') as Hok.
  rewrite Hraise in Hok. discriminate.
Qed.

(** X15. A site with sufficient reads all of which show the alternate base
    stops the run in stage 5: the alternate report asks for a p-value that
    no test has stored, which is [KeyError] on 'pvalue'. *)
Theorem only_alternate_raises (s : snp) (rs : list read) (nq : Z) :
  flag_sufficient_reads s = true ->
  reads s = Some rs ->
  rs <> [] ->
  (forall r, In r rs -> base_at (pos s) r = Some (alt s)) ->
  process_site binom_test str_float s nq = Raise (KeyError "pvalue").
Proof.
  intros Hf Hr Hne Hall.
  pose proof (count_alleles_only_base _ _ _ Hne Hall) as Hc.
  rewrite (process_site_unfold s rs _ nq Hf Hr Hc).
  set (d := [(alt s, mkAllele (Z.of_nat (List.length rs)) None)]).
  assert (Hga : dict_get d (alt s)
                = Some (mkAllele (Z.of_nat (List.length rs)) None)).
  { unfold d. simpl. rewrite String.eqb_refl. reflexivity. }
  destruct (resolve_anchor (init_reports s) d) as [s1 [ab ac]] eqn:Ea.
  destruct (test_alleles_cases s1 d ab ac nq)
    as [s2 [d2 [nq2 [Et [[Hcore _] Hcase]]]]].
  rewrite Et.
  assert (Hd2 : d2 = d).
  { destruct Hcase as [[H _] | [[H _] | [_ [_ [_ Hl]]]]]; auto.
    unfold d in Hl. simpl in Hl. lia. }
  subst d2.
  pose proof (resolve_anchor_core binom_test str_float (init_reports s) d)
    as H1.
  rewrite Ea in H1. simpl fst in H1.
  assert (Halt2 : alt s2 = alt s).
  { destruct Hcore as [_ [_ [_ [_ [H2 _]]]]].
    destruct H1 as [_ [_ [_ [_ [H1 _]]]]]. simpl in H1. congruence. }
  unfold report_alt_step. rewrite Halt2, Hga. reflexivity.
Qed.

Lemma process_sites_length (snp_dict : dict snp) :
  forall nq d3 nq',
    process_sites binom_test str_float snp_dict nq = Ok (d3, nq') ->
    List.length d3 = List.length snp_dict /\ dict_keys d3 = dict_keys snp_dict.
Proof.
  induction snp_dict as [|[k s] rest IH]; intros nq d3 nq' H.
  - simpl in H. inversion H; subst. auto.
  - simpl process_sites in H. inv_bind H. destruct x as [s1 nq1].
    inv_bind H. destruct x as [rest' nq2]. inversion H; subst.
    destruct (IH _ _ _ Hx0) as [H1 H2]. simpl. rewrite H1, H2. auto.
Qed.

(** X20. In a run that gets past the collection of the FDR pool a site can
    carry only three comments: "Insufficient_Total_Reads;" when it has too
    few reads, none when it was tested against its reference base, and
    "No_Ref_Reads;Calc_rel_to_<base>;" when it was tested against a
    substitute; every other tag belongs to a site that stops the run. *)
Theorem comments_of_completed_runs (s s' : snp) (nq nq' : Z) :
  process_site binom_test str_float s nq = Ok (s', nq') ->
  is_ok (is_valid_test s') = true ->
  (flag_sufficient_reads s = false /\
   report_comment s' = "Insufficient_Total_Reads;") \/
  (flag_sufficient_reads s = true /\
   (report_comment s' = "" \/
    exists base, report_comment s'
                 = "No_Ref_Reads;Calc_rel_to_" +++ base +++ ";")).
Proof.
  intros Hp Hv. destruct (flag_sufficient_reads s) eqn:Hf.
  - right. split; [reflexivity|].
    destruct (process_site_result _ _ _ _ Hp Hf)
      as [rs [d [s1 [ab [ac [s2 [d2 [nq2 [s3 Hst]]]]]]]]].
    destruct Hst as [_ [Hc [Ha [Ht [Hra [Hcore [_ [Hs2 [Had [_ [Hc3 _]]]]]]]]]]].
    assert (Hf' : flag_sufficient_reads s' = true)
      by (destruct Hcore as [_ [_ [_ [_ [_ H]]]]]; congruence).
    destruct (is_valid_test_ok_entry s' Hv Hf') as [d' [a [p [Hd' [Hg Hpv]]]]].
    rewrite Had in Hd'. inversion Hd'; subst d'.
    assert (Halt' : alt s' = alt s) by (destruct Hcore; tauto).
    assert (Halt2 : alt s2 = alt s) by (destruct Hs2; tauto).
    rewrite Halt' in Hg.
    pose proof (count_alleles_entry _ _ _ Hc) as Hent.
    destruct (report_alt_step_cases _ _ _ _ _ Hra)
      as [_ [_ [_ [_ Hcase]]]].
    destruct Hcase as [[Hn _] | [a3 [p3 [_ [_ [_ [Hc2 _]]]]]]].
    { rewrite Halt2 in Hn. congruence. }
    destruct (test_alleles_cases s1 d ab ac nq)
      as [s2' [d2' [nq2' [Et [_ Hcase]]]]].
    rewrite Ht in Et. inversion Et; subst s2' d2' nq2'.
    destruct Hcase as [[Hd2 _] | [[Hd2 _] | [_ [_ [Hs21 _]]]]].
    + subst d2. apply dict_get_In in Hg.
      destruct (Hent _ _ Hg) as [_ [Hnone _]]. congruence.
    + subst d2. apply dict_get_In in Hg.
      destruct (Hent _ _ Hg) as [_ [Hnone _]]. congruence.
    + subst s2. rewrite Hc3, Hc2.
      destruct (dict_get d (ref (init_reports s))) as [ar|] eqn:Eref.
      * rewrite (resolve_anchor_found _ d ar Eref) in Ha.
        inversion Ha; subst. left. reflexivity.
      * destruct (resolve_anchor_missing _ d Eref)
          as [s1' [ab' [ac' [Ha' [Hcm _]]]]].
        rewrite Ha in Ha'. inversion Ha'; subst s1' ab' ac'.
        right. exists ab. rewrite Hcm. reflexivity.
  - left. split; [reflexivity|].
    destruct (process_site_insufficient binom_test str_float s nq Hf)
      as [s0 [H0 [_ [_ [_ [_ [_ [_ Hc]]]]]]]].
    rewrite Hp in H0. inversion H0; subst s0. exact Hc.
Qed.


End SiteSteps.

(** ** The position sort *)

Lemma re_sub_from_no_hr (s : string) :
  contains_hr s = false ->
  forall pending, re_sub_from pending s = pending +++ s.
Proof.
  induction s as [|a s IH]; intros H pending.
  - simpl. rewrite str_append_nil. reflexivity.
  - simpl in H. apply orb_false_iff in H. destruct H as [Hhr Hrest].
    simpl re_sub_from. destruct (in_chr_class a).
    + rewrite (IH Hrest). rewrite str_append_assoc. reflexivity.
    + destruct s as [|b s'].
      * reflexivity.
      * rewrite Hhr. rewrite (IH Hrest). reflexivity.
Qed.

Section PositionSortProperties.

Variable py_int : string -> result Z.

(** X18. A leading "chr" or "Chr" does not change the chromosome number of
    a label, and a label without "hr" is numbered as it stands: "X", "Y"
    and "M" get 23, 24 and 25, any other label what [int] makes of it. *)
Theorem chr_prefix_ignored (rest : string) :
  chr_number py_int ("chr" +++ rest) = chr_number py_int rest /\
  chr_number py_int ("Chr" +++ rest) = chr_number py_int rest /\
  (contains_hr rest = false ->
   chr_number py_int rest
   = if String.eqb rest "X" then Ok 23
     else if String.eqb rest "Y" then Ok 24
     else if String.eqb rest "M" then Ok 25
     else py_int rest).
Proof.
  assert (Hsub : (if contains_hr rest then re_sub_chr rest else rest)
                 = re_sub_chr rest).
  { destruct (contains_hr rest) eqn:E; [reflexivity|].
    unfold re_sub_chr. rewrite (re_sub_from_no_hr rest E). reflexivity. }
  unfold chr_number. rewrite Hsub.
  split; [reflexivity|]. split; [reflexivity|].
  intros E. unfold re_sub_chr. rewrite (re_sub_from_no_hr rest E).
  reflexivity.
Qed.

Lemma position_lt_false_le (x y : Z * Z * string) :
  position_lt y x = false -> position_le x y.
Proof.
  destruct x as [[cx px] kx], y as [[cy py] ky]. unfold position_lt, position_le.
  simpl. destruct (cy =? cx) eqn:E.
  - apply Z.eqb_eq in E. intros H. apply Z.ltb_ge in H. lia.
  - apply Z.eqb_neq in E. intros H. apply Z.ltb_ge in H. lia.
Qed.

Lemma position_lt_true_le (x y : Z * Z * string) :
  position_lt y x = true -> position_le y x /\ fst y <> fst x.
Proof.
  destruct x as [[cx px] kx], y as [[cy py] ky]. unfold position_lt, position_le.
  simpl. destruct (cy =? cx) eqn:E.
  - apply Z.eqb_eq in E. intros H. apply Z.ltb_lt in H.
    split; [lia|]. intros Heq. inversion Heq. lia.
  - apply Z.eqb_neq in E. intros H. apply Z.ltb_lt in H.
    split; [lia|]. intros Heq. inversion Heq. lia.
Qed.

Lemma insert_by_position_perm (x : Z * Z * string) (l : list (Z * Z * string)) :
  Permutation (insert_by_position x l) (x :: l).
Proof.
  induction l as [|y l IH]; simpl; [reflexivity|].
  destruct (position_lt y x); [| reflexivity].
  rewrite IH. apply perm_swap.
Qed.

Lemma sort_positions_perm (l : list (Z * Z * string)) :
  Permutation (sort_positions l) l.
Proof.
  induction l as [|x l IH]; simpl; [reflexivity|].
  rewrite insert_by_position_perm. apply perm_skip. exact IH.
Qed.

Lemma insert_by_position_sorted (x : Z * Z * string) (l : list (Z * Z * string)) :
  Sorted position_le l -> Sorted position_le (insert_by_position x l).
Proof.
  induction l as [|y l IH]; simpl; intros Hs.
  - repeat constructor.
  - destruct (position_lt y x) eqn:E.
    + inversion Hs as [|? ? Hs' Hhd]; subst.
      constructor; [apply IH; exact Hs'|].
      destruct l as [|z l]; simpl.
      * constructor. apply position_lt_true_le. exact E.
      * destruct (position_lt z x); constructor.
        -- inversion Hhd; assumption.
        -- apply position_lt_true_le. exact E.
    + constructor; [exact Hs|]. constructor.
      apply position_lt_false_le. exact E.
Qed.

Lemma sort_positions_sorted (l : list (Z * Z * string)) :
  StronglySorted position_le (sort_positions l).
Proof.
  apply Sorted_StronglySorted.
  - intros x y z. unfold position_le. lia.
  - induction l as [|x l IH]; simpl; [constructor|].
    apply insert_by_position_sorted. exact IH.
Qed.

Lemma insert_by_position_stable (c p : Z) (x : Z * Z * string)
      (l : list (Z * Z * string)) :
  filter (at_position c p) (insert_by_position x l)
  = filter (at_position c p) (x :: l).
Proof.
  induction l as [|y l IH]; [reflexivity|].
  simpl insert_by_position. destruct (position_lt y x) eqn:E; [| reflexivity].
  apply position_lt_true_le in E. destruct E as [_ Hne].
  simpl filter in *. rewrite IH.
  destruct (at_position c p y) eqn:Ey; destruct (at_position c p x) eqn:Ex;
    try reflexivity.
  exfalso. apply Hne. unfold at_position in Ey, Ex.
  apply andb_true_iff in Ey, Ex. destruct Ey as [E1 E2], Ex as [E3 E4].
  apply Z.eqb_eq in E1, E2, E3, E4.
  destruct x as [[cx px] kx], y as [[cy py] ky]. simpl in *. congruence.
Qed.

Lemma sort_positions_stable (c p : Z) (l : list (Z * Z * string)) :
  filter (at_position c p) (sort_positions l) = filter (at_position c p) l.
Proof.
  induction l as [|x l IH]; [reflexivity|].
  simpl sort_positions. rewrite insert_by_position_stable.
  simpl. rewrite IH. reflexivity.
Qed.

Lemma position_tuples_Forall2 (d : dict snp) :
  forall tuples,
    position_tuples py_int d = Ok tuples ->
    Forall2 (fun e t => snd t = fst e /\ snd (fst t) = pos (snd e) /\
                        chr_number py_int (chr (snd e)) = Ok (fst (fst t)))
            d tuples.
Proof.
  unfold position_tuples.
  induction d as [|[k s] d IH]; intros tuples H.
  - simpl in H. inversion H; subst. constructor.
  - simpl mapM in H. inv_bind H. inv_bind Hx. inversion Hx; subst x.
    inv_bind H. inversion H; subst.
    constructor; [simpl; auto | apply IH; exact Hx1].
Qed.

Lemma sort_by_position_keys (d : dict snp) (keys : list string) :
  sort_by_position py_int d = Ok keys -> Permutation keys (dict_keys d).
Proof.
  intros H. unfold sort_by_position in H. inv_bind H.
  inversion H; subst keys.
  apply Permutation_trans with (map snd x).
  - apply Permutation_map. apply sort_positions_perm.
  - apply position_tuples_Forall2 in Hx. unfold dict_keys. clear H.
    induction Hx as [|e t d ts [H1 _] _ IH]; simpl; [constructor|].
    rewrite H1. constructor. exact IH.
Qed.

(** X19. With [--sortby position] the keys are printed in a rearrangement
    of the registry in which the pairs (chromosome number, position) never
    decrease, and sites with the same chromosome number and position keep
    the order they have in the registry.  The sort fails exactly when the
    label of some site has no chromosome number. *)
Theorem sort_by_position_order (d : dict snp) :
  (is_ok (sort_by_position py_int d) = true <->
   forall k s, In (k, s) d -> is_ok (chr_number py_int (chr s)) = true) /\
  (forall keys,
      sort_by_position py_int d = Ok keys ->
      exists tuples,
        Forall2 (fun e t => snd t = fst e /\ snd (fst t) = pos (snd e) /\
                            chr_number py_int (chr (snd e)) = Ok (fst (fst t)))
                d tuples /\
        keys = map snd (sort_positions tuples) /\
        Permutation keys (dict_keys d) /\
        StronglySorted position_le (sort_positions tuples) /\
        forall c p, filter (at_position c p) (sort_positions tuples)
                    = filter (at_position c p) tuples).
Proof.
  split.
  - unfold sort_by_position, position_tuples.
    induction d as [|[k s] d IH]; simpl.
    + split; [intros _ k s [] | reflexivity].
    + destruct (chr_number py_int (chr s)) as [c|e] eqn:Ec; simpl.
      * destruct (mapM _ d) as [ts|e] eqn:Em; simpl in *.
        -- split; [| reflexivity]. intros _ k' s' [Heq | Hin].
           ++ inversion Heq; subst. rewrite Ec. reflexivity.
           ++ apply (proj1 IH eq_refl k' s' Hin).
        -- split; [discriminate|]. intros H. apply IH.
           intros k' s' Hin. apply (H k' s'). right. exact Hin.
      * split; [discriminate|]. intros H.
        specialize (H k s (or_introl eq_refl)). rewrite Ec in H. discriminate.
  - intros keys H. unfold sort_by_position in H. inv_bind H.
    inversion H; subst keys. exists x.
    pose proof (position_tuples_Forall2 d x Hx) as HF.
    split; [exact HF|]. split; [reflexivity|].
    split; [| split; [apply sort_positions_sorted |
                      intros c p; apply sort_positions_stable]].
    apply Permutation_trans with (map snd x).
    + apply Permutation_map. apply sort_positions_perm.
    + assert (Heq : map snd x = dict_keys d).
      { clear - HF. unfold dict_keys.
        induction HF as [|e t d ts [H1 _] HF IH]; simpl; congruence. }
      rewrite Heq. reflexivity.
Qed.

End PositionSortProperties.

(** ** The report *)

Lemma entries_in_order {V : Type} (d : dict V) (keys : list string) :
  NoDup (dict_keys d) ->
  Permutation keys (dict_keys d) ->
  exists entries,
    Permutation entries d /\ map fst entries = keys /\
    Forall (fun e => dict_get d (fst e) = Some (snd e)) entries.
Proof.
  intros Hnd Hperm.
  assert (Hex : forall ks,
             (forall k, In k ks -> In k (dict_keys d)) ->
             exists entries,
               map fst entries = ks /\
               Forall (fun e => dict_get d (fst e) = Some (snd e)) entries).
  { induction ks as [|k ks IH]; intros Hin.
    - exists []. split; [reflexivity | constructor].
    - destruct IH as [es [Hm Hf]];
        [intros k' Hk'; apply Hin; right; exact Hk'|].
      destruct (dict_get d k) as [v|] eqn:Eg.
      + exists ((k, v) :: es). split; [simpl; congruence|].
        constructor; [exact Eg | exact Hf].
      + apply dict_get_None_keys in Eg. exfalso. apply Eg, Hin.
        left. reflexivity. }
  destruct (Hex keys) as [entries [Hm Hf]].
  { intros k Hk. apply (Permutation_in _ Hperm). exact Hk. }
  exists entries. split; [| split; [exact Hm | exact Hf]].
  apply NoDup_Permutation_bis.
  - apply (NoDup_map_inv fst). rewrite Hm.
    apply (Permutation_NoDup (Permutation_sym Hperm)). exact Hnd.
  - rewrite <- (length_map fst entries), Hm, (Permutation_length Hperm).
    unfold dict_keys. rewrite length_map. apply Nat.le_refl.
  - intros [k v] He. rewrite Forall_forall in Hf. specialize (Hf _ He).
    apply dict_get_In in Hf. exact Hf.
Qed.

Lemma with_qvalues_qvalue (pool : dict valid_test) (qs : list Q) (k : string)
      (v : valid_test) :
  dict_get (with_qvalues pool qs) k = Some v -> vt_qvalue v <> None.
Proof.
  intros Hv. apply dict_get_In in Hv. unfold with_qvalues in Hv.
  apply in_map_iff in Hv. destruct Hv as [[[k0 v0] q] [Heq _]].
  inversion Heq; subst. discriminate.
Qed.

Section Report.

Variable py_int : string -> result Z.
Variable binom_test : Z -> Z -> Q.
Variable str_float : Q -> string.

(** A line can be assembled for every key of a pool that has been through
    the FDR step. *)
Lemma output_line_total (pool' : dict valid_test) (key : string) (s : snp) :
  (forall v, dict_get pool' key = Some v -> vt_qvalue v <> None) ->
  exists line, output_line str_float pool' key s = Ok line.
Proof.
  intros Hq. unfold output_line, pq_columns.
  destruct (dict_get pool' key) as [v|]; [| eexists; reflexivity].
  specialize (Hq v eq_refl).
  destruct (vt_qvalue v) as [q|]; [eexists; reflexivity | congruence].
Qed.

Lemma print_lines_in_order (d3 : dict snp) (pool' : dict valid_test)
      (entries : list (string * snp)) :
  (forall k v, dict_get pool' k = Some v -> vt_qvalue v <> None) ->
  Forall (fun e => dict_get d3 (fst e) = Some (snd e)) entries ->
  exists lines,
    print_lines str_float d3 pool' (map fst entries) = mkOutcome lines None /\
    Forall2 (fun e line =>
               output_line str_float pool' (fst e) (snd e) = Ok line)
            entries lines.
Proof.
  intros Hq Hf. induction Hf as [|[k s] es Hk _ IH].
  - exists []. split; [reflexivity | constructor].
  - destruct IH as [lines [Hp HF]]. simpl in Hk.
    destruct (output_line_total pool' k s (Hq k)) as [line Hl].
    exists (line :: lines). split.
    + simpl. unfold dict_lookup. rewrite Hk. simpl. rewrite Hl, Hp.
      reflexivity.
    + constructor; [exact Hl | exact HF].
Qed.

(** Printing in an order that goes through the keys of the registry once
    gives every site its line and cannot raise. *)
Lemma print_lines_sites (d3 : dict snp) (pool' : dict valid_test)
      (keys : list string) :
  (forall k v, dict_get pool' k = Some v -> vt_qvalue v <> None) ->
  NoDup (dict_keys d3) ->
  Permutation keys (dict_keys d3) ->
  exists lines,
    print_lines str_float d3 pool' keys = mkOutcome lines None /\
    one_line_per_site str_float d3 pool' keys lines.
Proof.
  intros Hq Hnd Hperm.
  destruct (entries_in_order d3 keys Hnd Hperm) as [entries [Hpe [Hm Hf]]].
  destruct (print_lines_in_order d3 pool' entries Hq Hf) as [lines [Hp HF]].
  exists lines. rewrite Hm in Hp. split; [exact Hp|].
  exists entries. auto.
Qed.

Lemma sort_by_pvalue_keys (d3 : dict snp) (pool' : dict valid_test) :
  Permutation (sort_by_pvalue d3 pool') (dict_keys d3).
Proof.
  unfold sort_by_pvalue.
  apply Permutation_trans
    with (map snd (combine (map (sort_value pool') (dict_keys d3))
                           (dict_keys d3))).
  - apply Permutation_map. apply py_sorted_perm.
  - rewrite snd_combine_map. reflexivity.
Qed.

(** ** The condition of 6.1 on a site without an alternate p-value *)

Lemma alt_entry_raise_key (s : snp) (e : exn) :
  alt_entry s = Raise e -> exists k, e = KeyError k.
Proof.
  unfold alt_entry, dict_lookup.
  destruct (allelic_dict s) as [d|]; simpl; [| intros H; inversion H; eauto].
  destruct (dict_get d (alt s)); intros H; inversion H; eauto.
Qed.

Lemma is_valid_test_raise_key (s : snp) (e : exn) :
  is_valid_test s = Raise e -> exists k, e = KeyError k.
Proof.
  unfold is_valid_test, get_pvalue.
  destruct (negb (flag_sufficient_reads s)); [discriminate|].
  destruct (alt_entry s) as [a|e0] eqn:Ea; simpl.
  - destruct (pvalue a); simpl; [| intros H; inversion H; eauto].
    destruct (negb (count a >? 0)); discriminate.
  - intros H. inversion H; subst. exact (alt_entry_raise_key s e Ea).
Qed.

Lemma collect_step_raise_key (e : string * snp) (pool0 : dict valid_test)
      (x : exn) :
  collect_step e pool0 = Raise x -> exists k, x = KeyError k.
Proof.
  unfold collect_step, get_pvalue. destruct e as [key s].
  destruct (is_valid_test s) as [[|]|e0] eqn:Ev; simpl.
  - destruct (alt_entry s) as [a|e1] eqn:Ea; simpl.
    + destruct (pvalue a); simpl; intros H; inversion H; eauto.
    + intros H. inversion H; subst. exact (alt_entry_raise_key s x Ea).
  - discriminate.
  - intros H. inversion H; subst. exact (is_valid_test_raise_key s x Ev).
Qed.

(** One site on which the condition raises stops the collection. *)
Lemma collect_raises (d : dict snp) (key : string) (s : snp) :
  In (key, s) d ->
  (exists k, is_valid_test s = Raise (KeyError k)) ->
  forall pool0, exists k, foldM collect_step d pool0 = Raise (KeyError k).
Proof.
  induction d as [|[k0 s0] d IH]; intros Hin Hv pool0; [destruct Hin|].
  change (foldM collect_step ((k0, s0) :: d) pool0)
    with (bind (collect_step (k0, s0) pool0)
               (fun s' => foldM collect_step d s')).
  destruct (collect_step (k0, s0) pool0) as [pool1|x] eqn:Es.
  - simpl. destruct Hin as [Heq | Hin]; [| apply IH; assumption].
    inversion Heq; subst. unfold collect_step in Es.
    destruct Hv as [k Hv]. rewrite Hv in Es. discriminate.
  - simpl. destruct (collect_step_raise_key _ _ _ Es) as [k ->]. eauto.
Qed.

(** C2. The condition of line 336 does not put a site with sufficient
    reads whose alternate base has no p-value outside the pool.  Such a
    site does not satisfy the eligibility predicate, yet the condition
    does not evaluate to false on it: it raises [KeyError].  The
    collection of the pool over any dictionary that holds such a site
    raises [KeyError] too, and a run whose stages 2 to 5 lead to that
    dictionary ends in [KeyError] with nothing printed, whatever the sort
    option: there is no pool, and no line with "." in the p-value and
    q-value columns for this or any other site. *)
Theorem fdr_pool_check_raises (snp_dict : dict snp) (key : string) (s : snp) :
  In (key, s) snp_dict ->
  flag_sufficient_reads s = true ->
  (forall a, alt_entry s = Ok a -> pvalue a = None) ->
  ~ eligible s /\
  (exists k, is_valid_test s = Raise (KeyError k)) /\
  (exists k, collect_valid_tests snp_dict = Raise (KeyError k)) /\
  forall cfg args_sortby bams sites d1 d2 nq,
    extract_reads cfg bams sites = Ok d1 ->
    for_each_snp (min_reads_gate cfg) d1 = Ok d2 ->
    process_sites binom_test str_float d2 0 = Ok (snp_dict, nq) ->
    exists k,
      run_core py_int binom_test str_float cfg args_sortby bams sites
      = mkOutcome [] (Some (KeyError k)).
Proof.
  intros Hin Hf Hp.
  assert (Hv : exists k, is_valid_test s = Raise (KeyError k)).
  { unfold is_valid_test, get_pvalue. rewrite Hf. simpl negb. cbv iota.
    destruct (alt_entry s) as [a|e] eqn:Ea; simpl.
    - rewrite (Hp a eq_refl). simpl. eauto.
    - destruct (alt_entry_raise_key s e Ea) as [k ->]. eauto. }
  assert (Hc : exists k, collect_valid_tests snp_dict = Raise (KeyError k))
    by (apply (collect_raises snp_dict key s Hin Hv)).
  split; [| split; [exact Hv | split; [exact Hc|]]].
  - intros [_ [[a [p [Ha Hpv]]] _]]. rewrite (Hp a Ha) in Hpv.
    destruct Hpv as [Hpv _]. discriminate.
  - intros cfg args_sortby bams sites d1 d2 nq He Hg Hps.
    destruct Hc as [k Hc]. exists k.
    unfold run_core, run_stages. rewrite He. unfold bind at 1. rewrite Hg.
    unfold bind at 1. rewrite Hps. unfold bind at 1. rewrite Hc.
    reflexivity.
Qed.

(** X16. Once the FDR pool has been collected nothing can stop the run.
    The FDR step succeeds.  With [--sortby pvalue] and with
    [--sortby position], when every chromosome label has a number, the
    printing succeeds and the lines are those of the sites of the
    registry, one for each site, in the sorted order.  Without the option
    [args.sortby] is the string ['pvalue'], its first element is ["p"], no
    order is selected and no site line is printed. *)
Theorem output_after_collection (d3 : dict snp) (pool : dict valid_test) :
  NoDup (dict_keys d3) ->
  collect_valid_tests d3 = Ok pool ->
  exists pool',
    fdr_stage pool = Ok pool' /\
    (exists lines,
        select_sorted_keys py_int (ArgList ["pvalue"]) d3 pool'
        = Ok (sort_by_pvalue d3 pool') /\
        print_lines str_float d3 pool' (sort_by_pvalue d3 pool')
        = mkOutcome lines None /\
        one_line_per_site str_float d3 pool' (sort_by_pvalue d3 pool') lines) /\
    (forall keys,
        select_sorted_keys py_int (ArgList ["position"]) d3 pool' = Ok keys ->
        sort_by_position py_int d3 = Ok keys /\
        exists lines,
          print_lines str_float d3 pool' keys = mkOutcome lines None /\
          one_line_per_site str_float d3 pool' keys lines) /\
    select_sorted_keys py_int (ArgStr "pvalue") d3 pool' = Ok [] /\
    print_lines str_float d3 pool' [] = mkOutcome [] None.
Proof.
  unfold collect_valid_tests. intros Hnd3 Hc.
  assert (Hnd : NoDup (dict_keys pool))
    by (apply (collect_NoDup _ _ _ Hc); constructor).
  pose proof (fdr_stage_exact pool Hnd) as Hfdr.
  set (pool' := with_qvalues pool
                  (fdr_bh (map (fun e => vt_pvalue (snd e)) pool))) in *.
  assert (Hq : forall k v, dict_get pool' k = Some v -> vt_qvalue v <> None)
    by (intros k v; apply with_qvalues_qvalue).
  exists pool'. split; [exact Hfdr|]. split; [| split].
  - destruct (print_lines_sites d3 pool' _ Hq Hnd3 (sort_by_pvalue_keys d3 pool'))
      as [lines [Hp Hl]].
    exists lines. split; [reflexivity|]. split; [exact Hp | exact Hl].
  - intros keys Hk.
    assert (Hs : sort_by_position py_int d3 = Ok keys) by exact Hk.
    split; [exact Hs|].
    exact (print_lines_sites d3 pool' keys Hq Hnd3
             (sort_by_position_keys py_int d3 keys Hs)).
  - split; reflexivity.
Qed.

(** The stages before the summary line, put together. *)
Lemma run_stages_ok (cfg : config) (bams : list bamfile)
      (snp_dict d1 d2 d3 : dict snp) (nq : Z) (pool : dict valid_test) :
  extract_reads cfg bams snp_dict = Ok d1 ->
  for_each_snp (min_reads_gate cfg) d1 = Ok d2 ->
  process_sites binom_test str_float d2 0 = Ok (d3, nq) ->
  collect_valid_tests d3 = Ok pool ->
  run_stages binom_test str_float cfg bams snp_dict
  = Ok (d3, nq,
        with_qvalues pool (fdr_bh (map (fun e => vt_pvalue (snd e)) pool))).
Proof.
  intros He Hg Hp Hc.
  assert (Hnd : NoDup (dict_keys pool))
    by (apply (collect_NoDup _ _ _ Hc); constructor).
  unfold run_stages. rewrite He. unfold bind at 1. rewrite Hg.
  unfold bind at 1. rewrite Hp. unfold bind at 1. rewrite Hc.
  unfold bind at 1. rewrite (fdr_stage_exact pool Hnd). reflexivity.
Qed.

(** X17. When read extraction, the gate, stages 3 to 5 and the collection
    of the pool succeed, the core prints the summary line first: the
    number of sites of the registry and, as not queried, the number of
    sites with too few reads.  With [--sortby pvalue] it then prints one
    line for every site and ends without an exception; so it does with
    [--sortby position] when the position sort succeeds, and when that
    sort raises the run ends in its exception with the summary line
    alone on the output.  Without a sort option only the summary line is
    printed. *)
Theorem run_core_output (cfg : config) (bams : list bamfile)
        (snp_dict d1 d2 d3 : dict snp) (nq : Z) (pool : dict valid_test) :
  NoDup (dict_keys snp_dict) ->
  extract_reads cfg bams snp_dict = Ok d1 ->
  for_each_snp (min_reads_gate cfg) d1 = Ok d2 ->
  process_sites binom_test str_float d2 0 = Ok (d3, nq) ->
  collect_valid_tests d3 = Ok pool ->
  exists pool' summary,
    fdr_stage pool = Ok pool' /\
    summary = summary_line (Z.of_nat (List.length snp_dict))
                           (insufficient_count d2) /\
    dict_keys d3 = dict_keys snp_dict /\
    (exists lines,
        run_core py_int binom_test str_float cfg (ArgList ["pvalue"])
                 bams snp_dict
        = mkOutcome (summary :: lines) None /\
        one_line_per_site str_float d3 pool' (sort_by_pvalue d3 pool') lines) /\
    (forall keys,
        sort_by_position py_int d3 = Ok keys ->
        exists lines,
          run_core py_int binom_test str_float cfg (ArgList ["position"])
                   bams snp_dict
          = mkOutcome (summary :: lines) None /\
          one_line_per_site str_float d3 pool' keys lines) /\
    (forall e,
        sort_by_position py_int d3 = Raise e ->
        run_core py_int binom_test str_float cfg (ArgList ["position"])
                 bams snp_dict
        = mkOutcome [summary] (Some e)) /\
    run_core py_int binom_test str_float cfg (ArgStr "pvalue") bams snp_dict
    = mkOutcome [summary] None.
Proof.
  intros Hnd0 He Hg Hp Hc.
  pose proof (run_stages_ok cfg bams _ _ _ _ _ _ He Hg Hp Hc) as Hrun.
  assert (Hndp : NoDup (dict_keys pool))
    by (apply (collect_NoDup _ _ _ Hc); constructor).
  set (pool' := with_qvalues pool
                  (fdr_bh (map (fun e => vt_pvalue (snd e)) pool))) in *.
  assert (Hq : forall k v, dict_get pool' k = Some v -> vt_qvalue v <> None)
    by (intros k v; apply with_qvalues_qvalue).
  destruct (process_sites_counter binom_test str_float _ _ _ _ Hp) as [Hnq _].
  { intros k s Hin. eapply collect_ok_each; [exact Hc | exact Hin]. }
  destruct (process_sites_length binom_test str_float _ _ _ _ Hp)
    as [Hl3 Hk3].
  pose proof (for_each_snp_keys _ _ _ Hg) as Hk2.
  pose proof (extract_reads_keys _ _ _ _ He) as Hk1.
  assert (Hkeys : dict_keys d3 = dict_keys snp_dict) by congruence.
  assert (Hlen : List.length d3 = List.length snp_dict).
  { unfold dict_keys in Hkeys.
    rewrite <- (length_map fst d3), Hkeys. apply length_map. }
  assert (Hnd3 : NoDup (dict_keys d3)) by (rewrite Hkeys; exact Hnd0).
  assert (Hsum : summary_line (Z.of_nat (List.length d3)) nq
                 = summary_line (Z.of_nat (List.length snp_dict))
                                (insufficient_count d2)).
  { rewrite Hlen, Hnq. f_equal. }
  exists pool'. eexists. split; [apply fdr_stage_exact; exact Hndp|].
  split; [reflexivity|]. split; [exact Hkeys|].
  split; [| split; [| split]].
  - destruct (print_lines_sites d3 pool' _ Hq Hnd3 (sort_by_pvalue_keys d3 pool'))
      as [lines [Hpl Hl]].
    exists lines. split; [| exact Hl].
    unfold run_core. rewrite Hrun.
    change (select_sorted_keys py_int (ArgList ["pvalue"]) d3 pool')
      with (Ok (sort_by_pvalue d3 pool')).
    cbv iota. rewrite Hpl, Hsum. reflexivity.
  - intros keys Hs.
    destruct (print_lines_sites d3 pool' keys Hq Hnd3
                (sort_by_position_keys py_int d3 keys Hs)) as [lines [Hpl Hl]].
    exists lines. split; [| exact Hl].
    unfold run_core. rewrite Hrun.
    change (select_sorted_keys py_int (ArgList ["position"]) d3 pool')
      with (sort_by_position py_int d3).
    rewrite Hs. cbv iota. rewrite Hpl, Hsum. reflexivity.
  - intros e Hs. unfold run_core. rewrite Hrun.
    change (select_sorted_keys py_int (ArgList ["position"]) d3 pool')
      with (sort_by_position py_int d3).
    rewrite Hs. cbv iota. rewrite Hsum. reflexivity.
  - unfold run_core. rewrite Hrun.
    change (select_sorted_keys py_int (ArgStr "pvalue") d3 pool')
      with (@Ok (list string) []).
    cbv iota. simpl print_lines. rewrite Hsum. reflexivity.
Qed.

End Report.

(** ** What the pool holds *)


Lemma dict_set_fresh {V : Type} (d : dict V) (k : string) (v : V) :
  ~ In k (dict_keys d) -> dict_set d k v = (d ++ [(k, v)])%list.
Proof.
  induction d as [|[e w] d IH]; simpl; intros H; [reflexivity|].
  destruct (String.eqb e k) eqn:E.
  - apply String.eqb_eq in E. tauto.
  - rewrite IH by tauto. reflexivity.
Qed.

Lemma pool_entry_keys (e : string * snp) (k : string) :
  In k (dict_keys (pool_entry e)) -> k = fst e.
Proof.
  unfold pool_entry.
  destruct (is_valid_test (snd e)) as [[|]|]; simpl; try tauto.
  destruct (alt_entry (snd e)) as [a|]; simpl; try tauto.
  destruct (pvalue a); simpl; intuition.
Qed.

(** X21. The FDR pool lists the sites that pass the condition of 6.1, in
    registry order, each with the p-value of its alternate base and no
    q-value yet; sites that do not pass leave no trace in it, so they
    cannot bear on any q-value. *)
Theorem pool_is_the_eligible_sites (snp_dict : dict snp) (pool : dict valid_test) :
  NoDup (dict_keys snp_dict) ->
  collect_valid_tests snp_dict = Ok pool ->
  pool = flat_map pool_entry snp_dict.
Proof.
  unfold collect_valid_tests.
  assert (Hgen : forall d pool0 pool1,
             NoDup (dict_keys d) ->
             (forall k, In k (dict_keys pool0) -> ~ In k (dict_keys d)) ->
             foldM collect_step d pool0 = Ok pool1 ->
             pool1 = (pool0 ++ flat_map pool_entry d)%list).
  { clear. induction d as [|[k s] d IH]; intros pool0 pool1 Hnd Hdis H.
    - simpl in H. inversion H; subst. simpl. rewrite app_nil_r. reflexivity.
    - simpl foldM in H. inv_bind H. simpl dict_keys in Hnd.
      inversion Hnd as [|? ? Hk Hnd']; subst.
      assert (Hx' : x = (pool0 ++ pool_entry (k, s))%list).
      { unfold collect_step in Hx. unfold pool_entry. simpl fst. simpl snd.
        destruct (is_valid_test s) as [[|]|]; simpl in Hx; try discriminate.
        - destruct (alt_entry s) as [a|]; simpl in Hx; [| discriminate].
          unfold get_pvalue in Hx.
          destruct (pvalue a) as [p|]; simpl in Hx; [| discriminate].
          inversion Hx; subst x. apply dict_set_fresh.
          intros Hin. apply (Hdis k Hin). left. reflexivity.
        - inversion Hx; subst. rewrite app_nil_r. reflexivity. }
      subst x.
      assert (Hdis' : forall k', In k' (dict_keys (pool0 ++ pool_entry (k, s))%list)
                                 -> ~ In k' (dict_keys d)).
      2:{ rewrite (IH _ _ Hnd' Hdis' H). simpl flat_map.
          rewrite app_assoc. reflexivity. }
      intros k' Hin Hind.
      unfold dict_keys in Hin. rewrite map_app in Hin.
      apply in_app_or in Hin. destruct Hin as [Hin | Hin].
      + apply (Hdis k' Hin). right. exact Hind.
      + apply pool_entry_keys in Hin. simpl in Hin. subst k'.
        contradiction. }
  intros Hnd H.
  assert (Hempty : forall k, In k (dict_keys (@nil (string * valid_test)))
                             -> ~ In k (dict_keys snp_dict))
    by (intros k []).
  rewrite (Hgen _ _ _ Hnd Hempty H). reflexivity.
Qed.

(** ** The further properties on sample input *)

Lemma fdr_pool_check_raises_witness :
  allelic_dict ten_ref_result = Some [("A", mkAllele 10 None)] /\
  report_comment ten_ref_result = "Insufficient_Alleles;No_Alt_Reads;" /\
  ~ eligible ten_ref_result /\
  (exists k, is_valid_test ten_ref_result = Raise (KeyError k)) /\
  (exists k,
      collect_valid_tests [("rs1", ten_ref_result)] = Raise (KeyError k)) /\
  forall args_sortby, exists k,
    run_core int_of_digits binom_test_exact show_Q default_cfg args_sortby
             [bam_ten_ref] [("rs1", site_rs1)]
    = mkOutcome [] (Some (KeyError k)).
Proof.
  split; [reflexivity|]. split; [reflexivity|].
  destruct (fdr_pool_check_raises int_of_digits binom_test_exact show_Q
              [("rs1", ten_ref_result)] "rs1" ten_ref_result)
    as [H1 [H2 [H3 H4]]].
  - left. reflexivity.
  - reflexivity.
  - intros a H. vm_compute in H. discriminate.
  - split; [exact H1|]. split; [exact H2|]. split; [exact H3|].
    intros args_sortby.
    apply (H4 default_cfg args_sortby [bam_ten_ref] [("rs1", site_rs1)]
              [("rs1", set_reads site_rs1 (Some ten_ref_reads))]
              [("rs1", ten_ref_site)] 2);
      vm_compute; reflexivity.
Defined.


Lemma load_snps_keys_unique_witness :
  exists d n,
    load_snps split_blank int_of_digits sample_cfg bed_lines = Ok (d, n) /\
    NoDup (dict_keys d) /\ 0 <= n /\
    Z.of_nat (List.length d) + n
    <= Z.of_nat (List.length (data_lines bed_lines)).
Proof.
  eexists. eexists.
  assert (H : load_snps split_blank int_of_digits sample_cfg bed_lines
              = Ok ([("rs1", new_snp "chr1" 300 "rs1" "C" "T");
                     ("rs2", new_snp "chr1" 200 "rs2" "ACG" "T")], 1))
    by (vm_compute; reflexivity).
  split; [exact H|].
  exact (load_snps_keys_unique split_blank int_of_digits _ _ _ _ H).
Defined.

Lemma load_snps_bed_key_is_id_witness :
  id (new_snp "chr1" 200 "rs2" "ACG" "T") = "rs2" /\
  indel_check "ACG" "T" = false /\
  reads (new_snp "chr1" 200 "rs2" "ACG" "T") = None.
Proof.
  apply (load_snps_bed_key_is_id split_blank int_of_digits sample_cfg bed_lines
           [("rs1", new_snp "chr1" 300 "rs1" "C" "T");
            ("rs2", new_snp "chr1" 200 "rs2" "ACG" "T")] 1).
  - reflexivity.
  - vm_compute. reflexivity.
  - simpl. right. left. reflexivity.
Defined.

Lemma load_snps_last_line_wins_witness :
  exists d n r a,
    load_snps split_blank int_of_digits sample_cfg
              ["chr1 100 101 rs1 A G"; "chr1 200 201 rs2 ACG T"] = Ok (d, n) /\
    index_or_raise (split_blank "chr1 300 301 rs1 C T") 4 = Ok r /\
    index_or_raise (split_blank "chr1 300 301 rs1 C T") 5 = Ok a /\
    indel_check r a = false /\
    dict_get [("rs1", new_snp "chr1" 300 "rs1" "C" "T");
              ("rs2", new_snp "chr1" 200 "rs2" "ACG" "T")] "rs1"
    = Some (new_snp "chr1" 300 "rs1" "C" "T").
Proof.
  destruct (load_snps_last_line_wins split_blank int_of_digits sample_cfg
              ["chr1 100 101 rs1 A G"; "chr1 200 201 rs2 ACG T"]
              "chr1 300 301 rs1 C T"
              [("rs1", new_snp "chr1" 300 "rs1" "C" "T");
               ("rs2", new_snp "chr1" 200 "rs2" "ACG" "T")] 0)
    as [d [n [r [a [H1 [H2 [H3 _]]]]]]].
  - vm_compute. reflexivity.
  - reflexivity.
  - exists d, n, r, a. split; [exact H1|]. split; [exact H2|].
    split; [exact H3|].
    vm_compute in H2, H3. inversion H2; inversion H3; subst.
    split; reflexivity.
Defined.

Lemma extract_reads_pools_witness :
  Forall2 (fun e e' => fst e' = fst e /\
                       same_but_reads (snd e) (snd e') /\
                       reads (snd e')
                       = pooled_reads sample_cfg [bam_mixed] (snd e))
          sample_sites sample_extracted.
Proof.
  apply (extract_reads_pools sample_cfg [bam_mixed] sample_sites
                             sample_extracted).
  vm_compute. reflexivity.
Defined.

Lemma count_alleles_entries_witness :
  NoDup (dict_keys covered_counts) /\
  (forall b a, In (b, a) covered_counts ->
               1 <= count a /\ pvalue a = None /\ String.length b = 1%nat) /\
  (forall b, dict_mem covered_counts b = true <->
             exists r, In r covered_reads /\ base_at 100 r = Some b).
Proof.
  apply (count_alleles_entries 100 covered_reads covered_counts).
  vm_compute. reflexivity.
Defined.

Lemma count_alleles_after_filter_witness :
  exists d, count_alleles 100 covered_reads = Ok d.
Proof.
  apply (count_alleles_after_filter sample_cfg 100 covered_reads covered_reads).
  - vm_compute. reflexivity.
  - intros r [<- | [<- | [<- | [<- | []]]]]; simpl; lia.
Defined.

Lemma tested_site_report_witness :
  exists s',
    process_site binom_test_exact show_Q covered_site 5 = Ok (s', 5) /\
    report_comment s' = "" /\
    report_ref s' = "A" +++ ":" +++ str_int 2 /\
    report_alt s'
    = "G" +++ ":" +++ str_int 1 +++ ":"
        +++ show_Q (binom_test_exact 1 (1 + 2)) /\
    report_other s'
    = other_fields show_Q "A" "G" (run_tests binom_test_exact "A" 2 covered_counts) /\
    alt_entry s' = Ok (mkAllele 1 (Some (binom_test_exact 1 (1 + 2)))) /\
    is_valid_test s' = Ok true /\
    reads s' = None.
Proof.
  apply (tested_site_report binom_test_exact show_Q covered_site covered_reads
           covered_counts (mkAllele 2 None) (mkAllele 1 None) 5).
  - reflexivity.
  - reflexivity.
  - vm_compute. reflexivity.
  - reflexivity.
  - reflexivity.
  - simpl. discriminate.
Defined.

Lemma eligible_iff_both_observed_witness :
  is_valid_test covered_result = Ok true <->
  dict_mem covered_counts "A" = true /\ dict_mem covered_counts "G" = true /\
  "A" <> "G".
Proof.
  apply (eligible_iff_both_observed binom_test_exact show_Q covered_site
           covered_result covered_reads covered_counts 0 0).
  - reflexivity.
  - reflexivity.
  - vm_compute. reflexivity.
  - vm_compute. reflexivity.
Defined.

Lemma long_reference_never_eligible_witness :
  is_valid_test long_ref_result <> Ok true.
Proof.
  apply (long_reference_never_eligible binom_test_exact show_Q long_ref_site
           long_ref_result 0 0).
  - simpl. lia.
  - vm_compute. reflexivity.
Defined.

Lemma reports_never_empty_witness :
  report_ref long_ref_result <> "" /\ report_alt long_ref_result <> "".
Proof.
  apply (reports_never_empty binom_test_exact show_Q long_ref_site
           long_ref_result 0 0).
  vm_compute. reflexivity.
Defined.

Lemma not_queried_counts_insufficient_witness :
  1 = 0 + insufficient_count sample_gated /\
  insufficient_count sample_processed = insufficient_count sample_gated.
Proof.
  apply (not_queried_counts_insufficient binom_test_exact show_Q sample_gated
           sample_processed 0 1 sample_pool).
  - vm_compute. reflexivity.
  - vm_compute. reflexivity.
Defined.

Lemma unobserved_alternate_stops_run_witness :
  is_ok (collect_valid_tests ref_only_processed) = false.
Proof.
  apply (unobserved_alternate_stops_run binom_test_exact show_Q
           [("rs1", ref_only_site)] ref_only_processed 0 2 "rs1" ref_only_site
           [plain_read 100 "A"; plain_read 99 "CA"]).
  - left. reflexivity.
  - reflexivity.
  - reflexivity.
  - intros r [<- | [<- | []]]; vm_compute; discriminate.
  - vm_compute. reflexivity.
Defined.

Lemma only_alternate_raises_witness :
  process_site binom_test_exact show_Q alt_only_site 0
  = Raise (KeyError "pvalue").
Proof.
  apply (only_alternate_raises binom_test_exact show_Q alt_only_site
           alt_only_reads 0).
  - reflexivity.
  - reflexivity.
  - discriminate.
  - intros r [<- | [<- | []]]; reflexivity.
Defined.

Lemma sample_sites_NoDup : NoDup (dict_keys sample_sites).
Proof.
  simpl. repeat constructor; simpl; intuition discriminate.
Qed.

Lemma output_after_collection_witness :
  exists pool',
    fdr_stage sample_pool = Ok pool' /\
    (exists lines,
        select_sorted_keys int_of_digits (ArgList ["pvalue"])
                           sample_processed pool'
        = Ok (sort_by_pvalue sample_processed pool') /\
        print_lines show_Q sample_processed pool'
                    (sort_by_pvalue sample_processed pool')
        = mkOutcome lines None /\
        one_line_per_site show_Q sample_processed pool'
                          (sort_by_pvalue sample_processed pool') lines) /\
    (forall keys,
        select_sorted_keys int_of_digits (ArgList ["position"])
                           sample_processed pool' = Ok keys ->
        sort_by_position int_of_digits sample_processed = Ok keys /\
        exists lines,
          print_lines show_Q sample_processed pool' keys
          = mkOutcome lines None /\
          one_line_per_site show_Q sample_processed pool' keys lines) /\
    select_sorted_keys int_of_digits (ArgStr "pvalue") sample_processed pool'
    = Ok [] /\
    print_lines show_Q sample_processed pool' [] = mkOutcome [] None.
Proof.
  apply (output_after_collection int_of_digits show_Q
           sample_processed sample_pool).
  - exact sample_processed_NoDup.
  - vm_compute. reflexivity.
Defined.

Lemma run_core_output_witness :
  exists pool' summary,
    fdr_stage sample_pool = Ok pool' /\
    summary = summary_line (Z.of_nat (List.length sample_sites))
                           (insufficient_count sample_gated) /\
    dict_keys sample_processed = dict_keys sample_sites /\
    (exists lines,
        run_core int_of_digits binom_test_exact show_Q sample_cfg
                 (ArgList ["pvalue"]) [bam_mixed] sample_sites
        = mkOutcome (summary :: lines) None /\
        one_line_per_site show_Q sample_processed pool'
                          (sort_by_pvalue sample_processed pool') lines) /\
    (forall keys,
        sort_by_position int_of_digits sample_processed = Ok keys ->
        exists lines,
          run_core int_of_digits binom_test_exact show_Q sample_cfg
                   (ArgList ["position"]) [bam_mixed] sample_sites
          = mkOutcome (summary :: lines) None /\
          one_line_per_site show_Q sample_processed pool' keys lines) /\
    (forall e,
        sort_by_position int_of_digits sample_processed = Raise e ->
        run_core int_of_digits binom_test_exact show_Q sample_cfg
                 (ArgList ["position"]) [bam_mixed] sample_sites
        = mkOutcome [summary] (Some e)) /\
    run_core int_of_digits binom_test_exact show_Q sample_cfg
             (ArgStr "pvalue") [bam_mixed] sample_sites
    = mkOutcome [summary] None.
Proof.
  apply (run_core_output int_of_digits binom_test_exact show_Q sample_cfg
           [bam_mixed] sample_sites sample_extracted sample_gated
           sample_processed 1 sample_pool).
  - exact sample_sites_NoDup.
  - vm_compute. reflexivity.
  - vm_compute. reflexivity.
  - vm_compute. reflexivity.
  - vm_compute. reflexivity.
Defined.

Lemma covered_site_completes_iff_witness :
  (is_ok (process_site binom_test_exact show_Q covered_site 0) = true <->
   dict_mem covered_counts (alt covered_site) = false \/
   (alt covered_site <> ref covered_site /\
    (2 <= List.length covered_counts)%nat)) /\
  (is_ok (process_site binom_test_exact show_Q covered_site 0) = false ->
   process_site binom_test_exact show_Q covered_site 0
   = Raise (KeyError "pvalue")).
Proof.
  apply (covered_site_completes_iff binom_test_exact show_Q covered_site
           covered_reads covered_counts 0).
  - reflexivity.
  - reflexivity.
  - vm_compute. reflexivity.
Defined.

Lemma comments_of_completed_runs_witness :
  (flag_sufficient_reads long_ref_site = false /\
   report_comment long_ref_result = "Insufficient_Total_Reads;") \/
  (flag_sufficient_reads long_ref_site = true /\
   (report_comment long_ref_result = "" \/
    exists base, report_comment long_ref_result
                 = "No_Ref_Reads;Calc_rel_to_" +++ base +++ ";")).
Proof.
  apply (comments_of_completed_runs binom_test_exact show_Q long_ref_site
           long_ref_result 0 0).
  - vm_compute. reflexivity.
  - vm_compute. reflexivity.
Defined.

Lemma pool_is_the_eligible_sites_witness :
  sample_pool = flat_map pool_entry sample_processed.
Proof.
  apply (pool_is_the_eligible_sites sample_processed sample_pool).
  - exact sample_processed_NoDup.
  - vm_compute. reflexivity.
Defined.
